(** * gibrun: rate limiter, key scanner and migrator

    A shallow embedding of the three policy-carrying parts of the gibrun
    package (the fixed-window rate limiter, the [Scanner] returned by
    [Blusukan], and [Migrate]) together with the properties their
    specification states about them, and of what surrounds them: the HTTP
    middleware of the limiter, and the builders [Gib], [Run] and [Sprint].

    Conventions of the embedding:
    - Go's [int] and [int64] are 64-bit two's complement integers, embedded
      in [Z]; arithmetic that can leave the range is wrapped with [wrap64].
    - [time.Duration] is the number of nanoseconds, an [int64].
    - [time.Time] is the number of nanoseconds since the Unix epoch.
    - Go's [float64] is IEEE 754 binary64; its values are embedded as
      mantissa and exponent in [Z], every operation rounding its exact
      result to the nearest float, a tie to the even one ([Float64]).
    - The go-redis client and the context are the outside world. Every
      function takes the world and returns the world it leaves behind; the
      operations the package calls on the world are the fields of the class
      [Rdb].  Two implementations of that class serve as concrete worlds:
      [Mem.MemWorld], a small in-memory store with expiry, and
      [Script.World], which replays scripted replies. *)

From Stdlib Require Import ZArith Lia Bool List Ascii String Sorted.
From Stdlib Require Import DecimalString DecimalZ Floats Uint63.
From stdpp Require Import base option gmap strings list fin_maps.

Import ListNotations.
Local Open Scope string_scope.
Local Open Scope list_scope.
Local Open Scope Z_scope.

(** ** Go scalars *)

Definition min_int64 : Z := - 2 ^ 63.
Definition max_int64 : Z := 2 ^ 63 - 1.

Definition in_int64 (z : Z) : Prop := min_int64 <= z <= max_int64.

(** Two's complement wrap-around of a 64-bit signed result. *)
Definition wrap64 (z : Z) : Z := (z + 2 ^ 63) mod 2 ^ 64 - 2 ^ 63.

(** [time.Duration] constants. *)
Definition time_Duration := Z.
Definition Second : time_Duration := 1000000000.
Definition Minute : time_Duration := 60 * Second.

(** [time.Time], as nanoseconds since the epoch. *)
Definition time_Time := Z.

(** [t.Unix()]: whole seconds since the epoch. *)
Definition Unix (t : time_Time) : Z := t / Second.

(** [t.Add(d)]. *)
Definition Time_Add (t : time_Time) (d : time_Duration) : time_Time := t + d.

(** ** float64

    The finite values of a [float64]: [mant * 2 ^ expo], with a mantissa of
    at most 53 bits and an exponent of at least -1074.  The floats met
    here come from 64-bit integers and their quotients, far from the
    largest float: infinities and NaN are left out. *)

Module Float64.

Record t : Type := { mant : Z; expo : Z }.

(** The integer nearest to [n / d], for [0 < d]; a half goes to the even
    neighbour. *)
Definition round_half_even (n d : Z) : Z :=
  let q := n / d in
  let r := n mod d in
  if 2 * r <? d then q
  else if d <? 2 * r then q + 1
  else if Z.even q then q else q + 1.

(** [floor (log2 (n / d))], for [0 < n] and [0 < d]: the difference of the
    bit lengths, or one less. *)
Definition ilog2 (n d : Z) : Z :=
  let l := Z.log2 n - Z.log2 d in
  if (if 0 <=? l then n <? d * 2 ^ l else n * 2 ^ (- l) <? d)
  then l - 1 else l.

(** The float nearest to the rational [n / d], for [0 < d]: the exponent
    is the one that leaves 53 bits to the mantissa (for a subnormal, the
    least one), and the mantissa is [n / d] over [2 ^ expo], rounded. *)
Definition round (n d : Z) : t :=
  if n =? 0 then {| mant := 0; expo := 0 |}
  else
    let a := Z.abs n in
    let e := Z.max (ilog2 a d - 52) (-1074) in
    let m := if 0 <=? e then round_half_even a (d * 2 ^ e)
             else round_half_even (a * 2 ^ (- e)) d in
    {| mant := Z.sgn n * m; expo := e |}.

(** The value of a float is the fraction [num / den]. *)
Definition num (x : t) : Z :=
  if 0 <=? expo x then mant x * 2 ^ expo x else mant x.

Definition den (x : t) : Z :=
  if 0 <=? expo x then 1 else 2 ^ (- expo x).

(** [float64(z)]. *)
Definition of_int (z : Z) : t := round z 1.

(** [x + y]. *)
Definition add (x y : t) : t :=
  round (num x * den y + num y * den x) (den x * den y).

(** [x / y], for [y] other than zero. *)
Definition div (x y : t) : t :=
  round (Z.sgn (num y) * num x * den y) (den x * Z.abs (num y)).

(** [int64(x)]: the fraction is dropped. *)
Definition to_int64 (x : t) : Z := Z.quot (num x) (den x).

End Float64.

(** [d.Seconds()], as package [time] computes it:
    [float64(d / Second) + float64(d % Second) / 1e9]. *)
Definition Seconds (d : time_Duration) : Float64.t :=
  let sec := Z.quot d Second in
  let nsec := Z.rem d Second in
  Float64.add (Float64.of_int sec)
    (Float64.div (Float64.of_int nsec) (Float64.of_int 1000000000)).

(** [int64(d.Seconds())]. *)
Definition Seconds_int64 (d : time_Duration) : Z :=
  Float64.to_int64 (Seconds d).

(** [d.Seconds()] once more, on the floats of the kernel, which are
    binary64: the yardstick for [Float64]. *)
Definition prim_of_int (z : Z) : float :=
  if z <? 0 then PrimFloat.opp (PrimFloat.of_uint63 (Uint63.of_Z (- z)))
  else PrimFloat.of_uint63 (Uint63.of_Z z).

Definition prim_Seconds (d : time_Duration) : float :=
  PrimFloat.add (prim_of_int (Z.quot d Second))
    (PrimFloat.div (prim_of_int (Z.rem d Second)) (prim_of_int 1000000000)).

(** Whether [x] has the value of the kernel float [f]. *)
Definition same_value (x : Float64.t) (f : float) : bool :=
  match Prim2SF f with
  | S754_zero _ => Float64.num x =? 0
  | S754_finite s m e =>
      let v := {| Float64.mant := if s then Z.neg m else Z.pos m;
                  Float64.expo := e |} in
      Float64.num x * Float64.den v =? Float64.num v * Float64.den x
  | _ => false
  end.

(** Durations around the places where the float rounds, and others. *)
Definition sample_durations : list time_Duration :=
  [0; 1; 499999999; 500000000; 500000001; 999999999; 1000000000; 1000000001;
  1500000000; 2500000000; 3500000000; 60000000000; 16777215999999999;
  16777216000000000; 16777216499999999; 16777216500000000;
  16777216500000001; 16777216999999999; 33554431999999999;
  33554432999999999; 8388607999999999; 123456789123456789;
  9223372036000000000; 9223372036854775807; 8589727616586344453;
  3503074255122127410; 211944550765605; 2615658569448273025; 92919267170;
  4178140156718112184; 33778299132070; 77565181395; 17433834377915279;
  996291671; 450380431874412013; 21195855334352973; (-1); (-499999999);
  (-500000000); (-500000001); (-999999999); (-1000000000); (-1000000001);
  (-1500000000); (-2500000000); (-3500000000); (-60000000000);
  (-16777215999999999); (-16777216000000000); (-16777216499999999);
  (-16777216500000000); (-16777216500000001); (-16777216999999999);
  (-33554431999999999); (-33554432999999999)].

(** [fmt.Sprintf("%d", z)]. *)
Definition itoa (z : Z) : string := NilZero.string_of_int (Z.to_int z).

(** ** Errors and outcomes *)

(** Go [error] values: a base error, or [fmt.Errorf("<msg>: %w", cause)]. *)
Inductive error : Type :=
| ErrNew (msg : string)
| ErrWrap (msg : string) (cause : error).

(** The reply of one store command: its value or its error. *)
Inductive reply (A : Type) : Type :=
| Val (a : A)
| Fail (e : error).
Arguments Val {A} a.
Arguments Fail {A} e.

Definition reply_err {A} (r : reply A) : option error :=
  match r with Val _ => None | Fail e => Some e end.

(** [cmd.Val()]: the value, or the zero value when the command failed. *)
Definition reply_val {A} (zero : A) (r : reply A) : A :=
  match r with Val a => a | Fail _ => zero end.

(** A Go call either returns or panics. *)
Inductive run (A : Type) : Type :=
| Ret (a : A)
| Panic (msg : string).
Arguments Ret {A} a.
Arguments Panic {A} msg.

Definition divide_by_zero : string := "runtime error: integer divide by zero".

(** Go's [a / b] on int64. *)
Definition int64_div (a b : Z) : run Z :=
  if b =? 0 then Panic divide_by_zero else Ret (wrap64 (Z.quot a b)).

(** ** The outside world *)

(** A [*Client] (or [*ClusterClient]) handle. *)
Definition Client := N.

(** What the package asks of its surroundings.  [ctx_Err] is [ctx.Err()]:
    [Some] exactly when [ctx.Done()] is closed.  The [rdb_] fields are the
    go-redis commands the package issues; each may change the world and
    replies with a value or an error. *)
Class Rdb (W : Type) : Type := {
  time_Now : W -> time_Time;
  time_Sleep : time_Duration -> W -> W;
  ctx_Err : W -> option error;
  rdb_IncrBy : Client -> string -> Z -> W -> W * reply Z;
  rdb_Expire : Client -> string -> time_Duration -> W -> W * reply bool;
  rdb_TTL : Client -> string -> W -> W * reply time_Duration;
  rdb_Del : Client -> string -> W -> W * reply Z;
  rdb_Get : Client -> string -> W -> W * reply string;
  rdb_Set : Client -> string -> string -> time_Duration -> W -> W * reply unit;
  rdb_Scan : Client -> Z -> string -> Z -> W -> W * reply (list string * Z);
  rdb_ScanType :
    Client -> Z -> string -> Z -> string -> W -> W * reply (list string * Z)
}.

(** ** Rate limiter *)

(** [KeyFunc], which only the HTTP middleware calls, is kept with the
    middleware, in [Http.t]. *)
Record RateLimitConfig : Type := {
  KeyPrefix : string;
  Rate : Z;
  Window : time_Duration;
  BurstSize : Z
}.

Record RateLimitResult : Type := {
  Allowed : bool;
  Remaining : Z;
  ResetAt : time_Time;
  RetryAfter : time_Duration
}.

Module RateLimiter.

Record t : Type := { client : Client; config : RateLimitConfig }.

Definition NewRateLimiter (c : Client) (cfg : RateLimitConfig) : t :=
  let cfg :=
    if String.eqb (KeyPrefix cfg) ""
    then {| KeyPrefix := "ratelimit"; Rate := Rate cfg;
            Window := Window cfg; BurstSize := BurstSize cfg |}
    else cfg in
  let cfg :=
    if BurstSize cfg =? 0
    then {| KeyPrefix := KeyPrefix cfg; Rate := Rate cfg;
            Window := Window cfg; BurstSize := Rate cfg |}
    else cfg in
  {| client := c; config := cfg |}.

(** [buildKey]: the counter key of [key] in the window that holds [t]. *)
Definition buildKey (rl : t) (key : string) (now : time_Time) : run string :=
  match int64_div (Unix now) (Seconds_int64 (Window (config rl))) with
  | Panic m => Panic m
  | Ret window =>
      Ret (KeyPrefix (config rl) +:+ ":" +:+ key +:+ ":" +:+ itoa window)
  end.

(** Lines 118-146 of [AllowN]: the decision, from the replies of the
    increment ([count]) and of the TTL query ([ttl]). *)
Definition decide_result (cfg : RateLimitConfig) (now : time_Time)
    (count : Z) (ttl : time_Duration) : RateLimitResult :=
  let remaining := wrap64 (Rate cfg - count) in
  let remaining := if remaining <? 0 then 0 else remaining in
  let resetAt := Time_Add now ttl in
  let resetAt := if ttl <? 0 then Time_Add now (Window cfg) else resetAt in
  let allowed := count <=? Rate cfg in
  let retryAfter :=
    if negb allowed
    then (if ttl <? 0 then Window cfg else ttl)
    else 0 in
  {| Allowed := allowed; Remaining := remaining;
     ResetAt := resetAt; RetryAfter := retryAfter |}.

(** [pipe.Exec]: every queued command is sent and answered; the error is
    that of the first command that failed. *)
Definition pipe_err {A B C} (r1 : reply A) (r2 : reply B) (r3 : reply C)
    : option error :=
  match reply_err r1 with
  | Some e => Some e
  | None =>
      match reply_err r2 with
      | Some e => Some e
      | None => reply_err r3
      end
  end.

Section WithWorld.
Context {W : Type} `{Rdb W}.

Definition AllowN (rl : t) (key : string) (n : Z) (w : W)
    : W * run (option RateLimitResult * option error) :=
  let now := time_Now w in
  match buildKey rl key now with
  | Panic m => (w, Panic m)
  | Ret windowKey =>
      let '(w, incrCmd) := rdb_IncrBy (client rl) windowKey n w in
      let '(w, expireCmd) :=
        rdb_Expire (client rl) windowKey (Window (config rl)) w in
      let '(w, ttlCmd) := rdb_TTL (client rl) windowKey w in
      match pipe_err incrCmd expireCmd ttlCmd with
      | Some e => (w, Ret (None, Some (ErrWrap "rate limit check failed" e)))
      | None =>
          let count := reply_val 0 incrCmd in
          let ttl := reply_val 0 ttlCmd in
          (w, Ret (Some (decide_result (config rl) now count ttl), None))
      end
  end.

Definition Allow (rl : t) (key : string) (w : W)
    : W * run (option RateLimitResult * option error) :=
  AllowN rl key 1 w.

Definition Reset (rl : t) (key : string) (w : W) : W * run (option error) :=
  let now := time_Now w in
  match buildKey rl key now with
  | Panic m => (w, Panic m)
  | Ret windowKey =>
      let '(w, r) := rdb_Del (client rl) windowKey w in
      (w, Ret (reply_err r))
  end.

End WithWorld.

End RateLimiter.

(** The cluster limiter runs the same algorithm on a [*ClusterClient]. *)
Module ClusterRateLimiter.

Record t : Type := { client : Client; config : RateLimitConfig }.

Definition NewClusterRateLimiter (c : Client) (cfg : RateLimitConfig) : t :=
  let cfg :=
    if String.eqb (KeyPrefix cfg) ""
    then {| KeyPrefix := "ratelimit"; Rate := Rate cfg;
            Window := Window cfg; BurstSize := BurstSize cfg |}
    else cfg in
  let cfg :=
    if BurstSize cfg =? 0
    then {| KeyPrefix := KeyPrefix cfg; Rate := Rate cfg;
            Window := Window cfg; BurstSize := Rate cfg |}
    else cfg in
  {| client := c; config := cfg |}.

Definition buildKey (rl : t) (key : string) (now : time_Time) : run string :=
  match int64_div (Unix now) (Seconds_int64 (Window (config rl))) with
  | Panic m => Panic m
  | Ret window =>
      Ret (KeyPrefix (config rl) +:+ ":" +:+ key +:+ ":" +:+ itoa window)
  end.

Section WithWorld.
Context {W : Type} `{Rdb W}.

Definition AllowN (rl : t) (key : string) (n : Z) (w : W)
    : W * run (option RateLimitResult * option error) :=
  let now := time_Now w in
  match buildKey rl key now with
  | Panic m => (w, Panic m)
  | Ret windowKey =>
      let '(w, incrCmd) := rdb_IncrBy (client rl) windowKey n w in
      let '(w, expireCmd) :=
        rdb_Expire (client rl) windowKey (Window (config rl)) w in
      let '(w, ttlCmd) := rdb_TTL (client rl) windowKey w in
      match RateLimiter.pipe_err incrCmd expireCmd ttlCmd with
      | Some e => (w, Ret (None, Some (ErrWrap "rate limit check failed" e)))
      | None =>
          let count := reply_val 0 incrCmd in
          let ttl := reply_val 0 ttlCmd in
          (w, Ret (Some (RateLimiter.decide_result (config rl) now count ttl),
                   None))
      end
  end.

Definition Allow (rl : t) (key : string) (w : W)
    : W * run (option RateLimitResult * option error) :=
  AllowN rl key 1 w.

End WithWorld.

End ClusterRateLimiter.

(** ** Key scanner *)

Module Scanner.

Record ScanOptions : Type := {
  Pattern : string;
  Count : Z;
  BatchDelay : time_Duration;
  Type_ : string
}.

(** The fields of the Go struct; [ctx] is the world's context. *)
Record t : Type := {
  client : Client;
  opts : ScanOptions;
  cursor : Z;
  buffer : list string;
  bufIdx : Z;
  done : bool;
  err : option error
}.

Definition len {A} (l : list A) : Z := Z.of_nat (length l).

Definition Blusukan (c : Client) (o : ScanOptions) : t :=
  let o :=
    if String.eqb (Pattern o) ""
    then {| Pattern := "*"; Count := Count o;
            BatchDelay := BatchDelay o; Type_ := Type_ o |}
    else o in
  let o :=
    if Count o =? 0
    then {| Pattern := Pattern o; Count := 100;
            BatchDelay := BatchDelay o; Type_ := Type_ o |}
    else o in
  {| client := c; opts := o; cursor := 0; buffer := []; bufIdx := 0;
     done := false; err := None |}.

Definition set_err (s : t) (e : error) : t :=
  {| client := client s; opts := opts s; cursor := cursor s;
     buffer := buffer s; bufIdx := bufIdx s; done := done s; err := Some e |}.

Definition set_bufIdx (s : t) (i : Z) : t :=
  {| client := client s; opts := opts s; cursor := cursor s;
     buffer := buffer s; bufIdx := i; done := done s; err := err s |}.

Definition set_buffer (s : t) (b : list string) : t :=
  {| client := client s; opts := opts s; cursor := cursor s;
     buffer := b; bufIdx := bufIdx s; done := done s; err := err s |}.

Definition set_cursor (s : t) (c : Z) : t :=
  {| client := client s; opts := opts s; cursor := c;
     buffer := buffer s; bufIdx := bufIdx s; done := done s; err := err s |}.

Definition set_done (s : t) (d : bool) : t :=
  {| client := client s; opts := opts s; cursor := cursor s;
     buffer := buffer s; bufIdx := bufIdx s; done := d; err := err s |}.

(** [Key]: the key [Next] is positioned on. *)
Definition Key (s : t) : string :=
  if (0 <? bufIdx s) && (bufIdx s <=? len (buffer s))
  then nth (Z.to_nat (bufIdx s - 1)) (buffer s) ""
  else "".

Definition Err (s : t) : option error := err s.

(** [err != nil]. *)
Definition is_err (o : option error) : bool :=
  match o with Some _ => true | None => false end.

Section WithWorld.
Context {W : Type} `{Rdb W}.

(** The page fetch of [Next]: [ScanType] when a type filter is set,
    [Scan] otherwise. *)
Definition fetch (s : t) (w : W) : W * reply (list string * Z) :=
  if negb (String.eqb (Type_ (opts s)) "")
  then rdb_ScanType (client s) (cursor s) (Pattern (opts s))
         (Count (opts s)) (Type_ (opts s)) w
  else rdb_Scan (client s) (cursor s) (Pattern (opts s)) (Count (opts s)) w.

(** [Next].  The method calls itself when a page comes back empty before
    the cursor has wrapped; [fuel] bounds the depth of that recursion, and
    [None] means the bound was reached. *)
Fixpoint Next (fuel : nat) (s : t) (w : W) : option (W * t * bool) :=
  if done s || is_err (err s) then Some (w, s, false)
  else
    match ctx_Err w with
    | Some e => Some (w, set_err s e, false)
    | None =>
        if bufIdx s <? len (buffer s)
        then Some (w, set_bufIdx s (bufIdx s + 1), true)
        else
          let s := set_bufIdx (set_buffer s []) 0 in
          let w :=
            if (BatchDelay (opts s) >? 0) && (cursor s >? 0)
            then time_Sleep (BatchDelay (opts s)) w
            else w in
          let '(w, r) := fetch s w in
          match r with
          | Fail e => Some (w, set_err s e, false)
          | Val (keys, cur) =>
              let s := set_buffer (set_cursor s cur) keys in
              let s := if cur =? 0 then set_done s true else s in
              if 0 <? len (buffer s)
              then Some (w, set_bufIdx s 1, true)
              else if negb (done s)
              then match fuel with
                   | O => None
                   | S fuel' => Next fuel' s w
                   end
              else Some (w, s, false)
          end
    end.

(** The loop of [All]: [keys] collects [s.Key()] after every [Next] that
    returns true.  [fuel] bounds the number of iterations. *)
Fixpoint All_loop (fuel : nat) (s : t) (w : W) (keys : list string)
    : option (W * t * list string) :=
  match fuel with
  | O => None
  | S fuel' =>
      match Next fuel' s w with
      | None => None
      | Some (w, s, true) => All_loop fuel' s w (keys ++ [Key s])
      | Some (w, s, false) => Some (w, s, keys)
      end
  end.

Definition All (fuel : nat) (s : t) (w : W)
    : option (W * t * (list string * option error)) :=
  match All_loop fuel s w [] with
  | None => None
  | Some (w, s, keys) => Some (w, s, (keys, Err s))
  end.

(** The loop of [Each].  [fn] is caller code: it may change the world and
    what it captures (a value of type [A]), and it answers whether to go
    on. *)
Fixpoint Each_loop {A : Type} (fuel : nat)
    (fn : string -> A -> W -> A * W * bool) (s : t) (w : W) (a : A)
    : option (W * t * A) :=
  match fuel with
  | O => None
  | S fuel' =>
      match Next fuel' s w with
      | None => None
      | Some (w, s, true) =>
          let '(a, w, continue) := fn (Key s) a w in
          if negb continue then Some (w, s, a)
          else Each_loop fuel' fn s w a
      | Some (w, s, false) => Some (w, s, a)
      end
  end.

Definition Each {A : Type} (fuel : nat)
    (fn : string -> A -> W -> A * W * bool) (s : t) (w : W) (a : A)
    : option (W * t * A * option error) :=
  match Each_loop fuel fn s w a with
  | None => None
  | Some (w, s, a) => Some (w, s, a, Err s)
  end.

(** The loop of [Count]; [count++] is taken in Go's [int]. *)
Fixpoint Count_loop (fuel : nat) (s : t) (w : W) (count : Z)
    : option (W * t * Z) :=
  match fuel with
  | O => None
  | S fuel' =>
      match Next fuel' s w with
      | None => None
      | Some (w, s, true) => Count_loop fuel' s w (wrap64 (count + 1))
      | Some (w, s, false) => Some (w, s, count)
      end
  end.

(** The method [Count]; the name is taken by the option field. *)
Definition Count_ (fuel : nat) (s : t) (w : W)
    : option (W * t * (Z * option error)) :=
  match Count_loop fuel s w 0 with
  | None => None
  | Some (w, s, count) => Some (w, s, (count, Err s))
  end.

End WithWorld.

End Scanner.

(** ** Migrator *)

Module Migration.

(** [OnProgress] and [OnError] are caller code: they may do anything to the
    world, and [OnError] answers whether to continue. *)
Record MigrateOptions (W : Type) : Type := {
  Pattern : string;
  BatchSize : Z;
  TTL : time_Duration;
  PreserveTTL : bool;
  OnProgress : option (Z -> Z -> W -> W);
  OnError : option (string -> error -> W -> W * bool);
  DryRun : bool
}.
Arguments Pattern {W} _.
Arguments BatchSize {W} _.
Arguments TTL {W} _.
Arguments PreserveTTL {W} _.
Arguments OnProgress {W} _.
Arguments OnError {W} _.
Arguments DryRun {W} _.

Record MigrateError : Type := { Key : string; Error : error }.

Record MigrateResult : Type := {
  TotalKeys : Z;
  MigratedKeys : Z;
  FailedKeys : Z;
  Duration : time_Duration;
  Errors : list MigrateError
}.

(** [&MigrateResult{}]. *)
Definition zero_result : MigrateResult :=
  {| TotalKeys := 0; MigratedKeys := 0; FailedKeys := 0; Duration := 0;
     Errors := [] |}.

Definition set_TotalKeys (r : MigrateResult) (n : Z) : MigrateResult :=
  {| TotalKeys := n; MigratedKeys := MigratedKeys r;
     FailedKeys := FailedKeys r; Duration := Duration r; Errors := Errors r |}.

Definition set_Duration (r : MigrateResult) (d : time_Duration)
    : MigrateResult :=
  {| TotalKeys := TotalKeys r; MigratedKeys := MigratedKeys r;
     FailedKeys := FailedKeys r; Duration := d; Errors := Errors r |}.

(** [result.FailedKeys++] followed by the append to [result.Errors]. *)
Definition record_failure (r : MigrateResult) (key : string) (e : error)
    : MigrateResult :=
  {| TotalKeys := TotalKeys r; MigratedKeys := MigratedKeys r;
     FailedKeys := FailedKeys r + 1; Duration := Duration r;
     Errors := Errors r ++ [{| Key := key; Error := e |}] |}.

(** [result.MigratedKeys++]. *)
Definition record_success (r : MigrateResult) : MigrateResult :=
  {| TotalKeys := TotalKeys r; MigratedKeys := MigratedKeys r + 1;
     FailedKeys := FailedKeys r; Duration := Duration r; Errors := Errors r |}.

Definition len {A} (l : list A) : Z := Z.of_nat (length l).

(** [keys[i:j]] for [0 <= i <= j <= len(keys)]. *)
Definition slice {A} (keys : list A) (i j : Z) : list A :=
  firstn (Z.to_nat (j - i)) (skipn (Z.to_nat i) keys).

(** What one run of [Migrate] reports through [OnProgress]: the arguments
    of each call, in order. *)
Definition progress_log := list (Z * Z).

(** Where a migration stands once the keys are enumerated: at the head of
    the outer loop, with the index [i]; in the batch that starts at [i],
    before the first of the keys [pending] (or, when none is left, before
    the progress report); or back from [Migrate], with its error. *)
Inductive point : Type :=
| at_batch (i : Z)
| at_key (i : Z) (pending : list string)
| returned (e : option error).

Section WithWorld.
Context {W : Type} `{Rdb W}.

(** [scanAllKeys].  The loop ends when the store hands back cursor 0;
    [fuel] bounds the number of further pages, [None] means the bound was
    reached. *)
Fixpoint scanAllKeys_loop (fuel : nat) (c : Client) (pattern : string)
    (cursor : Z) (keys : list string) (w : W)
    : option (W * reply (list string)) :=
  let '(w, r) := rdb_Scan c cursor pattern 100 w in
  match r with
  | Fail e => Some (w, Fail e)
  | Val (batch, cursor) =>
      let keys := keys ++ batch in
      if cursor =? 0 then Some (w, Val keys)
      else match fuel with
           | O => None
           | S fuel' => scanAllKeys_loop fuel' c pattern cursor keys w
           end
  end.

Definition scanAllKeys (fuel : nat) (c : Client) (pattern : string) (w : W)
    : option (W * reply (list string)) :=
  scanAllKeys_loop fuel c pattern 0 [] w.

Definition migrateKey (src dst : Client) (key : string)
    (opts : MigrateOptions W) (w : W) : W * option error :=
  let '(w, r) := rdb_Get src key w in
  match r with
  | Fail e => (w, Some (ErrWrap "get failed" e))
  | Val data =>
      let '(w, ttl) :=
        if PreserveTTL opts then
          let '(w, r) := rdb_TTL src key w in
          match r with
          | Fail e => (w, Fail (ErrWrap "ttl failed" e))
          | Val ttl => (w, Val (if ttl <? 0 then 0 else ttl))
          end
        else if TTL opts >? 0 then (w, Val (TTL opts))
        else (w, Val 0) in
      match ttl with
      | Fail e => (w, Some e)
      | Val ttl =>
          let '(w, r) := rdb_Set dst key data ttl w in
          match r with
          | Fail e => (w, Some (ErrWrap "set failed" e))
          | Val _ => (w, None)
          end
      end
  end.

(** The inner loop of [Migrate], over the keys of one batch.  The third
    component is the abort error, when [OnError] asked to stop. *)
Fixpoint migrate_batch (src dst : Client) (opts : MigrateOptions W)
    (batch : list string) (result : MigrateResult) (w : W)
    : W * MigrateResult * option error :=
  match batch with
  | [] => (w, result, None)
  | key :: batch' =>
      let '(w, e) := migrateKey src dst key opts w in
      match e with
      | Some e =>
          let result := record_failure result key e in
          match OnError opts with
          | Some onError =>
              let '(w, continue) := onError key e w in
              if negb continue
              then (w, result,
                    Some (ErrWrap ("migration aborted at key " +:+ key) e))
              else migrate_batch src dst opts batch' result w
          | None => migrate_batch src dst opts batch' result w
          end
      | None => migrate_batch src dst opts batch' (record_success result) w
      end
  end.

(** The outer loop of [Migrate], from index [i].  The index stays below
    [2 * len keys], far from the end of the [int] range for any slice that
    fits in memory, so [i + BatchSize] is not wrapped.  [fuel] bounds the
    number of batches. *)
Fixpoint migrate_batches (fuel : nat) (src dst : Client)
    (opts : MigrateOptions W) (startTime : time_Time) (keys : list string)
    (i : Z) (result : MigrateResult) (log : progress_log) (w : W)
    : option (W * progress_log * MigrateResult * option error) :=
  if i <? len keys then
    match ctx_Err w with
    | Some e =>
        Some (w, log, set_Duration result (time_Now w - startTime), Some e)
    | None =>
        let end_ := i + BatchSize opts in
        let end_ := if end_ >? len keys then len keys else end_ in
        let batch := slice keys i end_ in
        let '(w, result, abort) := migrate_batch src dst opts batch result w in
        match abort with
        | Some e =>
            Some (w, log, set_Duration result (time_Now w - startTime),
                  Some e)
        | None =>
            let done := MigratedKeys result + FailedKeys result in
            let '(w, log) :=
              match OnProgress opts with
              | Some onProgress =>
                  (onProgress done (TotalKeys result) w,
                   log ++ [(done, TotalKeys result)])
              | None => (w, log)
              end in
            match fuel with
            | O => None
            | S fuel' =>
                migrate_batches fuel' src dst opts startTime keys
                  (i + BatchSize opts) result log w
            end
        end
    end
  else Some (w, log, set_Duration result (time_Now w - startTime), None).

(** Defaults applied at the top of [Migrate]. *)
Definition with_defaults (opts : MigrateOptions W) : MigrateOptions W :=
  {| Pattern := if String.eqb (Pattern opts) "" then "*" else Pattern opts;
     BatchSize := if BatchSize opts <=? 0 then 100 else BatchSize opts;
     TTL := TTL opts; PreserveTTL := PreserveTTL opts;
     OnProgress := OnProgress opts; OnError := OnError opts;
     DryRun := DryRun opts |}.

(** [Migrate].  [fuel] bounds the pages of the enumeration; the batch loop
    needs no more iterations than there are keys. *)
Definition Migrate (fuel : nat) (src dst : Client) (opts : MigrateOptions W)
    (w : W)
    : option (W * progress_log * option MigrateResult * option error) :=
  let startTime := time_Now w in
  let opts := with_defaults opts in
  let result := zero_result in
  match scanAllKeys fuel src (Pattern opts) w with
  | None => None
  | Some (w, Fail e) =>
      Some (w, [], None, Some (ErrWrap "failed to scan keys" e))
  | Some (w, Val keys) =>
      let result := set_TotalKeys result (len keys) in
      if DryRun opts
      then Some (w, [],
                 Some (set_Duration result (time_Now w - startTime)), None)
      else
        match migrate_batches (length keys) src dst opts startTime keys 0
                result [] w with
        | None => None
        | Some (w, log, result, e) => Some (w, log, Some result, e)
        end
  end.

(** *** The loops of [Migrate], one step at a time

    [migrate_batches] runs the loops to their end.  To speak of the points
    in between, the same lines of [Migrate] are given once more, as the
    steps of a machine whose state holds where the run stands, the result
    so far and the world. *)

Record state : Type := {
  pos : point;
  res : MigrateResult;
  world : W
}.

(** The state at the head of the loop: [result.TotalKeys = len(keys)] is
    done, nothing else is. *)
Definition start (keys : list string) (w : W) : state :=
  {| pos := at_batch 0; res := set_TotalKeys zero_result (len keys);
     world := w |}.

(** One step: the loop test, the cancellation check and the slicing of the
    next batch; one key of the batch; or the progress report and the
    increment of the index. *)
Definition step (src dst : Client) (opts : MigrateOptions W)
    (startTime : time_Time) (keys : list string) (st : state) : state :=
  let r := res st in
  let w := world st in
  match pos st with
  | at_batch i =>
      if i <? len keys then
        match ctx_Err w with
        | Some e =>
            {| pos := returned (Some e);
               res := set_Duration r (time_Now w - startTime); world := w |}
        | None =>
            let end_ := i + BatchSize opts in
            let end_ := if end_ >? len keys then len keys else end_ in
            {| pos := at_key i (slice keys i end_); res := r; world := w |}
        end
      else {| pos := returned None;
              res := set_Duration r (time_Now w - startTime); world := w |}
  | at_key i (key :: pending) =>
      let '(w, e) := migrateKey src dst key opts w in
      match e with
      | Some e =>
          let r := record_failure r key e in
          match OnError opts with
          | Some onError =>
              let '(w, continue) := onError key e w in
              if negb continue
              then {| pos := returned
                               (Some (ErrWrap ("migration aborted at key "
                                               +:+ key) e));
                      res := set_Duration r (time_Now w - startTime);
                      world := w |}
              else {| pos := at_key i pending; res := r; world := w |}
          | None => {| pos := at_key i pending; res := r; world := w |}
          end
      | None =>
          {| pos := at_key i pending; res := record_success r; world := w |}
      end
  | at_key i [] =>
      let w :=
        match OnProgress opts with
        | Some onProgress =>
            onProgress (MigratedKeys r + FailedKeys r) (TotalKeys r) w
        | None => w
        end in
      {| pos := at_batch (i + BatchSize opts); res := r; world := w |}
  | returned _ => st
  end.

(** The state after [n] steps. *)
Definition steps (src dst : Client) (opts : MigrateOptions W)
    (startTime : time_Time) (keys : list string) (n : nat) (st : state)
    : state :=
  Nat.iter n (step src dst opts startTime keys) st.

End WithWorld.

Arguments state W : clear implicits.

End Migration.

(** ** A reference world

    An in-memory stand-in for the store collaborator: string values with an
    optional absolute expiry, one key space per client handle, a clock, and
    a context that is cancelled after a given number of store commands.  It
    follows the collaborator contract of the specification: [increment]
    creates a missing counter at zero, [expire] sets the remaining lifetime
    of an existing key, [ttl] answers the remaining lifetime, -1 for a key
    without expiry and -2 for a missing key, [set] writes a value with a
    lifetime or without expiry, and [scan] pages through the key space,
    cursor 0 marking both the start and the end.  Expired keys are not
    evicted: they still show up in [scan] but read as missing.  Lifetimes
    are kept to the nanosecond. *)

Module Mem.

Record entry : Type := { e_val : string; e_exp : option time_Time }.

Record MemWorld : Type := {
  clock : time_Time;
  ctx_budget : option nat;
  data : gmap (Client * string) entry
}.

Definition context_Canceled : error := ErrNew "context canceled".
Definition redis_Nil : error := ErrNew "redis: nil".

Definition cancelled (w : MemWorld) : bool :=
  match ctx_budget w with Some O => true | _ => false end.

(** One store command fewer before the context is cancelled. *)
Definition tick (w : MemWorld) : MemWorld :=
  {| clock := clock w;
     ctx_budget := match ctx_budget w with
                   | Some (S n) => Some n
                   | b => b
                   end;
     data := data w |}.

Definition set_clock (t : time_Time) (w : MemWorld) : MemWorld :=
  {| clock := t; ctx_budget := ctx_budget w; data := data w |}.

Definition set_data (d : gmap (Client * string) entry) (w : MemWorld)
    : MemWorld :=
  {| clock := clock w; ctx_budget := ctx_budget w; data := d |}.

(** A command on a cancelled context fails without reaching the store. *)
Definition command {A} (w : MemWorld) (f : MemWorld -> MemWorld * reply A)
    : MemWorld * reply A :=
  if cancelled w then (w, Fail context_Canceled) else f (tick w).

(** The entry of a key that exists and has not expired. *)
Definition live (w : MemWorld) (c : Client) (k : string) : option entry :=
  match data w !! (c, k) with
  | Some e =>
      match e_exp e with
      | Some x => if clock w <? x then Some e else None
      | None => Some e
      end
  | None => None
  end.

(** The integer a stored string stands for, when it is its canonical
    decimal form. *)
Definition atoi (s : string) : option Z :=
  match NilZero.int_of_string s with
  | Some d =>
      let z := Z.of_int d in
      if String.eqb (itoa z) s then Some z else None
  | None => None
  end.

Definition mem_IncrBy (c : Client) (k : string) (n : Z) (w : MemWorld)
    : MemWorld * reply Z :=
  command w (fun w =>
    let '(old, exp) :=
      match live w c k with
      | Some e => (atoi (e_val e), e_exp e)
      | None => (Some 0, None)
      end in
    match old with
    | None => (w, Fail (ErrNew "ERR value is not an integer or out of range"))
    | Some v =>
        if (min_int64 <=? v + n) && (v + n <=? max_int64)
        then (set_data
                (<[(c, k) := {| e_val := itoa (v + n); e_exp := exp |}]>
                   (data w)) w,
              Val (v + n))
        else (w, Fail (ErrNew "ERR increment or decrement would overflow"))
    end).

Definition mem_Expire (c : Client) (k : string) (d : time_Duration)
    (w : MemWorld) : MemWorld * reply bool :=
  command w (fun w =>
    match live w c k with
    | None => (w, Val false)
    | Some e =>
        if d <=? 0
        then (set_data (delete (c, k) (data w)) w, Val true)
        else (set_data
                (<[(c, k) := {| e_val := e_val e;
                                e_exp := Some (clock w + d) |}]> (data w)) w,
              Val true)
    end).

Definition mem_TTL (c : Client) (k : string) (w : MemWorld)
    : MemWorld * reply time_Duration :=
  command w (fun w =>
    match live w c k with
    | None => (w, Val (-2))
    | Some e =>
        match e_exp e with
        | None => (w, Val (-1))
        | Some x => (w, Val (x - clock w))
        end
    end).

Definition mem_Del (c : Client) (k : string) (w : MemWorld)
    : MemWorld * reply Z :=
  command w (fun w =>
    (set_data (delete (c, k) (data w)) w,
     Val (match live w c k with Some _ => 1 | None => 0 end))).

Definition mem_Get (c : Client) (k : string) (w : MemWorld)
    : MemWorld * reply string :=
  command w (fun w =>
    match live w c k with
    | None => (w, Fail redis_Nil)
    | Some e => (w, Val (e_val e))
    end).

(** go-redis's [KeepTTL]: given to [Set] as the lifetime, it stands for
    the expiry the key has. *)
Definition KeepTTL : time_Duration := -1.

(** The expiry [Set] leaves on a key: go-redis sends the lifetime when it
    is positive, KEEPTTL when it is [KeepTTL], and neither otherwise, which
    leaves the key without expiry. *)
Definition expiry_after_Set (c : Client) (k : string) (ttl : time_Duration)
    (w : MemWorld) : option time_Time :=
  if ttl >? 0 then Some (clock w + ttl)
  else if ttl =? KeepTTL
  then match live w c k with Some e => e_exp e | None => None end
  else None.

Definition mem_Set (c : Client) (k : string) (v : string)
    (ttl : time_Duration) (w : MemWorld) : MemWorld * reply unit :=
  command w (fun w =>
    (set_data
       (<[(c, k) := {| e_val := v; e_exp := expiry_after_Set c k ttl w |}]>
          (data w)) w,
     Val tt)).

(** Glob match with the wildcards [*] and [?]. *)
Fixpoint glob (p s : string) : bool :=
  match p with
  | EmptyString => match s with EmptyString => true | _ => false end
  | String "*" p' =>
      (fix star (s : string) : bool :=
         glob p' s ||
         match s with EmptyString => false | String _ s' => star s' end) s
  | String "?" p' =>
      match s with String _ s' => glob p' s' | EmptyString => false end
  | String a p' =>
      match s with
      | String b s' => Ascii.eqb a b && glob p' s'
      | EmptyString => false
      end
  end.

(** The keys of client [c] that match [pattern], in the store's order. *)
Definition keyspace (w : MemWorld) (c : Client) (pattern : string)
    : list string :=
  omap (fun '((c', k), _) =>
          if (N.eqb c' c) && glob pattern k then Some k else None)
       (map_to_list (data w)).

(** A page of at most [count] keys from position [cursor]; the next cursor
    is 0 once the key space is exhausted. *)
Definition page (keys : list string) (cursor count : Z) : list string * Z :=
  let n := if count <? 1 then 1 else count in
  (firstn (Z.to_nat n) (skipn (Z.to_nat cursor) keys),
   if cursor + n <? Z.of_nat (length keys) then cursor + n else 0).

Definition mem_Scan (c : Client) (cursor : Z) (pattern : string) (count : Z)
    (w : MemWorld) : MemWorld * reply (list string * Z) :=
  command w (fun w => (w, Val (page (keyspace w c pattern) cursor count))).

(** Every value of this store has type "string". *)
Definition mem_ScanType (c : Client) (cursor : Z) (pattern : string)
    (count : Z) (typ : string) (w : MemWorld)
    : MemWorld * reply (list string * Z) :=
  command w (fun w =>
    if String.eqb typ "string"
    then (w, Val (page (keyspace w c pattern) cursor count))
    else (w, Val ([], 0))).

#[global] Instance MemWorld_Rdb : Rdb MemWorld := {|
  time_Now := clock;
  time_Sleep := fun d w => set_clock (clock w + d) w;
  ctx_Err := fun w => if cancelled w then Some context_Canceled else None;
  rdb_IncrBy := mem_IncrBy;
  rdb_Expire := mem_Expire;
  rdb_TTL := mem_TTL;
  rdb_Del := mem_Del;
  rdb_Get := mem_Get;
  rdb_Set := mem_Set;
  rdb_Scan := mem_Scan;
  rdb_ScanType := mem_ScanType
|}.

(** An empty store at time [t] whose context is never cancelled. *)
Definition empty_world (t : time_Time) : MemWorld :=
  {| clock := t; ctx_budget := None; data := ∅ |}.

(** Store [v] under [k] for client [c], without expiry. *)
Definition put (c : Client) (k v : string) (w : MemWorld) : MemWorld :=
  set_data (<[(c, k) := {| e_val := v; e_exp := None |}]> (data w)) w.

(** Store [v] under [k] for client [c], expiring at time [x]. *)
Definition put_expiring (c : Client) (k v : string) (x : time_Time)
    (w : MemWorld) : MemWorld :=
  set_data (<[(c, k) := {| e_val := v; e_exp := Some x |}]> (data w)) w.

End Mem.

(** ** Runs of several calls *)

Section Sequences.
Context {W : Type} `{Rdb W}.

(** A sequence of [AllowN] calls on one limiter.  Each request carries what
    the surroundings do to the world before the call is made (time passing,
    other clients writing). *)
Fixpoint check_all (rl : RateLimiter.t)
    (reqs : list (string * Z * (W -> W))) (w : W)
    : W * list (run (option RateLimitResult * option error)) :=
  match reqs with
  | [] => (w, [])
  | (key, n, env) :: reqs' =>
      let '(w, r) := RateLimiter.AllowN rl key n (env w) in
      let '(w, rs) := check_all rl reqs' w in
      (w, r :: rs)
  end.

(** [k] further calls of [Next], the world changing by [env] in between. *)
Fixpoint Next_times (k : nat) (fuel : nat) (env : W -> W) (s : Scanner.t)
    (w : W) : option (W * Scanner.t * list bool) :=
  match k with
  | O => Some (w, s, [])
  | S k' =>
      match Scanner.Next fuel s (env w) with
      | None => None
      | Some (w, s, b) =>
          match Next_times k' fuel env s w with
          | None => None
          | Some (w, s, bs) => Some (w, s, b :: bs)
          end
      end
  end.

(** The keys the store's paged scan hands out for the options of scanner
    [s], from cursor [cur] until the cursor is back at 0: the enumeration
    [All] is specified to return. *)
Fixpoint enumerate (fuel : nat) (s : Scanner.t) (cur : Z) (w : W)
    : option (reply (list string)) :=
  let '(w, r) := Scanner.fetch (Scanner.set_cursor s cur) w in
  match r with
  | Fail e => Some (Fail e)
  | Val (keys, cur) =>
      if cur =? 0 then Some (Val keys)
      else match fuel with
           | O => None
           | S fuel' =>
               match enumerate fuel' s cur w with
               | Some (Val rest) => Some (Val (keys ++ rest))
               | other => other
               end
           end
  end.

End Sequences.

(** The configuration [cfg] with its burst size replaced. *)
Definition with_BurstSize (cfg : RateLimitConfig) (b : Z) : RateLimitConfig :=
  {| KeyPrefix := KeyPrefix cfg; Rate := Rate cfg; Window := Window cfg;
     BurstSize := b |}.

(** Two limiters that agree on client, prefix, rate and window. *)
Definition same_but_burst (rl1 rl2 : RateLimiter.t) : Prop :=
  RateLimiter.client rl1 = RateLimiter.client rl2 /\
  KeyPrefix (RateLimiter.config rl1) = KeyPrefix (RateLimiter.config rl2) /\
  Rate (RateLimiter.config rl1) = Rate (RateLimiter.config rl2) /\
  Window (RateLimiter.config rl1) = Window (RateLimiter.config rl2).

(** No ':' in a string. *)
Fixpoint colon_free (s : string) : Prop :=
  match s with
  | EmptyString => True
  | String a s' => a <> ":"%char /\ colon_free s'
  end.

(** A scanner with a latched error or a finished scan. *)
Definition latched (s : Scanner.t) : Prop :=
  Scanner.done s = true \/ Scanner.err s <> None.

(** The state [Next] fetches a page from, and the state it is in once the
    page [keys] with next cursor [cur] has arrived. *)
Definition drained (s : Scanner.t) : Scanner.t :=
  Scanner.set_bufIdx (Scanner.set_buffer s []) 0.

Definition arrived (s : Scanner.t) (keys : list string) (cur : Z)
    : Scanner.t :=
  let s := Scanner.set_buffer (Scanner.set_cursor (drained s) cur) keys in
  if cur =? 0 then Scanner.set_done s true else s.

(** Keys handled so far, migrated or failed. *)
Definition processed (r : Migration.MigrateResult) : Z :=
  Migration.MigratedKeys r + Migration.FailedKeys r.

(** The [OnProgress] calls of the first [k] batches of a migration of [n]
    keys in batches of [B]: after batch [j] (counting from 1) the number
    of keys handled is [min (j * B) n]. *)
Definition progress_values (B n : Z) (k : nat) : Migration.progress_log :=
  map (fun j => (Z.min ((Z.of_nat j + 1) * B) n, n)) (seq 0 k).

(** [P] survives everything [Migrate] does to the world: scanning and
    reading the source, writing the destination, and the two callbacks. *)
Definition survives_migration {W : Type} `{Rdb W} (src dst : Client)
    (opts : Migration.MigrateOptions W) (P : W -> Prop) : Prop :=
  (forall cur pat n w, P w -> P (fst (rdb_Scan src cur pat n w))) /\
  (forall k w, P w -> P (fst (rdb_Get src k w))) /\
  (forall k w, P w -> P (fst (rdb_TTL src k w))) /\
  (forall k v t w, P w -> P (fst (rdb_Set dst k v t w))) /\
  (forall f k e w, Migration.OnError opts = Some f -> P w -> P (fst (f k e w))) /\
  (forall f d t w, Migration.OnProgress opts = Some f -> P w -> P (f d t w)).

(** What holds of the counters and of the progress log of a migration of
    [keys] each time the outer loop is at its head. *)
Definition loop_inv {W : Type} (opts : Migration.MigrateOptions W)
    (keys : list string) (r : Migration.MigrateResult)
    (log : Migration.progress_log) : Prop :=
  let B := Migration.BatchSize opts in
  let n := Migration.len keys in
  Migration.TotalKeys r = n /\
  0 <= Migration.MigratedKeys r /\ 0 <= Migration.FailedKeys r /\
  Migration.FailedKeys r = Migration.len (Migration.Errors r) /\
  StronglySorted Z.lt (map fst log) /\
  Forall (fun p => 0 < fst p <= processed r /\ snd p = n) log /\
  match Migration.OnProgress opts with
  | Some _ => log = progress_values B n (length log)
  | None => log = []
  end.

(** [seen] reads off the world the calls [OnProgress] has received: the
    callback adds its arguments to it, and nothing else of what [Migrate]
    does to the world touches it. *)
Definition notes_progress {W : Type} `{Rdb W} (src dst : Client)
    (opts : Migration.MigrateOptions W) (seen : W -> list (Z * Z)) : Prop :=
  (forall cur pat n w, seen (fst (rdb_Scan src cur pat n w)) = seen w) /\
  (forall k w, seen (fst (rdb_Get src k w)) = seen w) /\
  (forall k w, seen (fst (rdb_TTL src k w)) = seen w) /\
  (forall k v t w, seen (fst (rdb_Set dst k v t w)) = seen w) /\
  (forall f k e w, Migration.OnError opts = Some f ->
                   seen (fst (f k e w)) = seen w) /\
  (forall f d t w, Migration.OnProgress opts = Some f ->
                   seen (f d t w) = seen w ++ [(d, t)]).

(** What holds of the counters at every point of a migration of [keys] in
    batches of [B]: the keys handled are those before the point. *)
Definition point_inv {W : Type} (B : Z) (keys : list string)
    (st : Migration.state W) : Prop :=
  let r := Migration.res st in
  let n := Migration.len keys in
  Migration.TotalKeys r = n /\
  0 <= Migration.MigratedKeys r /\ 0 <= Migration.FailedKeys r /\
  Migration.FailedKeys r = Migration.len (Migration.Errors r) /\
  match Migration.pos st with
  | Migration.at_batch i => 0 <= i /\ processed r = Z.min i n
  | Migration.at_key i pending =>
      0 <= i < n /\ processed r + Migration.len pending = Z.min (i + B) n
  | Migration.returned e => processed r <= n /\ (e = None -> processed r = n)
  end.

(** The requests of single-unit checks for [id] made at [times]. *)
Definition checks_at (id : string) (times : list time_Time)
    : list (string * Z * (Mem.MemWorld -> Mem.MemWorld)) :=
  map (fun t => (id, 1, Mem.set_clock t)) times.

(** The counter the reference store holds for a key: what an increment
    would start from. *)
Definition counter (w : Mem.MemWorld) (c : Client) (k : string) : option Z :=
  match Mem.live w c k with
  | Some e => Mem.atoi (Mem.e_val e)
  | None => Some 0
  end.

(** The results of checks at [times] that find the counter at [v], [v+1],
    ... and a full window left on it. *)
Fixpoint results_from (cfg : RateLimitConfig) (v : Z) (times : list time_Time)
    : list (run (option RateLimitResult * option error)) :=
  match times with
  | [] => []
  | t :: times' =>
      Ret (Some (RateLimiter.decide_result cfg t (v + 1) (Window cfg)), None)
      :: results_from cfg (v + 1) times'
  end.

(** The window index [buildKey] computes: the Unix seconds of [t] over
    [int64(Window.Seconds())], the seconds of the window cut to a whole
    number. *)
Definition windowIndex (cfg : RateLimitConfig) (t : time_Time) : Z :=
  Unix t / Seconds_int64 (Window cfg).

(** The window index in the words of the specification,
    [floor(unixSeconds / windowSeconds)], the seconds of the window taken
    as they are, fraction included. *)
Definition spec_windowIndex (cfg : RateLimitConfig) (t : time_Time) : Z :=
  Unix t * Second / Window cfg.

(** ** A scripted world

    A test double for the store: every command answers with the next reply
    of its script, whatever its arguments.  It reaches what the reference
    store never does on its own: failed commands, empty pages, a counter
    without expiry. *)

Module Script.

Record World : Type := {
  now : time_Time;
  ctx : option error;
  incrs : list (reply Z);
  expires : list (reply bool);
  ttls : list (reply time_Duration);
  dels : list (reply Z);
  gets : list (reply string);
  sets : list (reply unit);
  scans : list (reply (list string * Z))
}.

Definition EOF : error := ErrNew "EOF".

(** The next reply of a script; an exhausted script fails. *)
Definition next {A} (l : list (reply A)) : reply A :=
  match l with [] => Fail EOF | r :: _ => r end.

Definition rest {A} (l : list A) : list A :=
  match l with [] => [] | _ :: l' => l' end.

#[global] Instance World_Rdb : Rdb World := {|
  time_Now := now;
  time_Sleep := fun d w =>
    {| now := now w + d; ctx := ctx w; incrs := incrs w;
       expires := expires w; ttls := ttls w; dels := dels w; gets := gets w;
       sets := sets w; scans := scans w |};
  ctx_Err := ctx;
  rdb_IncrBy := fun _ _ _ w =>
    ({| now := now w; ctx := ctx w; incrs := rest (incrs w);
        expires := expires w; ttls := ttls w; dels := dels w; gets := gets w;
        sets := sets w; scans := scans w |}, next (incrs w));
  rdb_Expire := fun _ _ _ w =>
    ({| now := now w; ctx := ctx w; incrs := incrs w;
        expires := rest (expires w); ttls := ttls w; dels := dels w;
        gets := gets w; sets := sets w; scans := scans w |},
     next (expires w));
  rdb_TTL := fun _ _ w =>
    ({| now := now w; ctx := ctx w; incrs := incrs w; expires := expires w;
        ttls := rest (ttls w); dels := dels w; gets := gets w;
        sets := sets w; scans := scans w |}, next (ttls w));
  rdb_Del := fun _ _ w =>
    ({| now := now w; ctx := ctx w; incrs := incrs w; expires := expires w;
        ttls := ttls w; dels := rest (dels w); gets := gets w;
        sets := sets w; scans := scans w |}, next (dels w));
  rdb_Get := fun _ _ w =>
    ({| now := now w; ctx := ctx w; incrs := incrs w; expires := expires w;
        ttls := ttls w; dels := dels w; gets := rest (gets w);
        sets := sets w; scans := scans w |}, next (gets w));
  rdb_Set := fun _ _ _ _ w =>
    ({| now := now w; ctx := ctx w; incrs := incrs w; expires := expires w;
        ttls := ttls w; dels := dels w; gets := gets w;
        sets := rest (sets w); scans := scans w |}, next (sets w));
  rdb_Scan := fun _ _ _ _ w =>
    ({| now := now w; ctx := ctx w; incrs := incrs w; expires := expires w;
        ttls := ttls w; dels := dels w; gets := gets w; sets := sets w;
        scans := rest (scans w) |}, next (scans w));
  rdb_ScanType := fun _ _ _ _ _ w =>
    ({| now := now w; ctx := ctx w; incrs := incrs w; expires := expires w;
        ttls := ttls w; dels := dels w; gets := gets w; sets := sets w;
        scans := rest (scans w) |}, next (scans w))
|}.

(** A world with empty scripts at time [t]. *)
Definition blank (t : time_Time) : World :=
  {| now := t; ctx := None; incrs := []; expires := []; ttls := [];
     dels := []; gets := []; sets := []; scans := [] |}.

End Script.

(** ** A world that keeps a journal

    The reference store together with a journal of the calls the callbacks
    of a migration received.  The store is operated as before; only the
    callbacks below write the journal. *)

Module Journal.

Record World : Type := {
  store : Mem.MemWorld;
  progress : list (Z * Z);
  failures : list (string * error)
}.

Definition on_store {A} (f : Mem.MemWorld -> Mem.MemWorld * A) (w : World)
    : World * A :=
  let '(s, a) := f (store w) in
  ({| store := s; progress := progress w; failures := failures w |}, a).

#[global] Instance World_Rdb : Rdb World | 100 := {|
  time_Now := fun w => Mem.clock (store w);
  time_Sleep := fun d w =>
    {| store := time_Sleep d (store w); progress := progress w;
       failures := failures w |};
  ctx_Err := fun w => ctx_Err (store w);
  rdb_IncrBy := fun c k n => on_store (Mem.mem_IncrBy c k n);
  rdb_Expire := fun c k d => on_store (Mem.mem_Expire c k d);
  rdb_TTL := fun c k => on_store (Mem.mem_TTL c k);
  rdb_Del := fun c k => on_store (Mem.mem_Del c k);
  rdb_Get := fun c k => on_store (Mem.mem_Get c k);
  rdb_Set := fun c k v d => on_store (Mem.mem_Set c k v d);
  rdb_Scan := fun c cur pat n => on_store (Mem.mem_Scan c cur pat n);
  rdb_ScanType := fun c cur pat n typ =>
    on_store (Mem.mem_ScanType c cur pat n typ)
|}.

(** The store [s] with an empty journal. *)
Definition fresh (s : Mem.MemWorld) : World :=
  {| store := s; progress := []; failures := [] |}.

(** An [OnProgress] that notes what it is called with. *)
Definition note_progress (done total : Z) (w : World) : World :=
  {| store := store w; progress := progress w ++ [(done, total)];
     failures := failures w |}.

(** An [OnError] that notes what it is called with and answers
    [continue]. *)
Definition note_failure (continue : bool) (key : string) (e : error)
    (w : World) : World * bool :=
  ({| store := store w; progress := progress w;
      failures := failures w ++ [(key, e)] |}, continue).

End Journal.

(** ** Sample inputs *)

Module Sample.

(** Two requests per minute, default prefix, client 0. *)
Definition limiter : RateLimiter.t :=
  RateLimiter.NewRateLimiter 0%N
    {| KeyPrefix := ""; Rate := 2; Window := Minute; BurstSize := 0 |}.

(** A limiter whose window is half a second. *)
Definition fast_limiter : RateLimiter.t :=
  RateLimiter.NewRateLimiter 0%N
    {| KeyPrefix := ""; Rate := 2; Window := 500000000; BurstSize := 0 |}.

Definition fast_cluster_limiter : ClusterRateLimiter.t :=
  ClusterRateLimiter.NewClusterRateLimiter 0%N
    {| KeyPrefix := ""; Rate := 2; Window := 500000000; BurstSize := 0 |}.

(** A limiter whose window is a second and a half. *)
Definition split_limiter : RateLimiter.t :=
  RateLimiter.NewRateLimiter 0%N
    {| KeyPrefix := ""; Rate := 2; Window := 1500000000; BurstSize := 0 |}.

(** An empty store, 1.7e9 seconds after the epoch. *)
Definition world : Mem.MemWorld := Mem.empty_world (1700000000 * Second).

(** The same store with the counter of "u1" at 7 and no expiry on it. *)
Definition world_no_expiry : Mem.MemWorld :=
  Mem.put 0%N "ratelimit:u1:28333333" "7" world.

(** The same store with the counter of "u1" at the least int64. *)
Definition world_low_counter : Mem.MemWorld :=
  Mem.put 0%N "ratelimit:u1:28333333" "-9223372036854775808" world.

(** The replies of a check whose counter came back without expiry: count
    3, expiry not applied, TTL -1. *)
Definition world_ttl_missing : Script.World :=
  {| Script.now := 1700000000 * Second; Script.ctx := None;
     Script.incrs := [Val 3]; Script.expires := [Val false];
     Script.ttls := [Val (-1)]; Script.dels := []; Script.gets := [];
     Script.sets := []; Script.scans := [] |}.

(** Client 1 holds the keys "a", "b" and "c". *)
Definition store_abc : Mem.MemWorld :=
  Mem.put 1%N "a" "1" (Mem.put 1%N "b" "2" (Mem.put 1%N "c" "3"
    (Mem.empty_world 0))).

(** Scan options with page hint [count]. *)
Definition scan_opts (count : Z) : Scanner.ScanOptions :=
  {| Scanner.Pattern := ""; Scanner.Count := count;
     Scanner.BatchDelay := 0; Scanner.Type_ := "" |}.

(** A scanner whose last page fetch failed. *)
Definition failed_scanner : Scanner.t :=
  Scanner.set_err (Scanner.Blusukan 1%N (scan_opts 10)) Script.EOF.

(** Client 1 holds "a", "b" and "c" at time 10; "a" expired at time 5 and
    was not evicted yet. *)
Definition store_expired : Mem.MemWorld :=
  Mem.put_expiring 1%N "a" "1" 5
    (Mem.put 1%N "b" "2" (Mem.put 1%N "c" "3" (Mem.empty_world 10))).

(** Batches of two, progress reported, stop at the first failure. *)
Definition stop_on_error : Migration.MigrateOptions Mem.MemWorld :=
  {| Migration.Pattern := ""; Migration.BatchSize := 2; Migration.TTL := 0;
     Migration.PreserveTTL := false;
     Migration.OnProgress := Some (fun _ _ w => w);
     Migration.OnError := Some (fun _ _ w => (w, false));
     Migration.DryRun := false |}.

(** Batches of two on the journalled store: every call of a callback is
    noted, and a failure does not stop the migration. *)
Definition noting : Migration.MigrateOptions Journal.World :=
  {| Migration.Pattern := ""; Migration.BatchSize := 2; Migration.TTL := 0;
     Migration.PreserveTTL := false;
     Migration.OnProgress := Some Journal.note_progress;
     Migration.OnError := Some (Journal.note_failure true);
     Migration.DryRun := false |}.

End Sample.

(** ** Walking a scan *)

(** A callback for [Each] that notes the key it is given and goes on while
    [p] holds of it. *)
Definition visit {W : Type} (p : string -> bool) (key : string)
    (seen : list string) (w : W) : list string * W * bool :=
  (seen ++ [key], w, p key).

(** The keys up to and including the first one that fails [p]. *)
Fixpoint stop_after (p : string -> bool) (keys : list string) : list string :=
  match keys with
  | [] => []
  | k :: ks => k :: if p k then stop_after p ks else []
  end.

(** The position of a scanner lies within its buffer. *)
Definition well_positioned (s : Scanner.t) : Prop :=
  0 <= Scanner.bufIdx s <= Scanner.len (Scanner.buffer s).

(** A scripted world whose scans answer with [pages], in order. *)
Definition paged (t : time_Time) (pages : list (list string * Z))
    : Script.World :=
  {| Script.now := t; Script.ctx := None; Script.incrs := [];
     Script.expires := []; Script.ttls := []; Script.dels := [];
     Script.gets := []; Script.sets := []; Script.scans := map Val pages |}.

(** ** A migration on the reference store *)

(** Whether client [c] can read key [k]: it exists and has not expired. *)
Definition is_live (w : Mem.MemWorld) (c : Client) (k : string) : bool :=
  match Mem.live w c k with Some _ => true | None => false end.

(** What [migrateKey] stores for a source entry [e] read at time [now]:
    the value as it is; under [PreserveTTL] the expiry of the source,
    otherwise [TTL] from now when that is positive, otherwise none. *)
Definition migrated_entry {W : Type} (opts : Migration.MigrateOptions W)
    (now : time_Time) (e : Mem.entry) : Mem.entry :=
  {| Mem.e_val := Mem.e_val e;
     Mem.e_exp :=
       if Migration.PreserveTTL opts then Mem.e_exp e
       else if Migration.TTL opts >? 0 then Some (now + Migration.TTL opts)
       else None |}.

(** The failure [migrateKey] reports for a key the source cannot read. *)
Definition get_failed (k : string) : Migration.MigrateError :=
  {| Migration.Key := k;
     Migration.Error := ErrWrap "get failed" Mem.redis_Nil |}.

(** The store after the keys [keys] of [src] were migrated to [dst], one
    after the other, from the world [w]. *)
Definition copy_key {W : Type} (opts : Migration.MigrateOptions W)
    (src dst : Client) (w : Mem.MemWorld)
    (d : gmap (Client * string) Mem.entry) (k : string)
    : gmap (Client * string) Mem.entry :=
  match Mem.live w src k with
  | Some e => <[(dst, k) := migrated_entry opts (Mem.clock w) e]> d
  | None => d
  end.

(** The counters after the keys [keys] were handled from result [r]. *)
Definition tally (w : Mem.MemWorld) (src : Client) (keys : list string)
    (r : Migration.MigrateResult) : Migration.MigrateResult :=
  {| Migration.TotalKeys := Migration.TotalKeys r;
     Migration.MigratedKeys :=
       Migration.MigratedKeys r
       + Migration.len (List.filter (is_live w src) keys);
     Migration.FailedKeys :=
       Migration.FailedKeys r
       + Migration.len (List.filter (fun k => negb (is_live w src k)) keys);
     Migration.Duration := Migration.Duration r;
     Migration.Errors :=
       Migration.Errors r
       ++ map get_failed (List.filter (fun k => negb (is_live w src k)) keys) |}.

(** Callbacks that leave the world alone and never ask to stop. *)
Definition quiet_callbacks {W : Type} (opts : Migration.MigrateOptions W)
    : Prop :=
  (forall f, Migration.OnProgress opts = Some f -> forall d t w, f d t w = w) /\
  (forall f, Migration.OnError opts = Some f ->
             forall k e w, f k e w = (w, true)).

(** Batches of two, expiry preserved, both callbacks set and quiet. *)
Definition preserve_and_go_on : Migration.MigrateOptions Mem.MemWorld :=
  {| Migration.Pattern := ""; Migration.BatchSize := 2; Migration.TTL := 0;
     Migration.PreserveTTL := true;
     Migration.OnProgress := Some (fun _ _ w => w);
     Migration.OnError := Some (fun _ _ w => (w, true));
     Migration.DryRun := false |}.

(** The options [opts] for a dry run. *)
Definition dry_run {W : Type} (opts : Migration.MigrateOptions W)
    : Migration.MigrateOptions W :=
  {| Migration.Pattern := Migration.Pattern opts;
     Migration.BatchSize := Migration.BatchSize opts;
     Migration.TTL := Migration.TTL opts;
     Migration.PreserveTTL := Migration.PreserveTTL opts;
     Migration.OnProgress := Migration.OnProgress opts;
     Migration.OnError := Migration.OnError opts;
     Migration.DryRun := true |}.

(** The store [d] agrees with the world [w0] on what client [src] holds. *)
Definition source_kept (src : Client) (w0 : Mem.MemWorld)
    (d : gmap (Client * string) Mem.entry) : Prop :=
  forall k, d !! (src, k) = Mem.data w0 !! (src, k).

(** ** Storing and retrieving: [Gib], [Run] and [Sprint]

    The builders of gib.go and of the files that go with it.  The values
    that go through [encoding/json] are those of a type [J]; the two
    functions of that package are taken as given. *)

(** [errors.go]. *)
Definition ErrNilValue : error := ErrNew "gibrun: cannot store nil value".
Definition ErrNilPointer : error := ErrNew "gibrun: cannot bind to nil pointer".

(** go-redis's [redis.Nil], the reply for a key that does not exist. *)
Definition redis_Nil : error := ErrNew "redis: nil".

(** [err == e] on error values. *)
Fixpoint error_eqb (a b : error) : bool :=
  match a, b with
  | ErrNew m, ErrNew m' => String.eqb m m'
  | ErrWrap m c, ErrWrap m' c' => String.eqb m m' && error_eqb c c'
  | _, _ => false
  end.

(** [strconv.ParseInt(s, 10, 64)], [None] standing for its error: an
    optional sign, then decimal digits, at least one, for a number that an
    int64 holds. *)
Definition strconv_ParseInt (s : string) : option Z :=
  let '(neg, digits) :=
    match s with
    | String "+" r => (false, r)
    | String "-" r => (true, r)
    | _ => (false, s)
    end in
  match NilZero.uint_of_string digits with
  | None => None
  | Some d =>
      let un := Z.of_uint d in
      if neg then (if un <=? 2 ^ 63 then Some (- un) else None)
      else (if un <? 2 ^ 63 then Some un else None)
  end.

Module Gib.

Section Codec.
Variable J : Type.
Variable json_Marshal : J -> reply string.
Variable json_Unmarshal : string -> J -> J * option error.

(** What [Value] is given, by its dynamic type: nothing, a string, a byte
    slice, or a value of any other type. *)
Inductive any : Type :=
| nil_any
| string_any (s : string)
| bytes_any (b : string)
| other_any (v : J).

(** [GibBuilder]; its [ctx] is the world's. *)
Record GibBuilder : Type := {
  client : Client;
  key : string;
  value : any;
  ttl : time_Duration
}.

(** [Client.Gib]. *)
Definition Gib (c : Client) (k : string) : GibBuilder :=
  {| client := c; key := k; value := nil_any; ttl := 0 |}.

Definition Value (b : GibBuilder) (v : any) : GibBuilder :=
  {| client := client b; key := key b; value := v; ttl := ttl b |}.

Definition TTL (b : GibBuilder) (d : time_Duration) : GibBuilder :=
  {| client := client b; key := key b; value := value b; ttl := d |}.

(** [marshal]; [json.Marshal(nil)] is the text "null". *)
Definition marshal (v : any) : reply string :=
  match v with
  | string_any s => Val s
  | bytes_any b => Val b
  | other_any v => json_Marshal v
  | nil_any => Val "null"
  end.

(** What [Bind] is given, by its dynamic type: nothing, a pointer to a
    string, a pointer to a byte slice, or anything else; with what it
    points to. *)
Inductive dest : Type :=
| nil_dest
| string_dest (p : string)
| bytes_dest (p : string)
| other_dest (p : J).

(** [unmarshal]: the destination as it is afterwards, and the error.
    [json.Unmarshal] rejects a nil destination. *)
Definition unmarshal (data : string) (d : dest) : dest * option error :=
  match d with
  | string_dest _ => (string_dest data, None)
  | bytes_dest _ => (bytes_dest data, None)
  | other_dest p =>
      let '(p, e) := json_Unmarshal data p in (other_dest p, e)
  | nil_dest => (nil_dest, Some (ErrNew "json: Unmarshal(nil)"))
  end.

(** [RunBuilder]. *)
Record RunBuilder : Type := { run_client : Client; run_key : string }.

(** [Client.Run]. *)
Definition Run (c : Client) (k : string) : RunBuilder :=
  {| run_client := c; run_key := k |}.

Section WithWorld.
Context {W : Type} `{Rdb W}.

Definition Exec (b : GibBuilder) (w : W) : W * option error :=
  match value b with
  | nil_any => (w, Some ErrNilValue)
  | v =>
      match marshal v with
      | Fail e => (w, Some e)
      | Val data =>
          if ttl b >? 0
          then let '(w, r) := rdb_Set (client b) (key b) data (ttl b) w in
               (w, reply_err r)
          else let '(w, r) := rdb_Set (client b) (key b) data 0 w in
               (w, reply_err r)
      end
  end.

(** [Bind]: the destination as it is afterwards, whether the key was
    found, and the error. *)
Definition Bind (b : RunBuilder) (d : dest) (w : W)
    : W * (dest * (bool * option error)) :=
  match d with
  | nil_dest => (w, (d, (false, Some ErrNilPointer)))
  | _ =>
      let '(w, r) := rdb_Get (run_client b) (run_key b) w in
      match r with
      | Fail e =>
          if error_eqb e redis_Nil then (w, (d, (false, None)))
          else (w, (d, (false, Some e)))
      | Val data =>
          let '(d, e) := unmarshal data d in
          match e with
          | Some e => (w, (d, (false, Some e)))
          | None => (w, (d, (true, None)))
          end
      end
  end.

Definition Raw (b : RunBuilder) (w : W)
    : W * (string * (bool * option error)) :=
  let '(w, r) := rdb_Get (run_client b) (run_key b) w in
  match r with
  | Fail e =>
      if error_eqb e redis_Nil then (w, ("", (false, None)))
      else (w, ("", (false, Some e)))
  | Val val => (w, (val, (true, None)))
  end.

(** [Bytes]; the nil slice is the empty one. *)
Definition Bytes (b : RunBuilder) (w : W)
    : W * (string * (bool * option error)) :=
  let '(w, r) := rdb_Get (run_client b) (run_key b) w in
  match r with
  | Fail e =>
      if error_eqb e redis_Nil then (w, ("", (false, None)))
      else (w, ("", (false, Some e)))
  | Val val => (w, (val, (true, None)))
  end.

End WithWorld.

End Codec.

Arguments nil_any {J}.
Arguments string_any {J} s.
Arguments bytes_any {J} b.
Arguments other_any {J} v.
Arguments nil_dest {J}.
Arguments string_dest {J} p.
Arguments bytes_dest {J} p.
Arguments other_dest {J} p.
Arguments Gib {J} c k.
Arguments Value {J} b v.
Arguments TTL {J} b d.
Arguments client {J} _.
Arguments key {J} _.
Arguments value {J} _.
Arguments ttl {J} _.
Arguments Exec {J} json_Marshal {W _} b w.
Arguments Bind {J} json_Unmarshal {W _} b d w.

End Gib.

(** The counters of [SprintBuilder].  [Incr], [Decr], [DecrBy] and
    [IncrByFloat] pass their arguments on to store commands of their own
    and are left out. *)
Module Sprint.

Record SprintBuilder : Type := { client : Client; key : string }.

(** [Client.Sprint]. *)
Definition Sprint (c : Client) (k : string) : SprintBuilder :=
  {| client := c; key := k |}.

Section WithWorld.
Context {W : Type} `{Rdb W}.

Definition IncrBy (b : SprintBuilder) (n : Z) (w : W)
    : W * (Z * option error) :=
  let '(w, r) := rdb_IncrBy (client b) (key b) n w in
  (w, (reply_val 0 r, reply_err r)).

(** [Get]: the store's reply is read as an int64; any failure, of the
    command or of the conversion, gives 0 and no error. *)
Definition Get (b : SprintBuilder) (w : W) : W * (Z * option error) :=
  let '(w, r) := rdb_Get (client b) (key b) w in
  match r with
  | Fail _ => (w, (0, None))
  | Val s =>
      match strconv_ParseInt s with
      | None => (w, (0, None))
      | Some val => (w, (val, None))
      end
  end.

(** The store is sent the decimal text of [value]. *)
Definition SetWithTTL (b : SprintBuilder) (value : Z) (ttl : time_Duration)
    (w : W) : W * option error :=
  let '(w, r) := rdb_Set (client b) (key b) (itoa value) ttl w in
  (w, reply_err r).

Definition Expire (b : SprintBuilder) (ttl : time_Duration) (w : W)
    : W * option error :=
  let '(w, r) := rdb_Expire (client b) (key b) ttl w in
  (w, reply_err r).

End WithWorld.

End Sprint.

(** A codec for the samples: integers, written in decimal. *)
Definition decimal_Marshal (v : Z) : reply string := Val (itoa v).

Definition decimal_Unmarshal (data : string) (p : Z) : Z * option error :=
  match strconv_ParseInt data with
  | Some z => (z, None)
  | None => (p, Some (ErrNew "invalid character"))
  end.

(** ** The HTTP middleware of the limiter *)

(** [fmt.Sprintf("%.0f", d.Seconds())]: the float printed without
    fraction digits, that is rounded to the nearest integer, a half going
    to the even neighbour; the seconds of a negative duration are a negative
    float, which keeps its sign even when it rounds to zero. *)
Definition Seconds_0f (d : time_Duration) : string :=
  let f := Seconds d in
  let n := Float64.round_half_even (Z.abs (Float64.num f)) (Float64.den f) in
  (if d <? 0 then "-" else "") +:+ itoa n.

Module Http.

(** [*http.Request], as far as the package looks at it: its headers,
    through [Header.Get], and [RemoteAddr].  Its context is the world's. *)
Record Request : Type := {
  Header_Get : string -> string;
  RemoteAddr : string
}.

(** What the package does to an [http.ResponseWriter]. *)
Inductive call : Type :=
| Header_Set (name value : string)
| Error (msg : string) (code : Z).

(** A response writer, as the calls made on it so far. *)
Definition ResponseWriter := list call.

Definition StatusTooManyRequests : Z := 429.
Definition StatusInternalServerError : Z := 500.

Definition nil_dereference : string :=
  "runtime error: invalid memory address or nil pointer dereference".

Definition defaultKeyFunc (r : Request) : string :=
  if negb (String.eqb (Header_Get r "X-Forwarded-For") "")
  then Header_Get r "X-Forwarded-For"
  else if negb (String.eqb (Header_Get r "X-Real-IP") "")
  then Header_Get r "X-Real-IP"
  else RemoteAddr r.

(** A limiter with the [KeyFunc] of its configuration. *)
Record t : Type := {
  limiter : RateLimiter.t;
  KeyFunc : Request -> string
}.

(** [NewRateLimiter] on a configuration with [KeyFunc] ([None] for nil). *)
Definition NewRateLimiter (c : Client) (cfg : RateLimitConfig)
    (keyFunc : option (Request -> string)) : t :=
  {| limiter := RateLimiter.NewRateLimiter c cfg;
     KeyFunc := match keyFunc with
                | Some f => f
                | None => defaultKeyFunc
                end |}.

Section WithWorld.
Context {W : Type} `{Rdb W}.

(** [http.Handler]: [ServeHTTP] is given the writer and the request and
    may do anything to the writer and to the world. *)
Definition Handler : Type :=
  Request -> ResponseWriter -> W -> W * run ResponseWriter.

Definition Middleware (rl : t) (next : Handler) : Handler :=
  fun r w world =>
    let key := KeyFunc rl r in
    let '(world, out) := RateLimiter.Allow (limiter rl) key world in
    match out with
    | Panic m => (world, Panic m)
    | Ret (_, Some _) =>
        (world,
         Ret (w ++ [Error "Internal Server Error" StatusInternalServerError]))
    | Ret (None, None) => (world, Panic nil_dereference)
    | Ret (Some result, None) =>
        let w :=
          w ++ [Header_Set "X-RateLimit-Limit"
                  (itoa (Rate (RateLimiter.config (limiter rl))));
                Header_Set "X-RateLimit-Remaining" (itoa (Remaining result));
                Header_Set "X-RateLimit-Reset"
                  (itoa (Unix (ResetAt result)))] in
        if negb (Allowed result)
        then (world,
              Ret (w ++ [Header_Set "Retry-After"
                           (Seconds_0f (RetryAfter result));
                         Error
                           "Rate limit exceeded. Bansos quota habis, silakan tunggu."
                           StatusTooManyRequests]))
        else next r w world
    end.

(** [MiddlewareFunc]: [Middleware] on a handler function. *)
Definition MiddlewareFunc (rl : t) (next : Handler) : Handler :=
  Middleware rl next.

(** Requests served one after the other, each on a new writer. *)
Fixpoint serve_all (h : Handler) (rs : list Request) (world : W)
    : W * list (run ResponseWriter) :=
  match rs with
  | [] => (world, [])
  | r :: rs' =>
      let '(world, out) := h r [] world in
      let '(world, outs) := serve_all h rs' world in
      (world, out :: outs)
  end.

End WithWorld.

End Http.

(** The headers the middleware sets on every answer of the limiter. *)
Definition limit_headers (limit remaining : Z) (resetAt : time_Time)
    : Http.ResponseWriter :=
  [Http.Header_Set "X-RateLimit-Limit" (itoa limit);
   Http.Header_Set "X-RateLimit-Remaining" (itoa remaining);
   Http.Header_Set "X-RateLimit-Reset" (itoa (Unix resetAt))].

(** What the middleware adds when it turns a request away. *)
Definition too_many_requests (retryAfter : time_Duration)
    : Http.ResponseWriter :=
  [Http.Header_Set "Retry-After" (Seconds_0f retryAfter);
   Http.Error "Rate limit exceeded. Bansos quota habis, silakan tunggu."
     429].

(** A request that carries an X-Forwarded-For header. *)
Definition forwarded_for (xff addr : string) : Http.Request :=
  {| Http.Header_Get :=
       fun name => if String.eqb name "X-Forwarded-For" then xff else "";
     Http.RemoteAddr := addr |}.

(** A handler that writes one header and leaves the world alone. *)
Definition served : Http.Handler (W := Mem.MemWorld) :=
  fun _ w world => (world, Ret (w ++ [Http.Header_Set "Served" "yes"])).

(** The sample limiter behind the default key function. *)
Definition http_limiter : Http.t :=
  Http.NewRateLimiter 0%N
    {| KeyPrefix := ""; Rate := 2; Window := Minute; BurstSize := 0 |} None.

(** An empty store whose context is already done. *)
Definition world_cancelled : Mem.MemWorld :=
  {| Mem.clock := 1700000000 * Second; Mem.ctx_budget := Some O;
     Mem.data := ∅ |}.

(** * Properties *)

(** ** Scalars *)

Lemma wrap64_id (z : Z) : in_int64 z -> wrap64 z = z.
Proof.
  unfold in_int64, wrap64, min_int64, max_int64. intros Hz.
  rewrite Z.mod_small; lia.
Qed.

Lemma wrap64_range (z : Z) : in_int64 (wrap64 z).
Proof.
  unfold in_int64, wrap64, min_int64, max_int64.
  pose proof (Z.mod_pos_bound (z + 2 ^ 63) (2 ^ 64) ltac:(lia)). lia.
Qed.

(** ** float64: what rounding keeps *)

Lemma round_half_even_sandwich (n d a b : Z) :
  0 < d -> a * d <= n <= b * d -> a <= Float64.round_half_even n d <= b.
Proof.
  intros Hd [Ha Hb]. unfold Float64.round_half_even.
  pose proof (Z.div_mod n d ltac:(lia)) as Hn.
  pose proof (Z.mod_pos_bound n d Hd) as Hr.
  set (q := n / d) in *. set (r := n mod d) in *.
  assert (Haq : a <= q) by (subst q; apply Z.div_le_lower_bound; lia).
  assert (Hqb : q <= b) by nia.
  assert (Hq1 : 0 < r -> q + 1 <= b) by (intros Hpos; nia).
  destruct (Z.ltb_spec (2 * r) d); [lia|].
  destruct (Z.ltb_spec d (2 * r)); [lia|].
  destruct (Z.even q); lia.
Qed.

(** The rounded quotient is within half a unit of the quotient. *)
Lemma round_half_even_nearest (n d : Z) :
  0 < d ->
  2 * (Float64.round_half_even n d * d) <= 2 * n + d /\
  2 * n <= 2 * (Float64.round_half_even n d * d) + d.
Proof.
  intros Hd. unfold Float64.round_half_even.
  pose proof (Z.div_mod n d ltac:(lia)) as Hn.
  pose proof (Z.mod_pos_bound n d Hd) as Hr.
  set (q := n / d) in *. set (r := n mod d) in *.
  destruct (Z.ltb_spec (2 * r) d); [nia|].
  destruct (Z.ltb_spec d (2 * r)); [nia|].
  destruct (Z.even q); nia.
Qed.

Lemma ilog2_lower (n d : Z) :
  0 < n -> 0 < d -> 0 <= Float64.ilog2 n d ->
  d * 2 ^ Float64.ilog2 n d <= n.
Proof.
  intros Hn Hd. unfold Float64.ilog2.
  pose proof (Z.log2_spec n Hn) as [Ha _].
  pose proof (Z.log2_spec d Hd) as [_ Hb].
  pose proof (Z.log2_nonneg n). pose proof (Z.log2_nonneg d).
  set (a := Z.log2 n) in *. set (b := Z.log2 d) in *.
  destruct (Z.leb_spec 0 (a - b)) as [Hl|Hl].
  - destruct (Z.ltb_spec n (d * 2 ^ (a - b))) as [Hc|Hc]; intros HL; [|exact Hc].
    assert (Hp : 2 ^ a = 2 ^ (a - b - 1) * 2 ^ Z.succ b).
    { rewrite <- Z.pow_add_r by lia. f_equal. lia. }
    assert (0 < 2 ^ (a - b - 1)) by (apply Z.pow_pos_nonneg; lia).
    nia.
  - destruct (n * 2 ^ (- (a - b)) <? d); intros HL; lia.
Qed.

(** For [n / d < 2 ^ (53 - j)] the float nearest to [n / d] has an
    exponent of at most [- j]: every multiple of [2 ^ (- j)] lies on its
    grid. *)
Lemma round_fine (n d j : Z) :
  0 < n -> 0 < d -> 1 <= j <= 53 -> n * 2 ^ j < d * 2 ^ 53 ->
  exists E,
    j <= E /\
    Float64.mant (Float64.round n d) = Float64.round_half_even (n * 2 ^ E) d /\
    Float64.num (Float64.round n d) = Float64.mant (Float64.round n d) /\
    Float64.den (Float64.round n d) = 2 ^ E.
Proof.
  intros Hn Hd Hj Hx. unfold Float64.round.
  destruct (Z.eqb_spec n 0); [lia|].
  rewrite Z.abs_eq by lia. rewrite Z.sgn_pos by lia.
  set (e := Z.max (Float64.ilog2 n d - 52) (-1074)).
  assert (He : e <= - j).
  { subst e. apply Z.max_lub; [|lia].
    destruct (Z.le_gt_cases (Float64.ilog2 n d) (52 - j)) as [|Hgt]; [lia|].
    pose proof (ilog2_lower n d Hn Hd ltac:(lia)) as Hl.
    assert (Hp : 2 ^ Float64.ilog2 n d
                 = 2 ^ (Float64.ilog2 n d - (53 - j)) * 2 ^ (53 - j)).
    { rewrite <- Z.pow_add_r by lia. f_equal. lia. }
    assert (H53 : (2 ^ 53 : Z) = 2 ^ (53 - j) * 2 ^ j).
    { rewrite <- Z.pow_add_r by lia. f_equal. lia. }
    assert (0 < 2 ^ (Float64.ilog2 n d - (53 - j)))
      by (apply Z.pow_pos_nonneg; lia).
    assert (0 < 2 ^ (53 - j)) by (apply Z.pow_pos_nonneg; lia).
    assert (0 < 2 ^ j) by (apply Z.pow_pos_nonneg; lia).
    rewrite H53 in Hx. rewrite Hp in Hl. nia. }
  exists (- e). unfold Float64.num, Float64.den.
  cbn [Float64.mant Float64.expo].
  destruct (Z.leb_spec 0 e); [lia|].
  rewrite Z.mul_1_l. repeat split. lia.
Qed.

(** Rounding keeps a value on the side of a multiple of [2 ^ (- j)] it is
    on: at most [b / 2 ^ j] stays at most [b / 2 ^ j]. *)
Lemma round_le (n d j b : Z) :
  0 < n -> 0 < d -> 1 <= j <= 53 -> n * 2 ^ j < d * 2 ^ 53 ->
  n * 2 ^ j <= b * d ->
  Float64.num (Float64.round n d) * 2 ^ j <= b * Float64.den (Float64.round n d).
Proof.
  intros Hn Hd Hj Hx Hb.
  destruct (round_fine n d j Hn Hd Hj Hx) as (E & HE & Hm & -> & ->).
  rewrite Hm.
  assert (Hp : 2 ^ E = 2 ^ (E - j) * 2 ^ j).
  { rewrite <- Z.pow_add_r by lia. f_equal. lia. }
  assert (0 < 2 ^ (E - j)) by (apply Z.pow_pos_nonneg; lia).
  assert (0 < 2 ^ j) by (apply Z.pow_pos_nonneg; lia).
  pose proof (round_half_even_sandwich (n * 2 ^ E) d 0 (b * 2 ^ (E - j)) Hd)
    as Hs.
  rewrite Hp in *.
  assert (Hrange : 0 * d <= n * (2 ^ (E - j) * 2 ^ j) <= b * 2 ^ (E - j) * d)
    by nia.
  specialize (Hs Hrange). nia.
Qed.

Lemma round_ge (n d j b : Z) :
  0 < n -> 0 < d -> 1 <= j <= 53 -> n * 2 ^ j < d * 2 ^ 53 ->
  b * d <= n * 2 ^ j ->
  b * Float64.den (Float64.round n d) <= Float64.num (Float64.round n d) * 2 ^ j.
Proof.
  intros Hn Hd Hj Hx Hb.
  destruct (round_fine n d j Hn Hd Hj Hx) as (E & HE & Hm & -> & ->).
  rewrite Hm.
  assert (Hp : 2 ^ E = 2 ^ (E - j) * 2 ^ j).
  { rewrite <- Z.pow_add_r by lia. f_equal. lia. }
  assert (0 < 2 ^ (E - j)) by (apply Z.pow_pos_nonneg; lia).
  assert (0 < 2 ^ j) by (apply Z.pow_pos_nonneg; lia).
  pose proof (round_half_even_sandwich (n * 2 ^ E) d (b * 2 ^ (E - j))
                (n * 2 ^ E) Hd) as Hs.
  rewrite Hp in *.
  assert (Hrange : b * 2 ^ (E - j) * d <= n * (2 ^ (E - j) * 2 ^ j)
                   <= n * (2 ^ (E - j) * 2 ^ j) * d) by nia.
  specialize (Hs Hrange). nia.
Qed.

(** A value more than half a step of the grid of [2 ^ (- j)] below a
    multiple of it is rounded to a float below that multiple. *)
Lemma round_lt (n d j b : Z) :
  0 < n -> 0 < d -> 1 <= j <= 53 -> n * 2 ^ j < d * 2 ^ 53 ->
  2 * (n * 2 ^ j) + d < 2 * (b * d) ->
  Float64.num (Float64.round n d) * 2 ^ j < b * Float64.den (Float64.round n d).
Proof.
  intros Hn Hd Hj Hx Hb.
  destruct (round_fine n d j Hn Hd Hj Hx) as (E & HE & Hm & -> & ->).
  rewrite Hm.
  assert (Hp : 2 ^ E = 2 ^ (E - j) * 2 ^ j).
  { rewrite <- Z.pow_add_r by lia. f_equal. lia. }
  assert (0 < 2 ^ (E - j)) by (apply Z.pow_pos_nonneg; lia).
  assert (0 < 2 ^ j) by (apply Z.pow_pos_nonneg; lia).
  pose proof (round_half_even_nearest (n * 2 ^ E) d Hd) as [Hs _].
  rewrite Hp in *.
  set (m := Float64.round_half_even (n * (2 ^ (E - j) * 2 ^ j)) d) in *.
  assert (m < b * 2 ^ (E - j)); [|nia].
  assert (2 * (m * d) < 2 * (b * 2 ^ (E - j)) * d); [|nia].
  nia.
Qed.

Lemma round_sign (n d : Z) :
  0 <= n -> 0 < d ->
  0 <= Float64.num (Float64.round n d) /\ 0 < Float64.den (Float64.round n d).
Proof.
  intros Hn Hd. unfold Float64.round.
  destruct (Z.eqb_spec n 0); [cbn; lia|].
  rewrite Z.abs_eq by lia. rewrite Z.sgn_pos by lia.
  set (e := Z.max _ _). unfold Float64.num, Float64.den.
  cbn [Float64.mant Float64.expo].
  destruct (Z.leb_spec 0 e).
  - split; [|lia]. rewrite Z.mul_1_l.
    assert (0 < 2 ^ e) by (apply Z.pow_pos_nonneg; lia).
    assert (H1 : 1 <= d * 2 ^ e) by nia.
    pose proof (round_half_even_sandwich n (d * 2 ^ e) 0 n ltac:(lia)
                  ltac:(nia)). nia.
  - assert (0 < 2 ^ (- e)) by (apply Z.pow_pos_nonneg; lia).
    split; [|lia]. rewrite Z.mul_1_l.
    pose proof (round_half_even_sandwich (n * 2 ^ (- e)) d 0 (n * 2 ^ (- e))
                  Hd ltac:(nia)). lia.
Qed.

(** A value of at least one is rounded to a float of at least one,
    whatever its size. *)
Lemma round_ge_one (n d : Z) :
  0 < d -> d <= n ->
  Float64.den (Float64.round n d) <= Float64.num (Float64.round n d).
Proof.
  intros Hd Hn. unfold Float64.round.
  destruct (Z.eqb_spec n 0); [lia|].
  rewrite Z.abs_eq by lia. rewrite Z.sgn_pos by lia.
  set (e := Z.max (Float64.ilog2 n d - 52) (-1074)).
  unfold Float64.num, Float64.den. cbn [Float64.mant Float64.expo].
  rewrite Z.mul_1_l.
  destruct (Z.leb_spec 0 e) as [He|He].
  - assert (HL : Float64.ilog2 n d = e + 52) by lia.
    pose proof (ilog2_lower n d ltac:(lia) Hd ltac:(lia)) as Hl.
    rewrite HL, Z.pow_add_r in Hl by lia.
    assert (0 < 2 ^ e) by (apply Z.pow_pos_nonneg; lia).
    pose proof (round_half_even_sandwich n (d * 2 ^ e) 1 n ltac:(nia)
                  ltac:(nia)). nia.
  - assert (0 < 2 ^ (- e)) by (apply Z.pow_pos_nonneg; lia).
    pose proof (round_half_even_sandwich (n * 2 ^ (- e)) d (2 ^ (- e))
                  (n * 2 ^ (- e)) Hd ltac:(nia)). lia.
Qed.

(** An integer of less than 52 bits is a float. *)
Lemma of_int_exact (z : Z) :
  0 <= z < 2 ^ 52 ->
  Float64.num (Float64.of_int z) = z * Float64.den (Float64.of_int z) /\
  0 < Float64.den (Float64.of_int z).
Proof.
  intros Hz. unfold Float64.of_int.
  destruct (round_sign z 1 ltac:(lia) ltac:(lia)) as [_ Hden].
  split; [|exact Hden].
  destruct (Z.eq_dec z 0) as [->|Hne]; [reflexivity|].
  pose proof (round_le z 1 1 (2 * z) ltac:(lia) ltac:(lia) ltac:(lia)
                ltac:(lia) ltac:(lia)).
  pose proof (round_ge z 1 1 (2 * z) ltac:(lia) ltac:(lia) ltac:(lia)
                ltac:(lia) ltac:(lia)).
  lia.
Qed.

(** ** The seconds of a duration *)

(** [float64(nsec) / 1e9] for a number of nanoseconds under a second: a
    float of at most [1 - 2^-30 - 2^-53]. *)
Lemma fraction_bound (nsec : Z) :
  0 <= nsec < 1000000000 ->
  let q := Float64.div (Float64.of_int nsec) (Float64.of_int 1000000000) in
  0 <= Float64.num q /\ 0 < Float64.den q /\
  Float64.num q * 2 ^ 53 <= (2 ^ 53 - 2 ^ 23 - 1) * Float64.den q.
Proof.
  intros Hn q. subst q. unfold Float64.div.
  destruct (of_int_exact nsec ltac:(lia)) as [Hy Hdy].
  destruct (of_int_exact 1000000000 ltac:(lia)) as [Hc Hdc].
  set (y := Float64.of_int nsec) in *.
  set (c := Float64.of_int 1000000000) in *.
  rewrite Hy, Hc.
  rewrite Z.sgn_pos by lia. rewrite Z.abs_eq by lia. rewrite Z.mul_1_l.
  set (n := nsec * Float64.den y * Float64.den c).
  set (d := Float64.den y * (1000000000 * Float64.den c)).
  assert (Hd : 0 < d) by (subst d; nia).
  assert (Hnd : n * 1000000000 = nsec * d) by (subst n d; ring).
  destruct (round_sign n d ltac:(subst n; nia) Hd) as [Hnum Hden].
  split; [exact Hnum|]. split; [exact Hden|].
  destruct (Z.eq_dec nsec 0) as [->|Hne].
  { subst n. rewrite !Z.mul_0_l. cbn. lia. }
  assert (Hpos : 0 < n) by (subst n; nia).
  apply round_le; try lia; nia.
Qed.

Section OneDuration.
Variable d : time_Duration.
Hypothesis Hd : 0 <= d < 2 ^ 63.

Let sec := d / 1000000000.
Let nsec := d mod 1000000000.

Lemma Seconds_unfold :
  Seconds d =
  Float64.add (Float64.of_int sec)
    (Float64.div (Float64.of_int nsec) (Float64.of_int 1000000000)).
Proof.
  unfold Seconds, Second, sec, nsec.
  rewrite Z.quot_div_nonneg, Z.rem_mod_nonneg by lia. reflexivity.
Qed.

Lemma sec_bounds : 0 <= sec < 2 ^ 34 /\ 0 <= nsec < 1000000000.
Proof.
  subst sec nsec. split.
  - split; [apply Z.div_pos; lia|]. apply Z.div_lt_upper_bound; lia.
  - apply Z.mod_pos_bound. lia.
Qed.

(** The seconds of a duration, as a float, lie between its whole seconds
    and the next second. *)
Lemma Seconds_bounds :
  0 < Float64.den (Seconds d) /\
  sec * Float64.den (Seconds d) <= Float64.num (Seconds d)
    <= (sec + 1) * Float64.den (Seconds d).
Proof.
  rewrite Seconds_unfold. destruct sec_bounds as [Hs Hn].
  destruct (fraction_bound nsec Hn) as (Hq0 & Hdq & Hq).
  destruct (of_int_exact sec ltac:(lia)) as [Hx Hdx].
  set (q := Float64.div _ _) in *. set (x := Float64.of_int sec) in *.
  unfold Float64.add. rewrite Hx.
  set (n := sec * Float64.den x * Float64.den q + Float64.num q * Float64.den x).
  set (dd := Float64.den x * Float64.den q).
  assert (Hdd : 0 < dd) by (subst dd; nia).
  assert (Hn' : n = (sec * Float64.den q + Float64.num q) * Float64.den x)
    by (subst n; ring).
  assert (Hq1 : Float64.num q < Float64.den q) by lia.
  assert (HA : sec * Float64.den q <= sec * Float64.den q + Float64.num q
               < (sec + 1) * Float64.den q) by lia.
  assert (Hsd : (sec + 1) * Float64.den q <= 2 ^ 34 * Float64.den q) by nia.
  destruct (round_sign n dd ltac:(subst n; nia) Hdd) as [Hnum Hden].
  split; [exact Hden|].
  destruct (Z.eq_dec n 0) as [Hz|Hnz].
  { rewrite Hz. cbn. assert (sec = 0) by nia. lia. }
  assert (Hpos : 0 < n) by (subst n; nia).
  assert (Hfine : n * 2 ^ 1 < dd * 2 ^ 53) by (rewrite Hn'; subst dd; nia).
  pose proof (round_ge n dd 1 (2 * sec) Hpos Hdd ltac:(lia) Hfine
                ltac:(rewrite Hn'; subst dd; nia)).
  pose proof (round_le n dd 1 (2 * (sec + 1)) Hpos Hdd ltac:(lia) Hfine
                ltac:(rewrite Hn'; subst dd; nia)).
  lia.
Qed.

(** Under 2^24 seconds the float stays below the next second. *)
Lemma Seconds_below_next :
  sec + 1 <= 2 ^ 24 ->
  Float64.num (Seconds d) < (sec + 1) * Float64.den (Seconds d).
Proof.
  intros Hsmall.
  rewrite Seconds_unfold. destruct sec_bounds as [Hs Hn].
  destruct (fraction_bound nsec Hn) as (Hq0 & Hdq & Hq).
  destruct (of_int_exact sec ltac:(lia)) as [Hx Hdx].
  set (q := Float64.div _ _) in *. set (x := Float64.of_int sec) in *.
  unfold Float64.add. rewrite Hx.
  set (n := sec * Float64.den x * Float64.den q + Float64.num q * Float64.den x).
  set (dd := Float64.den x * Float64.den q).
  assert (Hdd : 0 < dd) by (subst dd; nia).
  assert (Hn' : n = (sec * Float64.den q + Float64.num q) * Float64.den x)
    by (subst n; ring).
  assert (Hq1 : Float64.num q < Float64.den q) by lia.
  assert (Hsd : (sec + 1) * Float64.den q <= 2 ^ 24 * Float64.den q) by nia.
  destruct (round_sign n dd ltac:(subst n; nia) Hdd) as [Hnum Hden].
  destruct (Z.eq_dec n 0) as [Hz|Hnz].
  { rewrite Hz. cbn. lia. }
  assert (Hpos : 0 < n) by (subst n; nia).
  assert (Hfine : n * 2 ^ 29 < dd * 2 ^ 53).
  { rewrite Hn'. subst dd.
    assert ((sec * Float64.den q + Float64.num q) * 2 ^ 29
            < Float64.den q * 2 ^ 53) by lia.
    nia. }
  pose proof (round_lt n dd 29 ((sec + 1) * 2 ^ 29) Hpos Hdd ltac:(lia) Hfine)
    as Hlt.
  assert (0 < 2 ^ 29) by lia.
  assert (Hgoal : Float64.num (Float64.round n dd) * 2 ^ 29
                  < (sec + 1) * 2 ^ 29 * Float64.den (Float64.round n dd));
    [|nia].
  apply Hlt. rewrite Hn'. subst dd.
  assert (2 * ((sec * Float64.den q + Float64.num q) * 2 ^ 29) + Float64.den q
          < 2 * ((sec + 1) * 2 ^ 29 * Float64.den q)) by lia.
  nia.
Qed.

End OneDuration.

(** [int64(d.Seconds())] is the whole seconds of [d] or one more. *)
Lemma Seconds_int64_bounds (d : time_Duration) :
  0 <= d < 2 ^ 63 ->
  d / Second <= Seconds_int64 d <= d / Second + 1.
Proof.
  intros Hd. destruct (Seconds_bounds d Hd) as (Hden & Hlo & Hhi).
  unfold Seconds_int64, Float64.to_int64, Second.
  assert (0 <= d / 1000000000) by (apply Z.div_pos; lia).
  rewrite Z.quot_div_nonneg by nia. split.
  - apply Z.div_le_lower_bound; lia.
  - apply Z.div_le_upper_bound; lia.
Qed.

(** Under 2^24 seconds (some 194 days) it is the whole seconds of [d]. *)
Lemma Seconds_int64_exact (d : time_Duration) :
  0 <= d < 16777216 * Second ->
  Seconds_int64 d = d / Second.
Proof.
  unfold Second. intros Hd. assert (Hd' : 0 <= d < 2 ^ 63) by lia.
  destruct (Seconds_bounds d Hd') as (Hden & Hlo & _).
  assert (Hs : d / 1000000000 + 1 <= 2 ^ 24).
  { assert (d / 1000000000 < 16777216)
      by (apply Z.div_lt_upper_bound; lia). lia. }
  pose proof (Seconds_below_next d Hd' Hs) as Hhi.
  unfold Seconds_int64, Float64.to_int64.
  assert (0 <= d / 1000000000) by (apply Z.div_pos; lia).
  rewrite Z.quot_div_nonneg by nia.
  apply Z.le_antisymm.
  - assert (Float64.num (Seconds d) / Float64.den (Seconds d)
            < d / 1000000000 + 1); [|lia].
    apply Z.div_lt_upper_bound; lia.
  - apply Z.div_le_lower_bound; lia.
Qed.

(** On the sample durations [Seconds] yields the float the kernel's
    binary64 arithmetic yields. *)
Lemma Seconds_agrees_with_binary64 :
  forallb (fun d => same_value (Seconds d) (prim_Seconds d)) sample_durations
  = true.
Proof. vm_compute. reflexivity. Qed.

(** From there on the float may round up to the next second: a window of
    16777216.999999999 seconds counts as 16777217. *)
Lemma Seconds_int64_rounds_up :
  Seconds_int64 16777216999999999 = 16777217 /\
  Seconds_int64 16777215999999999 = 16777215.
Proof. split; vm_compute; reflexivity. Qed.

(** A whole number of seconds is a float. *)
Lemma Seconds_whole (n : Z) :
  0 <= n -> n * Second < 2 ^ 63 ->
  Float64.num (Seconds (n * Second)) = n * Float64.den (Seconds (n * Second))
  /\ 0 < Float64.den (Seconds (n * Second)).
Proof.
  unfold Second. intros Hn Hlt.
  rewrite Seconds_unfold by lia.
  rewrite Z.div_mul, Z.mod_mul by lia.
  destruct (of_int_exact n ltac:(lia)) as [Hx Hdx].
  set (x := Float64.of_int n) in *.
  change (Float64.of_int 0) with {| Float64.mant := 0; Float64.expo := 0 |}.
  unfold Float64.div. cbn [Float64.num Float64.den Float64.mant Float64.expo
    Z.leb Z.compare Z.mul Z.pow Z.pow_pos Pos.iter].
  rewrite Z.mul_0_r, Z.mul_0_l.
  change (Float64.round 0 _) with {| Float64.mant := 0; Float64.expo := 0 |}.
  unfold Float64.add. cbn [Float64.num Float64.den Float64.mant Float64.expo
    Z.leb Z.compare Z.mul Z.pow Z.pow_pos Pos.iter].
  rewrite Z.mul_0_l, Z.add_0_r, !Z.mul_1_r, Hx.
  destruct (round_sign (n * Float64.den x) (Float64.den x) ltac:(nia) Hdx)
    as [Hnum Hden].
  split; [|exact Hden].
  destruct (Z.eq_dec n 0) as [->|Hne].
  { rewrite Z.mul_0_l. reflexivity. }
  pose proof (round_le (n * Float64.den x) (Float64.den x) 1 (2 * n)
                ltac:(nia) Hdx ltac:(lia) ltac:(nia) ltac:(nia)).
  pose proof (round_ge (n * Float64.den x) (Float64.den x) 1 (2 * n)
                ltac:(nia) Hdx ltac:(lia) ltac:(nia) ltac:(nia)).
  lia.
Qed.

(** A whole number of seconds is kept as it is. *)
Lemma Seconds_int64_whole (n : Z) :
  0 <= n -> n * Second < 2 ^ 63 -> Seconds_int64 (n * Second) = n.
Proof.
  intros Hn Hlt. destruct (Seconds_whole n Hn Hlt) as [Hnum Hden].
  unfold Seconds_int64, Float64.to_int64. rewrite Hnum.
  rewrite Z.quot_div_nonneg by nia. apply Z.div_mul. lia.
Qed.

Lemma Seconds_int64_small (d : time_Duration) :
  0 <= d < Second -> Seconds_int64 d = 0.
Proof.
  unfold Second. intros Hd.
  rewrite Seconds_int64_exact by (unfold Second; lia).
  apply Z.div_small. exact Hd.
Qed.

Lemma Seconds_int64_pos (d : time_Duration) :
  Second <= d -> 1 <= Seconds_int64 d.
Proof.
  unfold Second. intros Hd.
  unfold Seconds_int64, Seconds, Second.
  rewrite Z.quot_div_nonneg, Z.rem_mod_nonneg by lia.
  unfold Float64.to_int64.
  set (sec := d / 1000000000). set (nsec := d mod 1000000000).
  assert (Hsec : 1 <= sec) by (subst sec; apply Z.div_le_lower_bound; lia).
  assert (Hnsec : 0 <= nsec) by (subst nsec; apply Z.mod_pos_bound; lia).
  pose proof (round_ge_one sec 1 ltac:(lia) Hsec) as Hx.
  destruct (round_sign sec 1 ltac:(lia) ltac:(lia)) as [_ Hdx].
  destruct (round_sign nsec 1 Hnsec ltac:(lia)) as [Hy Hdy].
  destruct (of_int_exact 1000000000 ltac:(lia)) as [Hc Hdc].
  fold (Float64.of_int sec) in Hx, Hdx. fold (Float64.of_int nsec) in Hy, Hdy.
  set (x := Float64.of_int sec) in *. set (y := Float64.of_int nsec) in *.
  set (c := Float64.of_int 1000000000) in *.
  assert (Hq : 0 <= Float64.num (Float64.div y c)
               /\ 0 < Float64.den (Float64.div y c)).
  { unfold Float64.div. rewrite Hc.
    rewrite Z.sgn_pos by lia. rewrite Z.abs_eq by lia.
    apply round_sign; nia. }
  destruct Hq as [Hq Hdq]. set (q := Float64.div y c) in *.
  pose proof (round_ge_one
                (Float64.num x * Float64.den q + Float64.num q * Float64.den x)
                (Float64.den x * Float64.den q) ltac:(nia) ltac:(nia)) as Hs.
  destruct (round_sign
                (Float64.num x * Float64.den q + Float64.num q * Float64.den x)
                (Float64.den x * Float64.den q) ltac:(nia) ltac:(nia))
    as [Hns Hds].
  fold (Float64.add x q) in Hs, Hns, Hds.
  rewrite Z.quot_div_nonneg by lia.
  apply Z.div_le_lower_bound; lia.
Qed.

(** ** Rate limiter: the decision *)

Section LimiterFacts.
Context {W : Type} `{Rdb W}.

(** What [AllowN] returns once the three replies of the pipeline are known. *)
Lemma AllowN_success (rl : RateLimiter.t) (key windowKey : string) (n : Z)
    (w w1 w2 w3 : W) (c : Z) (b : bool) (ttl : time_Duration) :
  RateLimiter.buildKey rl key (time_Now w) = Ret windowKey ->
  rdb_IncrBy (RateLimiter.client rl) windowKey n w = (w1, Val c) ->
  rdb_Expire (RateLimiter.client rl) windowKey
    (Window (RateLimiter.config rl)) w1 = (w2, Val b) ->
  rdb_TTL (RateLimiter.client rl) windowKey w2 = (w3, Val ttl) ->
  RateLimiter.AllowN rl key n w =
    (w3, Ret (Some (RateLimiter.decide_result (RateLimiter.config rl)
                      (time_Now w) c ttl), None)).
Proof.
  intros Hk Hi He Ht. unfold RateLimiter.AllowN.
  rewrite Hk, Hi, He, Ht. reflexivity.
Qed.

(** Whatever the replies, a returned result never has a negative
    [Remaining]. *)
Lemma decide_result_Remaining_nonneg cfg now c ttl :
  0 <= Remaining (RateLimiter.decide_result cfg now c ttl).
Proof.
  unfold RateLimiter.decide_result. cbn [Remaining].
  destruct (Z.ltb_spec (wrap64 (Rate cfg - c)) 0); lia.
Qed.

Lemma AllowN_Remaining_nonneg rl key n (w w' : W) r e :
  RateLimiter.AllowN rl key n w = (w', Ret (Some r, e)) -> 0 <= Remaining r.
Proof.
  unfold RateLimiter.AllowN.
  destruct (RateLimiter.buildKey rl key (time_Now w)) as [k|m]; [|discriminate].
  destruct (rdb_IncrBy _ k n w) as [w1 r1].
  destruct (rdb_Expire _ k _ w1) as [w2 r2].
  destruct (rdb_TTL _ k w2) as [w3 r3].
  destruct (RateLimiter.pipe_err r1 r2 r3); [discriminate|].
  intros [= _ <- _]. apply decide_result_Remaining_nonneg.
Qed.

End LimiterFacts.

(** C1: when the pipelined round trip of [AllowN] succeeds with
    post-increment count [c], the call returns a result with
    [Allowed = (c <= rate)] and a [Remaining] that is never negative and
    equals [max 0 (rate - c)] (the subtraction being taken in Go's [int],
    that is for every [rate - c] the type can hold). *)
Theorem AllowN_allowed_and_remaining :
  forall (W : Type) (HW : Rdb W) (rl : RateLimiter.t) (key windowKey : string)
         (n : Z) (w w1 w2 w3 : W) (c : Z) (b : bool) (ttl : time_Duration),
    1 <= n ->
    RateLimiter.buildKey rl key (time_Now w) = Ret windowKey ->
    rdb_IncrBy (RateLimiter.client rl) windowKey n w = (w1, Val c) ->
    rdb_Expire (RateLimiter.client rl) windowKey
      (Window (RateLimiter.config rl)) w1 = (w2, Val b) ->
    rdb_TTL (RateLimiter.client rl) windowKey w2 = (w3, Val ttl) ->
    exists r : RateLimitResult,
      RateLimiter.AllowN rl key n w = (w3, Ret (Some r, None)) /\
      Allowed r = (c <=? Rate (RateLimiter.config rl)) /\
      0 <= Remaining r /\
      (in_int64 (Rate (RateLimiter.config rl) - c) ->
       Remaining r = Z.max 0 (Rate (RateLimiter.config rl) - c)).
Proof.
  intros W HW rl key windowKey n w w1 w2 w3 c b ttl _ Hk Hi He Ht.
  eexists. split; [eapply AllowN_success; eassumption|].
  split; [reflexivity|].
  split; [apply decide_result_Remaining_nonneg|].
  intros Hr. unfold RateLimiter.decide_result. cbn [Remaining].
  rewrite (wrap64_id _ Hr).
  destruct (Z.ltb_spec (Rate (RateLimiter.config rl) - c) 0); lia.
Qed.

Lemma AllowN_allowed_and_remaining_witness :
  exists r : RateLimitResult,
    RateLimiter.AllowN Sample.limiter "u1" 1 Sample.world =
      (fst (RateLimiter.AllowN Sample.limiter "u1" 1 Sample.world),
       Ret (Some r, None)) /\
    Allowed r = true /\
    0 <= Remaining r /\
    (in_int64 (2 - 1) -> Remaining r = 1).
Proof.
  refine (AllowN_allowed_and_remaining Mem.MemWorld _ Sample.limiter "u1"
            "ratelimit:u1:28333333" 1 Sample.world
            (fst (Mem.mem_IncrBy 0%N "ratelimit:u1:28333333" 1 Sample.world))
            _ _ 1 true Minute _ _ _ _ _).
  - lia.
  - vm_compute. reflexivity.
  - vm_compute. reflexivity.
  - vm_compute. reflexivity.
  - vm_compute. reflexivity.
Defined.

(** C1 does not hold of every count: [rate - c] is computed in Go's [int]
    and wraps around.  On a counter that stands at the least int64 a check
    of the two-a-minute limiter succeeds with count [c = 1 - 2^63] and is
    allowed, but with [Remaining = 0] where [max 0 (rate - c)] is
    [2^63 + 1]. *)
Lemma Remaining_wraps_around :
  exists (w' : Mem.MemWorld) (r : RateLimitResult),
    snd (rdb_IncrBy 0%N "ratelimit:u1:28333333" 1 Sample.world_low_counter)
      = Val (-9223372036854775807) /\
    RateLimiter.AllowN Sample.limiter "u1" 1 Sample.world_low_counter
      = (w', Ret (Some r, None)) /\
    Allowed r = true /\
    Remaining r = 0 /\
    Z.max 0 (Rate (RateLimiter.config Sample.limiter)
             - (-9223372036854775807)) = 9223372036854775809.
Proof.
  eexists _, _. split; [vm_compute; reflexivity|].
  split; [vm_compute; reflexivity|].
  repeat split.
Qed.

(** C7: on a successful check a positive TTL [t] gives [ResetAt = now + t]
    and, when denied, [RetryAfter = t]; a negative TTL (no expiry on the
    counter) is not an error: the result is still returned, with [ResetAt]
    [now + window] and, when denied, [RetryAfter] the whole window. *)
Theorem AllowN_reset_and_retry :
  forall (W : Type) (HW : Rdb W) (rl : RateLimiter.t) (key windowKey : string)
         (n : Z) (w w1 w2 w3 : W) (c : Z) (b : bool) (ttl : time_Duration),
    RateLimiter.buildKey rl key (time_Now w) = Ret windowKey ->
    rdb_IncrBy (RateLimiter.client rl) windowKey n w = (w1, Val c) ->
    rdb_Expire (RateLimiter.client rl) windowKey
      (Window (RateLimiter.config rl)) w1 = (w2, Val b) ->
    rdb_TTL (RateLimiter.client rl) windowKey w2 = (w3, Val ttl) ->
    exists r : RateLimitResult,
      RateLimiter.AllowN rl key n w = (w3, Ret (Some r, None)) /\
      (0 < ttl ->
       ResetAt r = Time_Add (time_Now w) ttl /\
       (Allowed r = false -> RetryAfter r = ttl)) /\
      (ttl < 0 ->
       ResetAt r = Time_Add (time_Now w) (Window (RateLimiter.config rl)) /\
       (Allowed r = false -> RetryAfter r = Window (RateLimiter.config rl))).
Proof.
  intros W HW rl key windowKey n w w1 w2 w3 c b ttl Hk Hi He Ht.
  eexists. split; [eapply AllowN_success; eassumption|].
  unfold RateLimiter.decide_result. cbn [ResetAt RetryAfter Allowed].
  split; intros Httl.
  - destruct (Z.ltb_spec ttl 0); [lia|]. split; [reflexivity|].
    intros ->. reflexivity.
  - destruct (Z.ltb_spec ttl 0); [|lia]. split; [reflexivity|].
    intros ->. reflexivity.
Qed.

Lemma AllowN_reset_and_retry_witness :
  exists r : RateLimitResult,
    RateLimiter.AllowN Sample.limiter "u1" 1 Sample.world_ttl_missing =
      (Script.blank (1700000000 * Second), Ret (Some r, None)) /\
    (0 < -1 ->
     ResetAt r = 1700000000 * Second + -1 /\
     (Allowed r = false -> RetryAfter r = -1)) /\
    (-1 < 0 ->
     ResetAt r = 1700000000 * Second + Minute /\
     (Allowed r = false -> RetryAfter r = Minute)).
Proof.
  refine (AllowN_reset_and_retry Script.World _ Sample.limiter "u1"
            "ratelimit:u1:28333333" 1 Sample.world_ttl_missing
            _ _ _ 3 false (-1) _ _ _ _).
  - vm_compute. reflexivity.
  - vm_compute. reflexivity.
  - vm_compute. reflexivity.
  - vm_compute. reflexivity.
Defined.

(** ** Rate limiter: the burst size is never read *)

Section BurstSize.
Context {W : Type} `{Rdb W}.

Lemma NewRateLimiter_same_but_burst c cfg b1 b2 :
  same_but_burst
    (RateLimiter.NewRateLimiter c (with_BurstSize cfg b1))
    (RateLimiter.NewRateLimiter c (with_BurstSize cfg b2)).
Proof.
  unfold same_but_burst, RateLimiter.NewRateLimiter, with_BurstSize.
  cbn [KeyPrefix Rate Window BurstSize].
  destruct (String.eqb (KeyPrefix cfg) ""); cbn [KeyPrefix Rate Window BurstSize];
    destruct (b1 =? 0), (b2 =? 0); cbn; auto.
Qed.

Lemma decide_result_same_but_burst rl1 rl2 now c ttl :
  same_but_burst rl1 rl2 ->
  RateLimiter.decide_result (RateLimiter.config rl1) now c ttl =
  RateLimiter.decide_result (RateLimiter.config rl2) now c ttl.
Proof.
  intros (_ & _ & Hr & Hw). unfold RateLimiter.decide_result.
  rewrite Hr, Hw. reflexivity.
Qed.

Lemma AllowN_same_but_burst rl1 rl2 key n (w : W) :
  same_but_burst rl1 rl2 ->
  RateLimiter.AllowN rl1 key n w = RateLimiter.AllowN rl2 key n w.
Proof.
  intros Hs. pose proof Hs as (Hc & Hp & Hr & Hw).
  unfold RateLimiter.AllowN, RateLimiter.buildKey.
  rewrite Hc, Hp, Hw.
  destruct (int64_div _ _) as [idx|m]; [|reflexivity].
  destruct (rdb_IncrBy _ _ n w) as [w1 r1].
  destruct (rdb_Expire _ _ _ w1) as [w2 r2].
  destruct (rdb_TTL _ _ w2) as [w3 r3].
  destruct (RateLimiter.pipe_err r1 r2 r3); [reflexivity|].
  rewrite (decide_result_same_but_burst rl1 rl2) by exact Hs. reflexivity.
Qed.

Lemma check_all_same_but_burst rl1 rl2 reqs (w : W) :
  same_but_burst rl1 rl2 ->
  check_all rl1 reqs w = check_all rl2 reqs w.
Proof.
  intros Hs. revert w.
  induction reqs as [|[[key n] env] reqs IH]; intros w; [reflexivity|].
  cbn [check_all]. rewrite (AllowN_same_but_burst rl1 rl2) by exact Hs.
  destruct (RateLimiter.AllowN rl2 key n (env w)) as [w' r].
  rewrite IH. reflexivity.
Qed.

End BurstSize.

(** C9: the burst size does not influence the limiter.  Two limiters built
    by [NewRateLimiter] from configurations that differ only in [BurstSize],
    run from the same world on the same sequence of keys and counts (the
    store therefore giving the same replies), return the same results and
    leave the same world; so do [Allow] and [AllowN] on their own. *)
Theorem BurstSize_noninterference :
  forall (W : Type) (HW : Rdb W) (c : Client) (cfg : RateLimitConfig)
         (b1 b2 : Z) (reqs : list (string * Z * (W -> W))) (key : string)
         (n : Z) (w : W),
    let rl1 := RateLimiter.NewRateLimiter c (with_BurstSize cfg b1) in
    let rl2 := RateLimiter.NewRateLimiter c (with_BurstSize cfg b2) in
    check_all rl1 reqs w = check_all rl2 reqs w /\
    RateLimiter.AllowN rl1 key n w = RateLimiter.AllowN rl2 key n w /\
    RateLimiter.Allow rl1 key w = RateLimiter.Allow rl2 key w.
Proof.
  intros W HW c cfg b1 b2 reqs key n w rl1 rl2.
  pose proof (NewRateLimiter_same_but_burst c cfg b1 b2) as Hs.
  split; [apply check_all_same_but_burst; exact Hs|].
  split; apply AllowN_same_but_burst; exact Hs.
Qed.

(** ** Rate limiter: windows shorter than a second *)

Lemma buildKey_panics rl key now :
  0 <= Window (RateLimiter.config rl) < Second ->
  RateLimiter.buildKey rl key now = Panic divide_by_zero.
Proof.
  intros Hw. unfold RateLimiter.buildKey, int64_div.
  rewrite Seconds_int64_small by exact Hw. reflexivity.
Qed.

Lemma buildKey_returns rl key now :
  Second <= Window (RateLimiter.config rl) ->
  exists k, RateLimiter.buildKey rl key now = Ret k.
Proof.
  intros Hw. unfold RateLimiter.buildKey, int64_div.
  pose proof (Seconds_int64_pos _ Hw).
  destruct (Z.eqb_spec (Seconds_int64 (Window (RateLimiter.config rl))) 0);
    [lia|]. eexists. reflexivity.
Qed.

Lemma cluster_buildKey_panics rl key now :
  0 <= Window (ClusterRateLimiter.config rl) < Second ->
  ClusterRateLimiter.buildKey rl key now = Panic divide_by_zero.
Proof.
  intros Hw. unfold ClusterRateLimiter.buildKey, int64_div.
  rewrite Seconds_int64_small by exact Hw. reflexivity.
Qed.

Lemma cluster_buildKey_returns rl key now :
  Second <= Window (ClusterRateLimiter.config rl) ->
  exists k, ClusterRateLimiter.buildKey rl key now = Ret k.
Proof.
  intros Hw. unfold ClusterRateLimiter.buildKey, int64_div.
  pose proof (Seconds_int64_pos _ Hw).
  destruct (Z.eqb_spec (Seconds_int64 (Window (ClusterRateLimiter.config rl))) 0);
    [lia|]. eexists. reflexivity.
Qed.

Section Totality.
Context {W : Type} `{Rdb W}.

Lemma AllowN_returns rl key n (w : W) :
  Second <= Window (RateLimiter.config rl) ->
  exists w' x, RateLimiter.AllowN rl key n w = (w', Ret x).
Proof.
  intros Hw. unfold RateLimiter.AllowN.
  destruct (buildKey_returns rl key (time_Now w) Hw) as [k ->].
  destruct (rdb_IncrBy _ k n w) as [w1 r1].
  destruct (rdb_Expire _ k _ w1) as [w2 r2].
  destruct (rdb_TTL _ k w2) as [w3 r3].
  destruct (RateLimiter.pipe_err r1 r2 r3); eexists _, _; reflexivity.
Qed.

Lemma Reset_returns rl key (w : W) :
  Second <= Window (RateLimiter.config rl) ->
  exists w' x, RateLimiter.Reset rl key w = (w', Ret x).
Proof.
  intros Hw. unfold RateLimiter.Reset.
  destruct (buildKey_returns rl key (time_Now w) Hw) as [k ->].
  destruct (rdb_Del _ k w) as [w1 r1]. eexists _, _; reflexivity.
Qed.

Lemma cluster_AllowN_returns rl key n (w : W) :
  Second <= Window (ClusterRateLimiter.config rl) ->
  exists w' x, ClusterRateLimiter.AllowN rl key n w = (w', Ret x).
Proof.
  intros Hw. unfold ClusterRateLimiter.AllowN.
  destruct (cluster_buildKey_returns rl key (time_Now w) Hw) as [k ->].
  destruct (rdb_IncrBy _ k n w) as [w1 r1].
  destruct (rdb_Expire _ k _ w1) as [w2 r2].
  destruct (rdb_TTL _ k w2) as [w3 r3].
  destruct (RateLimiter.pipe_err r1 r2 r3); eexists _, _; reflexivity.
Qed.

End Totality.

(** C10: the key derivation divides by [int64(Window.Seconds())].  For a
    positive window under one second that divisor is 0 and [Allow],
    [AllowN] and [Reset] (and the cluster limiter's [AllowN]) panic with an
    integer division by zero before touching the store; from one second
    up they return.  Among positive windows the operations are total exactly
    when [Window >= 1s]. *)
Theorem sub_second_window_divides_by_zero :
  forall (W : Type) (HW : Rdb W) (rl : RateLimiter.t)
         (crl : ClusterRateLimiter.t) (key : string) (n : Z) (w : W),
    0 < Window (RateLimiter.config rl) ->
    Window (ClusterRateLimiter.config crl) = Window (RateLimiter.config rl) ->
    (Window (RateLimiter.config rl) < Second ->
       Seconds_int64 (Window (RateLimiter.config rl)) = 0 /\
       RateLimiter.AllowN rl key n w = (w, Panic divide_by_zero) /\
       RateLimiter.Allow rl key w = (w, Panic divide_by_zero) /\
       RateLimiter.Reset rl key w = (w, Panic divide_by_zero) /\
       ClusterRateLimiter.AllowN crl key n w = (w, Panic divide_by_zero)) /\
    (Second <= Window (RateLimiter.config rl) ->
       (exists w' x, RateLimiter.AllowN rl key n w = (w', Ret x)) /\
       (exists w' x, RateLimiter.Allow rl key w = (w', Ret x)) /\
       (exists w' x, RateLimiter.Reset rl key w = (w', Ret x)) /\
       (exists w' x, ClusterRateLimiter.AllowN crl key n w = (w', Ret x))).
Proof.
  intros W HW rl crl key n w Hpos Hcw. split; intros Hw.
  - split; [apply Seconds_int64_small; lia|].
    unfold RateLimiter.Allow, RateLimiter.AllowN, RateLimiter.Reset,
      ClusterRateLimiter.AllowN.
    rewrite !buildKey_panics by lia.
    rewrite cluster_buildKey_panics by lia. auto.
  - split; [apply AllowN_returns; exact Hw|].
    split; [apply AllowN_returns; exact Hw|].
    split; [apply Reset_returns; exact Hw|].
    apply cluster_AllowN_returns. lia.
Qed.

Lemma sub_second_window_divides_by_zero_witness :
  0 < 500000000 /\
  RateLimiter.AllowN Sample.fast_limiter "u1" 1 Sample.world =
    (Sample.world, Panic divide_by_zero) /\
  RateLimiter.Reset Sample.fast_limiter "u1" Sample.world =
    (Sample.world, Panic divide_by_zero) /\
  ClusterRateLimiter.AllowN Sample.fast_cluster_limiter "u1" 1 Sample.world =
    (Sample.world, Panic divide_by_zero).
Proof.
  assert (Hpos : 0 < Window (RateLimiter.config Sample.fast_limiter))
    by (vm_compute; reflexivity).
  assert (Hlt : Window (RateLimiter.config Sample.fast_limiter) < Second)
    by (vm_compute; reflexivity).
  destruct (sub_second_window_divides_by_zero Mem.MemWorld _
              Sample.fast_limiter Sample.fast_cluster_limiter "u1" 1
              Sample.world Hpos eq_refl) as [Hsmall _].
  destruct (Hsmall Hlt) as (_ & Ha & _ & Hr & Hc).
  split; [lia|]. split; [exact Ha|]. split; [exact Hr|exact Hc].
Defined.

(** ** Rate limiter: the counter key *)

Lemma string_of_uint_colon_free (d : Decimal.uint) :
  colon_free (NilEmpty.string_of_uint d).
Proof. induction d; cbn; auto; split; auto; discriminate. Qed.

Lemma itoa_colon_free (z : Z) : colon_free (itoa z).
Proof.
  unfold itoa, NilZero.string_of_int, NilZero.string_of_uint.
  destruct (Z.to_int z) as [d|d]; destruct d; cbn;
    repeat split; try discriminate; apply string_of_uint_colon_free.
Qed.

Lemma to_int_not_nil (z : Z) :
  Z.to_int z <> Decimal.Pos Decimal.Nil /\ Z.to_int z <> Decimal.Neg Decimal.Nil.
Proof.
  destruct z as [|p|p]; cbn; split; try discriminate;
    intros [= Hp]; exact (DecimalPos.Unsigned.to_uint_nonnil p Hp).
Qed.

Lemma int_of_string_itoa (z : Z) :
  NilZero.int_of_string (itoa z) = Some (Z.to_int z).
Proof.
  unfold itoa. destruct (to_int_not_nil z) as [Hp Hn].
  apply NilZero.isi; assumption.
Qed.

Lemma itoa_inj (a b : Z) : itoa a = itoa b -> a = b.
Proof.
  intros Hab. apply DecimalZ.to_int_inj.
  pose proof (int_of_string_itoa a) as Ha.
  rewrite Hab, int_of_string_itoa in Ha. congruence.
Qed.

Lemma colon_free_no_colon (s d : string) :
  ~ colon_free (s +:+ String ":" d).
Proof.
  induction s as [|a s IH]; cbn.
  - intros [Hc _]. apply Hc. reflexivity.
  - intros [_ Hs]. exact (IH Hs).
Qed.

(** A string is split in one way only at its last colon. *)
Lemma split_last_colon (s1 s2 d1 d2 : string) :
  colon_free d1 -> colon_free d2 ->
  s1 +:+ String ":" d1 = s2 +:+ String ":" d2 ->
  s1 = s2 /\ d1 = d2.
Proof.
  intros H1 H2. revert s2.
  induction s1 as [|a s1 IH]; intros [|b s2]; cbn; intros Heq.
  - injection Heq as ->. auto.
  - injection Heq as <- ->. destruct (colon_free_no_colon _ _ H1).
  - injection Heq as -> <-. destruct (colon_free_no_colon _ _ H2).
  - injection Heq as -> Heq. destruct (IH _ Heq) as [-> ->]. auto.
Qed.

Lemma quot_window_index (u s : Z) :
  0 <= u <= max_int64 -> 1 <= s ->
  wrap64 (Z.quot u s) = u / s /\ 0 <= u / s <= u.
Proof.
  intros Hu Hs. rewrite Z.quot_div_nonneg by lia.
  assert (0 <= u / s) by (apply Z.div_pos; lia).
  assert (u / s <= u) by (apply Z.div_le_upper_bound; nia).
  split; [|lia]. apply wrap64_id. unfold in_int64, min_int64, max_int64 in *.
  lia.
Qed.

(** [buildKey] for a window of at least a second and a time since the
    epoch. *)
Lemma buildKey_value rl id t :
  Second <= Window (RateLimiter.config rl) ->
  0 <= Unix t <= max_int64 ->
  RateLimiter.buildKey rl id t =
    Ret (KeyPrefix (RateLimiter.config rl) +:+ ":" +:+ id +:+ ":" +:+
         itoa (windowIndex (RateLimiter.config rl) t)).
Proof.
  intros Hw Ht. unfold RateLimiter.buildKey, int64_div, windowIndex.
  pose proof (Seconds_int64_pos _ Hw) as Hs.
  destruct (Z.eqb_spec (Seconds_int64 (Window (RateLimiter.config rl))) 0);
    [lia|].
  destruct (quot_window_index _ _ Ht Hs) as [-> _]. reflexivity.
Qed.

Lemma buildKey_inj rl id id' t t' :
  Second <= Window (RateLimiter.config rl) ->
  0 <= Unix t <= max_int64 -> 0 <= Unix t' <= max_int64 ->
  RateLimiter.buildKey rl id' t' = RateLimiter.buildKey rl id t ->
  id' = id /\
  windowIndex (RateLimiter.config rl) t' = windowIndex (RateLimiter.config rl) t.
Proof.
  intros Hw Ht Ht'. rewrite !buildKey_value by assumption.
  intros [= Heq]. apply (inj (String.app _)) in Heq.
  cbn [String.append] in Heq. injection Heq as Heq.
  apply split_last_colon in Heq; try apply itoa_colon_free.
  destruct Heq as [-> Hi]. split; [reflexivity|]. apply itoa_inj, Hi.
Qed.

(** *** What a check writes in the reference store *)

Lemma command_frame {A} (w : Mem.MemWorld)
    (f : Mem.MemWorld -> Mem.MemWorld * reply A) (k : Client * string) :
  (forall w0, Mem.data (fst (f w0)) !! k = Mem.data w0 !! k) ->
  Mem.data (fst (Mem.command w f)) !! k = Mem.data w !! k.
Proof.
  intros Hf. unfold Mem.command. destruct (Mem.cancelled w); [reflexivity|].
  rewrite Hf. reflexivity.
Qed.

Lemma mem_IncrBy_frame c key n w (k : Client * string) :
  k <> (c, key) ->
  Mem.data (fst (Mem.mem_IncrBy c key n w)) !! k = Mem.data w !! k.
Proof.
  intros Hk. unfold Mem.mem_IncrBy. apply command_frame. intros w0.
  destruct (Mem.live w0 c key) as [e|].
  - destruct (Mem.atoi (Mem.e_val e)) as [v|]; [|reflexivity].
    destruct (_ && _); [|reflexivity]. cbn. apply lookup_insert_ne. congruence.
  - destruct (_ && _); [|reflexivity]. cbn. apply lookup_insert_ne. congruence.
Qed.

Lemma mem_Expire_frame c key d w (k : Client * string) :
  k <> (c, key) ->
  Mem.data (fst (Mem.mem_Expire c key d w)) !! k = Mem.data w !! k.
Proof.
  intros Hk. unfold Mem.mem_Expire. apply command_frame. intros w0.
  destruct (Mem.live w0 c key) as [e|]; [|reflexivity].
  destruct (d <=? 0); cbn.
  - apply lookup_delete_ne. congruence.
  - apply lookup_insert_ne. congruence.
Qed.

Lemma mem_TTL_frame c key w :
  Mem.data (fst (Mem.mem_TTL c key w)) = Mem.data w.
Proof.
  unfold Mem.mem_TTL, Mem.command. destruct (Mem.cancelled w); [reflexivity|].
  destruct (Mem.live (Mem.tick w) c key) as [e|]; [|reflexivity].
  destruct (Mem.e_exp e); reflexivity.
Qed.

(** A check leaves every key but its own counter key as it was. *)
Lemma AllowN_frame rl id n (w : Mem.MemWorld) windowKey (k : Client * string) :
  RateLimiter.buildKey rl id (Mem.clock w) = Ret windowKey ->
  k <> (RateLimiter.client rl, windowKey) ->
  Mem.data (fst (RateLimiter.AllowN rl id n w)) !! k = Mem.data w !! k.
Proof.
  intros Hb Hk. unfold RateLimiter.AllowN. cbn [time_Now Mem.MemWorld_Rdb].
  rewrite Hb. cbn [rdb_IncrBy rdb_Expire rdb_TTL Mem.MemWorld_Rdb].
  pose proof (mem_IncrBy_frame (RateLimiter.client rl) windowKey n w k Hk) as H1.
  destruct (Mem.mem_IncrBy _ windowKey n w) as [w1 r1]. cbn [fst] in H1.
  pose proof (mem_Expire_frame (RateLimiter.client rl) windowKey
                (Window (RateLimiter.config rl)) w1 k Hk) as H2.
  destruct (Mem.mem_Expire _ windowKey _ w1) as [w2 r2]. cbn [fst] in H2.
  pose proof (mem_TTL_frame (RateLimiter.client rl) windowKey w2) as H3.
  destruct (Mem.mem_TTL _ windowKey w2) as [w3 r3]. cbn [fst] in H3.
  destruct (RateLimiter.pipe_err r1 r2 r3); cbn [fst];
    rewrite H3, H2, H1; reflexivity.
Qed.

(** A check that gets a key out of [buildKey] has a window of at least a
    second. *)
Lemma buildKey_Ret_window rl id t k :
  0 < Window (RateLimiter.config rl) ->
  RateLimiter.buildKey rl id t = Ret k ->
  Second <= Window (RateLimiter.config rl).
Proof.
  intros Hpos Hk.
  destruct (Z.lt_ge_cases (Window (RateLimiter.config rl)) Second) as [Hlt|Hge];
    [|exact Hge].
  rewrite buildKey_panics in Hk by lia. discriminate.
Qed.



(** ** Scanner *)

Section ScannerFacts.
Context {W : Type} `{Rdb W}.

Lemma Next_unfold (fuel : nat) (s : Scanner.t) (w : W) :
  Scanner.Next fuel s w =
  if Scanner.done s || Scanner.is_err (Scanner.err s) then Some (w, s, false)
  else
    match ctx_Err w with
    | Some e => Some (w, Scanner.set_err s e, false)
    | None =>
        if Scanner.bufIdx s <? Scanner.len (Scanner.buffer s)
        then Some (w, Scanner.set_bufIdx s (Scanner.bufIdx s + 1), true)
        else
          let s := Scanner.set_bufIdx (Scanner.set_buffer s []) 0 in
          let w :=
            if (Scanner.BatchDelay (Scanner.opts s) >? 0)
               && (Scanner.cursor s >? 0)
            then time_Sleep (Scanner.BatchDelay (Scanner.opts s)) w
            else w in
          let '(w, r) := Scanner.fetch s w in
          match r with
          | Fail e => Some (w, Scanner.set_err s e, false)
          | Val (keys, cur) =>
              let s := Scanner.set_buffer (Scanner.set_cursor s cur) keys in
              let s := if cur =? 0 then Scanner.set_done s true else s in
              if 0 <? Scanner.len (Scanner.buffer s)
              then Some (w, Scanner.set_bufIdx s 1, true)
              else if negb (Scanner.done s)
              then match fuel with
                   | O => None
                   | S fuel' => Scanner.Next fuel' s w
                   end
              else Some (w, s, false)
          end
    end.
Proof. destruct fuel; reflexivity. Qed.

Lemma latched_guard (s : Scanner.t) :
  latched s <-> Scanner.done s || Scanner.is_err (Scanner.err s) = true.
Proof.
  unfold latched. destruct (Scanner.done s), (Scanner.err s); cbn;
    split; auto; intros [?|?]; congruence.
Qed.

(** The first statement of [Next]: a latched scanner answers false at once,
    keeping its state and the world. *)
Lemma Next_latched (fuel : nat) (s : Scanner.t) (w : W) :
  latched s -> Scanner.Next fuel s w = Some (w, s, false).
Proof.
  intros Hl. apply latched_guard in Hl. rewrite Next_unfold, Hl. reflexivity.
Qed.

Lemma Next_times_latched (k fuel : nat) (env : W -> W) (s : Scanner.t) (w : W) :
  latched s ->
  Next_times k fuel env s w = Some (Nat.iter k env w, s, repeat false k).
Proof.
  intros Hl. revert w. induction k as [|k IH]; intros w; [reflexivity|].
  cbn [Next_times]. rewrite (Next_latched fuel s (env w) Hl), IH.
  rewrite <- Nat.iter_succ_r. reflexivity.
Qed.

(** Every way for [Next] to answer false leaves the scanner latched. *)
Lemma Next_false_latches (fuel : nat) (s s' : Scanner.t) (w w' : W) :
  Scanner.Next fuel s w = Some (w', s', false) -> latched s'.
Proof.
  revert s w. induction fuel as [|fuel IH]; intros s w; rewrite Next_unfold;
    (destruct (Scanner.done s || Scanner.is_err (Scanner.err s)) eqn:Hg;
     [intros [= _ <-]; apply latched_guard; exact Hg|]);
    (destruct (ctx_Err w) as [e|];
     [intros [= _ <-]; right; discriminate|]);
    (destruct (Scanner.bufIdx s <? Scanner.len (Scanner.buffer s));
     [discriminate|]); cbv zeta;
    (destruct (Scanner.fetch _ _) as [w1 [[keys cur]|e]];
     [|intros [= _ <-]; right; discriminate]);
    (destruct (0 <? Scanner.len _); [discriminate|]);
    (destruct (negb _) eqn:Hd;
     [|intros [= _ <-]; left; apply negb_false_iff in Hd; exact Hd]).
  - discriminate.
  - apply IH.
Qed.

(** A failed page fetch is latched. *)
Lemma Next_fetch_error (fuel : nat) (s : Scanner.t) (w w' : W) (e : error) :
  ~ latched s -> ctx_Err w = None ->
  Scanner.len (Scanner.buffer s) <= Scanner.bufIdx s ->
  Scanner.BatchDelay (Scanner.opts s) <= 0 ->
  Scanner.fetch (Scanner.set_bufIdx (Scanner.set_buffer s []) 0) w
    = (w', Fail e) ->
  Scanner.Next fuel s w =
    Some (w', Scanner.set_err (Scanner.set_bufIdx (Scanner.set_buffer s []) 0) e,
          false).
Proof.
  intros Hl Hc Hb Hd Hf. rewrite Next_unfold.
  destruct (Scanner.done s || Scanner.is_err (Scanner.err s)) eqn:Hg;
    [destruct Hl; apply latched_guard; exact Hg|].
  rewrite Hc. destruct (Z.ltb_spec (Scanner.bufIdx s) (Scanner.len (Scanner.buffer s)));
    [lia|]. cbv zeta. cbn [Scanner.opts Scanner.set_bufIdx Scanner.set_buffer].
  destruct (Z.gtb_spec (Scanner.BatchDelay (Scanner.opts s)) 0); [lia|].
  cbn [andb]. rewrite Hf. reflexivity.
Qed.

(** An observed cancellation is latched, and no page is fetched. *)
Lemma Next_cancelled (fuel : nat) (s : Scanner.t) (w : W) (e : error) :
  ~ latched s -> ctx_Err w = Some e ->
  Scanner.Next fuel s w = Some (w, Scanner.set_err s e, false).
Proof.
  intros Hl Hc. rewrite Next_unfold.
  destruct (Scanner.done s || Scanner.is_err (Scanner.err s)) eqn:Hg;
    [destruct Hl; apply latched_guard; exact Hg|].
  rewrite Hc. reflexivity.
Qed.

End ScannerFacts.

(** C6: a scanner that has latched an error, or whose scan has ended, stays
    that way.  Every later [Next], whatever happened to the world in the
    meantime, returns false, leaves the scanner as it is (so the condition
    persists) and hands the world back untouched: no store command is
    issued. *)
Theorem Next_after_latch :
  forall (W : Type) (HW : Rdb W) (s : Scanner.t) (env : W -> W)
         (k fuel : nat) (w : W),
    Scanner.done s = true \/ Scanner.err s <> None ->
    Scanner.Next fuel s w = Some (w, s, false) /\
    Next_times k fuel env s w = Some (Nat.iter k env w, s, repeat false k).
Proof.
  intros W HW s env k fuel w Hl. split.
  - apply Next_latched. exact Hl.
  - apply Next_times_latched. exact Hl.
Qed.

Lemma Next_after_latch_witness :
  (Scanner.done Sample.failed_scanner = true \/
   Scanner.err Sample.failed_scanner <> None) /\
  Scanner.Next 0 Sample.failed_scanner Sample.store_abc =
    Some (Sample.store_abc, Sample.failed_scanner, false) /\
  Next_times 3 0 (fun w => w) Sample.failed_scanner Sample.store_abc =
    Some (Sample.store_abc, Sample.failed_scanner, [false; false; false]).
Proof.
  assert (Hl : Scanner.done Sample.failed_scanner = true \/
               Scanner.err Sample.failed_scanner <> None)
    by (right; discriminate).
  split; [exact Hl|].
  exact (Next_after_latch Mem.MemWorld _ Sample.failed_scanner (fun w => w)
           3 0 Sample.store_abc Hl).
Defined.

Section ScannerPages.
Context {W : Type} `{Rdb W}.

(** An empty page before the cursor has wrapped does not stop the scan:
    [Next] goes on to fetch the page after it. *)
Lemma Next_skips_empty_page (fuel : nat) (s : Scanner.t) (w w' : W) (cur : Z) :
  ~ latched s -> ctx_Err w = None ->
  Scanner.len (Scanner.buffer s) <= Scanner.bufIdx s ->
  Scanner.BatchDelay (Scanner.opts s) <= 0 ->
  cur <> 0 ->
  Scanner.fetch (drained s) w = (w', Val ([], cur)) ->
  Scanner.Next (S fuel) s w = Scanner.Next fuel (arrived s [] cur) w' /\
  ~ latched (arrived s [] cur) /\
  Scanner.cursor (arrived s [] cur) = cur.
Proof.
  intros Hl Hc Hb Hd Hcur Hf. unfold arrived, drained in *.
  destruct (Z.eqb_spec cur 0) as [|_]; [contradiction|].
  split; [|split; [|reflexivity]].
  - rewrite Next_unfold.
    destruct (Scanner.done s || Scanner.is_err (Scanner.err s)) eqn:Hg;
      [destruct Hl; apply latched_guard; exact Hg|].
    rewrite Hc.
    destruct (Z.ltb_spec (Scanner.bufIdx s) (Scanner.len (Scanner.buffer s)));
      [lia|]. cbv zeta. cbn [Scanner.opts Scanner.set_bufIdx Scanner.set_buffer].
    destruct (Z.gtb_spec (Scanner.BatchDelay (Scanner.opts s)) 0); [lia|].
    cbn [andb]. rewrite Hf.
    destruct (Z.eqb_spec cur 0) as [|_]; [contradiction|].
    apply orb_false_iff in Hg. destruct Hg as [Hg _].
    destruct s as [c o cu bu bi d e]. cbn in Hg |- *. rewrite Hg.
    reflexivity.
  - intros Hl'. apply Hl. unfold latched in *. exact Hl'.
Qed.

(** The page that brings the cursor back to 0: [Next] steps on its first
    key and marks the scan as done. *)
Lemma Next_final_page (fuel : nat) (s : Scanner.t) (w w' : W)
    (k : string) (ks : list string) :
  ~ latched s -> ctx_Err w = None ->
  Scanner.len (Scanner.buffer s) <= Scanner.bufIdx s ->
  Scanner.BatchDelay (Scanner.opts s) <= 0 ->
  Scanner.fetch (drained s) w = (w', Val (k :: ks, 0)) ->
  Scanner.Next fuel s w =
    Some (w', Scanner.set_bufIdx (arrived s (k :: ks) 0) 1, true).
Proof.
  intros Hl Hc Hb Hd Hf. unfold arrived, drained in *.
  rewrite Next_unfold.
  destruct (Scanner.done s || Scanner.is_err (Scanner.err s)) eqn:Hg;
    [destruct Hl; apply latched_guard; exact Hg|].
  rewrite Hc.
  destruct (Z.ltb_spec (Scanner.bufIdx s) (Scanner.len (Scanner.buffer s)));
    [lia|]. cbv zeta. cbn [Scanner.opts Scanner.set_bufIdx Scanner.set_buffer].
  destruct (Z.gtb_spec (Scanner.BatchDelay (Scanner.opts s)) 0); [lia|].
  cbn [andb]. rewrite Hf. reflexivity.
Qed.

(** A new scanner: start cursor, empty buffer, nothing latched. *)
Lemma Blusukan_fresh (c : Client) (o : Scanner.ScanOptions) :
  exists o',
    Scanner.Blusukan c o =
      {| Scanner.client := c; Scanner.opts := o'; Scanner.cursor := 0;
         Scanner.buffer := []; Scanner.bufIdx := 0; Scanner.done := false;
         Scanner.err := None |} /\
    Scanner.BatchDelay o' = Scanner.BatchDelay o.
Proof.
  unfold Scanner.Blusukan.
  destruct (String.eqb _ _); cbn [Scanner.Count];
    destruct (_ =? 0); eexists; split; reflexivity.
Qed.

(** [All] on a key space that comes back as one page: only the first key
    of the page is returned, the others stay in the buffer. *)
Lemma All_single_page (fuel : nat) (c : Client) (o : Scanner.ScanOptions)
    (w w' : W) (k : string) (ks : list string) :
  ctx_Err w = None ->
  Scanner.BatchDelay o <= 0 ->
  Scanner.fetch (Scanner.Blusukan c o) w = (w', Val (k :: ks, 0)) ->
  exists s', Scanner.All (S (S fuel)) (Scanner.Blusukan c o) w =
               Some (w', s', ([k], None)) /\
             Scanner.buffer s' = k :: ks.
Proof.
  intros Hc Hd Hf. destruct (Blusukan_fresh c o) as (o' & Hs & Ho).
  rewrite Hs in *. rewrite <- Ho in Hd.
  match type of Hf with
  | Scanner.fetch ?s _ = _ =>
      exists (Scanner.set_bufIdx (arrived s (k :: ks) 0) 1)
  end.
  unfold Scanner.All. cbn [Scanner.All_loop].
  rewrite (Next_final_page _ _ w w' k ks).
  - rewrite Next_latched by (left; reflexivity).
    split; [|reflexivity]. unfold arrived, drained, Scanner.Key, Scanner.Err.
    cbn [Scanner.bufIdx Scanner.buffer Scanner.set_bufIdx Scanner.set_buffer
         Scanner.set_cursor Scanner.set_done Scanner.err Z.eqb].
    destruct (Z.leb_spec 1 (Scanner.len (k :: ks))) as [_|Hlen];
      [reflexivity|]. unfold Scanner.len in Hlen. cbn [length] in Hlen. lia.
  - intros [?|?]; cbn in *; congruence.
  - exact Hc.
  - unfold Scanner.len. cbn. lia.
  - exact Hd.
  - exact Hf.
Qed.

(** [All] on an empty key space: no key, no error. *)
Lemma All_empty_keyspace (fuel : nat) (c : Client) (o : Scanner.ScanOptions)
    (w w' : W) :
  ctx_Err w = None ->
  Scanner.BatchDelay o <= 0 ->
  Scanner.fetch (Scanner.Blusukan c o) w = (w', Val ([], 0)) ->
  exists s', Scanner.All (S fuel) (Scanner.Blusukan c o) w =
               Some (w', s', ([], None)).
Proof.
  intros Hc Hd Hf. destruct (Blusukan_fresh c o) as (o' & Hs & Ho).
  rewrite Hs in *. rewrite <- Ho in Hd.
  eexists. unfold Scanner.All. cbn [Scanner.All_loop].
  rewrite Next_unfold. cbn [Scanner.done Scanner.err Scanner.is_err orb].
  rewrite Hc. unfold Scanner.len, Scanner.set_bufIdx, Scanner.set_buffer.
  cbn -[Scanner.fetch Scanner.Next Z.gtb].
  destruct (Z.gtb_spec (Scanner.BatchDelay o') 0); [lia|].
  cbn [andb]. rewrite Hf. reflexivity.
Qed.

End ScannerPages.

(** C5 (the code departs from it): [All] is to return the keys the paged
    scan enumerates, whatever the page hint.  On a store holding three keys
    the scan hands all three out in one page when the hint is 100, and
    [All] returns the first of them only: [Next] marks the scan done when
    the cursor comes back as 0 and from then on answers false before it
    looks at its buffer.  With hint 1 the same store yields all three
    keys. *)
Theorem All_returns_one_key_of_the_last_page :
  enumerate 3 (Scanner.Blusukan 1%N (Sample.scan_opts 100)) 0 Sample.store_abc
    = Some (Val ["c"; "a"; "b"]) /\
  option_map snd
    (Scanner.All 3 (Scanner.Blusukan 1%N (Sample.scan_opts 100))
       Sample.store_abc)
    = Some (["c"], None) /\
  enumerate 3 (Scanner.Blusukan 1%N (Sample.scan_opts 1)) 0 Sample.store_abc
    = Some (Val ["c"; "a"; "b"]) /\
  option_map snd
    (Scanner.All 5 (Scanner.Blusukan 1%N (Sample.scan_opts 1))
       Sample.store_abc)
    = Some (["c"; "a"; "b"], None).
Proof. repeat split; vm_compute; reflexivity. Qed.

(** ** Migrator *)

Lemma len_nil {A} : Migration.len (@nil A) = 0.
Proof. reflexivity. Qed.

Lemma len_cons {A} (x : A) (l : list A) :
  Migration.len (x :: l) = 1 + Migration.len l.
Proof. unfold Migration.len. cbn [length]. lia. Qed.

Lemma len_app {A} (l1 l2 : list A) :
  Migration.len (l1 ++ l2) = Migration.len l1 + Migration.len l2.
Proof. unfold Migration.len. rewrite length_app. lia. Qed.

Lemma len_nonneg {A} (l : list A) : 0 <= Migration.len l.
Proof. unfold Migration.len. lia. Qed.

Lemma len_slice {A} (keys : list A) (i j : Z) :
  0 <= i <= j -> j <= Migration.len keys ->
  Migration.len (Migration.slice keys i j) = j - i.
Proof.
  intros Hij Hj. unfold Migration.len, Migration.slice in *.
  rewrite length_take, length_drop. lia.
Qed.

Lemma In_slice {A} (keys : list A) (i j : Z) (x : A) :
  In x (Migration.slice keys i j) -> In x keys.
Proof.
  unfold Migration.slice. intros Hx. apply list_elem_of_In in Hx.
  apply list_elem_of_In.
  eapply elem_of_sublist; [|apply (sublist_drop keys (Z.to_nat i))].
  eapply elem_of_sublist; [exact Hx|apply sublist_take].
Qed.

Section MigrateCounts.
Context {W : Type} `{Rdb W}.
Variables (src dst : Client) (opts : Migration.MigrateOptions W).

(** The inner loop handles the keys of the batch one by one: each either
    adds one to [MigratedKeys] or adds one to [FailedKeys] and one entry,
    for that key, to [Errors]. *)
Lemma migrate_batch_counts (batch : list string) :
  forall (r r' : Migration.MigrateResult) (w w' : W) (e : option error),
    Migration.migrate_batch src dst opts batch r w = (w', r', e) ->
    Migration.TotalKeys r' = Migration.TotalKeys r /\
    Migration.MigratedKeys r <= Migration.MigratedKeys r' /\
    Migration.FailedKeys r <= Migration.FailedKeys r' /\
    processed r' <= processed r + Migration.len batch /\
    (e = None -> processed r' = processed r + Migration.len batch) /\
    (batch <> [] -> processed r < processed r') /\
    exists errs,
      Migration.Errors r' = Migration.Errors r ++ errs /\
      Migration.FailedKeys r' = Migration.FailedKeys r + Migration.len errs /\
      Forall (fun x => In (Migration.Key x) batch) errs.
Proof.
  induction batch as [|key batch IH]; intros r r' w w' e; cbn [Migration.migrate_batch].
  - intros [= _ <- <-]. rewrite len_nil. repeat split; try lia; try congruence.
    exists []. rewrite app_nil_r, len_nil. repeat split; try lia. constructor.
  - destruct (Migration.migrateKey src dst key opts w) as [w1 [e0|]].
    + assert (Hstep :
        forall w2, Migration.migrate_batch src dst opts batch
                     (Migration.record_failure r key e0) w2 = (w', r', e) ->
          Migration.TotalKeys r' = Migration.TotalKeys r /\
          Migration.MigratedKeys r <= Migration.MigratedKeys r' /\
          Migration.FailedKeys r <= Migration.FailedKeys r' /\
          processed r' <= processed r + Migration.len (key :: batch) /\
          (e = None -> processed r' = processed r + Migration.len (key :: batch)) /\
          (key :: batch <> [] -> processed r < processed r') /\
          exists errs,
            Migration.Errors r' = Migration.Errors r ++ errs /\
            Migration.FailedKeys r' = Migration.FailedKeys r + Migration.len errs /\
            Forall (fun x => In (Migration.Key x) (key :: batch)) errs).
      { intros w2 Hrec. apply IH in Hrec.
        destruct Hrec as (Ht & Hm & Hf & Hle & Heq & _ & errs & He & Hfe & Hin).
        unfold processed in *. cbn [Migration.record_failure Migration.TotalKeys
          Migration.MigratedKeys Migration.FailedKeys Migration.Errors] in *.
        rewrite len_cons. pose proof (len_nonneg batch).
        repeat split; try lia; try (intros He0; specialize (Heq He0); lia).
        exists ({| Migration.Key := key; Migration.Error := e0 |} :: errs).
        rewrite len_cons. rewrite He, <- app_assoc. repeat split; try lia.
        constructor; [left; reflexivity|].
        eapply Forall_impl; [exact Hin|]. intros x Hx. right. exact Hx. }
      destruct (Migration.OnError opts) as [onError|]; [|apply Hstep].
      destruct (onError key e0 w1) as [w2 [|]]; cbn [negb]; [apply Hstep|].
      intros [= _ <- <-]. unfold processed.
      cbn [Migration.record_failure Migration.TotalKeys
          Migration.MigratedKeys Migration.FailedKeys Migration.Errors].
      rewrite len_cons. pose proof (len_nonneg batch).
      repeat split; try lia; try congruence.
      exists [{| Migration.Key := key; Migration.Error := e0 |}].
      rewrite len_cons, len_nil. repeat split; try lia.
      constructor; [left; reflexivity|constructor].
    + intros Hrec. apply IH in Hrec.
      destruct Hrec as (Ht & Hm & Hf & Hle & Heq & _ & errs & He & Hfe & Hin).
      unfold processed in *. cbn [Migration.record_success Migration.TotalKeys
        Migration.MigratedKeys Migration.FailedKeys Migration.Errors] in *.
      rewrite len_cons. pose proof (len_nonneg batch).
      repeat split; try lia; try (intros He0; specialize (Heq He0); lia).
      exists errs. repeat split; try assumption.
      eapply Forall_impl; [exact Hin|]. intros x Hx. right. exact Hx.
Qed.

End MigrateCounts.

Lemma progress_values_snoc (B n : Z) (k : nat) :
  progress_values B n (S k) =
  progress_values B n k ++ [(Z.min ((Z.of_nat k + 1) * B) n, n)].
Proof. unfold progress_values. rewrite seq_S, map_app. reflexivity. Qed.

Lemma StronglySorted_snoc {A} (R : A -> A -> Prop) (l : list A) (x : A) :
  StronglySorted R l -> Forall (fun y => R y x) l ->
  StronglySorted R (l ++ [x]).
Proof.
  induction 1 as [|y l Hs IH Hy]; intros Hx; cbn.
  - constructor; constructor.
  - inversion Hx as [|? ? Hyx Hlx]; subst. constructor; [apply IH, Hlx|].
    apply Forall_app. split; [exact Hy|]. constructor; [exact Hyx|constructor].
Qed.

Section MigrateLoop.
Context {W : Type} `{Rdb W}.
Variables (src dst : Client) (opts : Migration.MigrateOptions W).
Variables (startTime : time_Time) (keys : list string).

Lemma migrate_batches_unfold (fuel : nat) (i : Z)
    (result : Migration.MigrateResult) (log : Migration.progress_log) (w : W) :
  Migration.migrate_batches fuel src dst opts startTime keys i result log w =
  if i <? Migration.len keys then
    match ctx_Err w with
    | Some e =>
        Some (w, log,
              Migration.set_Duration result (time_Now w - startTime), Some e)
    | None =>
        let end_ := i + Migration.BatchSize opts in
        let end_ :=
          if end_ >? Migration.len keys then Migration.len keys else end_ in
        let batch := Migration.slice keys i end_ in
        let '(w, result, abort) :=
          Migration.migrate_batch src dst opts batch result w in
        match abort with
        | Some e =>
            Some (w, log,
                  Migration.set_Duration result (time_Now w - startTime),
                  Some e)
        | None =>
            let done :=
              Migration.MigratedKeys result + Migration.FailedKeys result in
            let '(w, log) :=
              match Migration.OnProgress opts with
              | Some onProgress =>
                  (onProgress done (Migration.TotalKeys result) w,
                   log ++ [(done, Migration.TotalKeys result)])
              | None => (w, log)
              end in
            match fuel with
            | O => None
            | S fuel' =>
                Migration.migrate_batches fuel' src dst opts startTime keys
                  (i + Migration.BatchSize opts) result log w
            end
        end
    end
  else Some (w, log,
             Migration.set_Duration result (time_Now w - startTime), None).
Proof. destruct fuel; reflexivity. Qed.

Lemma loop_inv_set_Duration r log d :
  loop_inv opts keys r log ->
  loop_inv opts keys (Migration.set_Duration r d) log.
Proof. intros Hi. exact Hi. Qed.

Lemma migrate_batches_inv (fuel : nat) :
  forall (i : Z) (r r' : Migration.MigrateResult)
         (log log' : Migration.progress_log) (w w' : W) (e : option error),
    1 <= Migration.BatchSize opts ->
    0 <= i < Migration.len keys + Migration.BatchSize opts ->
    processed r = Z.min i (Migration.len keys) ->
    (Migration.OnProgress opts <> None ->
     i = Z.of_nat (length log) * Migration.BatchSize opts) ->
    loop_inv opts keys r log ->
    Migration.migrate_batches fuel src dst opts startTime keys i r log w
      = Some (w', log', r', e) ->
    loop_inv opts keys r' log' /\
      processed r' <= Migration.len keys /\
      (e = None ->
       processed r' = Migration.len keys /\
       (Migration.OnProgress opts <> None ->
        Migration.len keys
        <= Z.of_nat (length log') * Migration.BatchSize opts
        < Migration.len keys + Migration.BatchSize opts)).
Proof.
  induction fuel as [|fuel IH]; intros i r r' log log' w w' e HB Hi Hp Hlen Hinv;
    rewrite migrate_batches_unfold;
    (destruct (Z.ltb_spec i (Migration.len keys)) as [Hlt|Hge];
     [|intros [= _ <- <- <-]; 
       split; [apply loop_inv_set_Duration, Hinv|];
       change (processed (Migration.set_Duration r (time_Now w - startTime)))
         with (processed r); split; [lia|]; intros _; split; [lia|];
       intros Ho; specialize (Hlen Ho); lia]);
    (destruct (ctx_Err w) as [ce|];
     [intros [= _ <- <- <-]; 
      split; [apply loop_inv_set_Duration, Hinv|];
      change (processed (Migration.set_Duration r (time_Now w - startTime)))
        with (processed r); split; [lia|discriminate]|]);
    cbv zeta;
    set (end_ := if i + Migration.BatchSize opts >? Migration.len keys
                 then Migration.len keys else i + Migration.BatchSize opts);
    assert (Hend : end_ = Z.min (i + Migration.BatchSize opts) (Migration.len keys))
      by (subst end_; destruct (Z.gtb_spec (i + Migration.BatchSize opts)
                                  (Migration.len keys)); lia);
    assert (Hbl : Migration.len (Migration.slice keys i end_) = end_ - i)
      by (apply len_slice; lia);
    destruct (Migration.migrate_batch src dst opts
                (Migration.slice keys i end_) r w) as [[w1 r1] abort] eqn:Hb;
    apply migrate_batch_counts in Hb;
    destruct Hb as (Ht & Hm & Hf & Hle & Heq & Hne & errs & He & Hfe & _);
    destruct Hinv as (It & Im & If & Ie & Is & Ia & Io);
    assert (Hnonempty : Migration.slice keys i end_ <> [])
      by (intros Hnil; rewrite Hnil, len_nil in Hbl; lia);
    specialize (Hne Hnonempty);
    assert (Hinv1 : loop_inv opts keys r1 log)
      by (unfold loop_inv; repeat split; try lia;
          [rewrite He, len_app; lia | exact Is
          | eapply Forall_impl; [exact Ia|]; cbn beta; intros p Hpp; lia
          | exact Io]);
    (destruct abort as [ae|];
     [intros [= _ <- <- <-]; 
      split; [apply loop_inv_set_Duration, Hinv1|];
      change (processed (Migration.set_Duration r1 (time_Now w1 - startTime)))
        with (processed r1); split; [lia|discriminate]|]);
    specialize (Heq eq_refl).
  - destruct (Migration.OnProgress opts); discriminate.
  - intros Hrec.
    assert (Hp1 : processed r1 =
                  Z.min (i + Migration.BatchSize opts) (Migration.len keys))
      by lia.
    destruct (Migration.OnProgress opts) as [onProgress|] eqn:Hop.
    + eapply IH in Hrec; try eassumption; try lia.
      * rewrite length_app. cbn [length]. intros _.
        specialize (Hlen ltac:(discriminate)). lia.
      * unfold loop_inv. rewrite Hop. repeat split; try lia.
        -- rewrite He, len_app. lia.
        -- rewrite map_app. apply StronglySorted_snoc; [exact Is|].
           apply Forall_map. eapply Forall_impl; [exact Ia|].
           cbn. intros p Hpp. change (Migration.MigratedKeys r1 +
             Migration.FailedKeys r1) with (processed r1). lia.
        -- apply Forall_app. split.
           ++ eapply Forall_impl; [exact Ia|]. cbn beta. intros p Hpp. lia.
           ++ constructor; [|constructor]. cbn [fst snd].
              change (Migration.MigratedKeys r1 + Migration.FailedKeys r1)
                with (processed r1). lia.
        -- rewrite length_app. cbn [length].
           rewrite Nat.add_1_r, progress_values_snoc, <- Io.
           f_equal. f_equal. rewrite Ht, It.
           change (Migration.MigratedKeys r1 + Migration.FailedKeys r1)
             with (processed r1).
           specialize (Hlen ltac:(discriminate)). f_equal. lia.
    + eapply IH in Hrec; try eassumption; try lia.
      intros Hc. congruence.
Qed.

End MigrateLoop.

Section MigrateErrors.
Context {W : Type} `{Rdb W}.
Variables (src dst : Client) (opts : Migration.MigrateOptions W).

(** The batch loop never runs out of fuel when given one unit per key. *)
Lemma migrate_batches_returns (startTime : time_Time) (keys : list string)
    (fuel : nat) :
  forall (i : Z) (r : Migration.MigrateResult) (log : Migration.progress_log)
         (w : W),
    1 <= Migration.BatchSize opts ->
    Migration.len keys - i <= Z.of_nat fuel ->
    exists out,
      Migration.migrate_batches fuel src dst opts startTime keys i r log w
        = Some out.
Proof.
  induction fuel as [|fuel IH]; intros i r log w HB Hf;
    rewrite migrate_batches_unfold;
    (destruct (Z.ltb_spec i (Migration.len keys)); [|eexists; reflexivity]);
    (destruct (ctx_Err w); [eexists; reflexivity|]); cbv zeta;
    destruct (Migration.migrate_batch _ _ _ _ _ _) as [[w1 r1] [ae|]];
    try (eexists; reflexivity).
  - lia.
  - destruct (Migration.OnProgress opts); apply IH; lia.
Qed.

(** A failed key whose handler is absent or answers true is recorded and
    the loop goes on with the next key. *)
Lemma migrate_batch_records_failure (key : string) (batch : list string)
    (r : Migration.MigrateResult) (w w1 : W) (e0 : error) :
  Migration.migrateKey src dst key opts w = (w1, Some e0) ->
  (Migration.OnError opts = None ->
   Migration.migrate_batch src dst opts (key :: batch) r w =
   Migration.migrate_batch src dst opts batch
     (Migration.record_failure r key e0) w1) /\
  (forall onError w2,
     Migration.OnError opts = Some onError ->
     onError key e0 w1 = (w2, true) ->
     Migration.migrate_batch src dst opts (key :: batch) r w =
     Migration.migrate_batch src dst opts batch
       (Migration.record_failure r key e0) w2).
Proof.
  intros Hk. split.
  - intros Ho. cbn [Migration.migrate_batch]. rewrite Hk, Ho. reflexivity.
  - intros onError w2 Ho Hc. cbn [Migration.migrate_batch].
    rewrite Hk, Ho, Hc. reflexivity.
Qed.

(** The inner loop stops with an error only when [OnError] answered false
    for a key that had just failed; the error names that key, the failure
    is the last entry of [Errors], and the world is the one the handler
    left. *)
Lemma migrate_batch_abort (batch : list string) :
  forall (r r' : Migration.MigrateResult) (w w' : W) (e : error),
    Migration.migrate_batch src dst opts batch r w = (w', r', Some e) ->
    exists key e0 onError w0 w1 errs,
      In key batch /\
      Migration.migrateKey src dst key opts w0 = (w1, Some e0) /\
      Migration.OnError opts = Some onError /\
      onError key e0 w1 = (w', false) /\
      e = ErrWrap ("migration aborted at key " +:+ key) e0 /\
      Migration.Errors r' =
        errs ++ [{| Migration.Key := key; Migration.Error := e0 |}].
Proof.
  induction batch as [|key batch IH]; intros r r' w w' e;
    cbn [Migration.migrate_batch]; [discriminate|].
  assert (Hrec : forall r0 w0,
            Migration.migrate_batch src dst opts batch r0 w0 = (w', r', Some e) ->
            exists key0 e0 onError w0 w1 errs,
              In key0 (key :: batch) /\
              Migration.migrateKey src dst key0 opts w0 = (w1, Some e0) /\
              Migration.OnError opts = Some onError /\
              onError key0 e0 w1 = (w', false) /\
              e = ErrWrap ("migration aborted at key " +:+ key0) e0 /\
              Migration.Errors r' =
                errs ++ [{| Migration.Key := key0; Migration.Error := e0 |}]).
  { intros r0 w0 Hr. apply IH in Hr.
    destruct Hr as (k0 & e0 & f & wa & wb & errs & Hin & Hr).
    exists k0, e0, f, wa, wb, errs. split; [right; exact Hin|exact Hr]. }
  destruct (Migration.migrateKey src dst key opts w) as [w1 [e0|]] eqn:Hk;
    [|apply Hrec].
  destruct (Migration.OnError opts) as [onError|] eqn:Ho; [|apply Hrec].
  destruct (onError key e0 w1) as [w2 [|]] eqn:Hc; cbn [negb]; [apply Hrec|].
  intros [= <- <- <-].
  exists key, e0, onError, w, w1, (Migration.Errors r).
  repeat split; try assumption; try reflexivity. left. reflexivity.
Qed.

(** The outer loop stops with an error only at a batch boundary where the
    context is done, whole batches having been handled so far, or when the
    inner loop was aborted. *)
Lemma migrate_batches_error (startTime : time_Time) (keys : list string)
    (fuel : nat) :
  forall (i : Z) (r r' : Migration.MigrateResult)
         (log log' : Migration.progress_log) (w w' : W) (e : error),
    1 <= Migration.BatchSize opts ->
    (exists k, i = Z.of_nat k * Migration.BatchSize opts) ->
    processed r = Z.min i (Migration.len keys) ->
    Migration.migrate_batches fuel src dst opts startTime keys i r log w
      = Some (w', log', r', Some e) ->
    (ctx_Err w' = Some e /\
     exists k, processed r' = Z.of_nat k * Migration.BatchSize opts) \/
    exists key e0 onError w0 w1 errs,
      In key keys /\
      Migration.migrateKey src dst key opts w0 = (w1, Some e0) /\
      Migration.OnError opts = Some onError /\
      onError key e0 w1 = (w', false) /\
      e = ErrWrap ("migration aborted at key " +:+ key) e0 /\
      Migration.Errors r' =
        errs ++ [{| Migration.Key := key; Migration.Error := e0 |}].
Proof.
  induction fuel as [|fuel IH]; intros i r r' log log' w w' e HB [k Hk] Hp;
    rewrite migrate_batches_unfold;
    (destruct (Z.ltb_spec i (Migration.len keys)) as [Hlt|Hge];
     [|discriminate]);
    (destruct (ctx_Err w) as [ce|] eqn:Hc;
     [intros [= <- _ <- <-]; left; split; [exact Hc|]; exists k;
      change (processed (Migration.set_Duration r (time_Now w - startTime)))
        with (processed r); lia|]); cbv zeta;
    set (end_ := if i + Migration.BatchSize opts >? Migration.len keys
                 then Migration.len keys else i + Migration.BatchSize opts);
    assert (Hend : end_ = Z.min (i + Migration.BatchSize opts) (Migration.len keys))
      by (subst end_; destruct (Z.gtb_spec (i + Migration.BatchSize opts)
                                  (Migration.len keys)); lia);
    assert (Hbl : Migration.len (Migration.slice keys i end_) = end_ - i)
      by (apply len_slice; lia);
    (destruct (Migration.migrate_batch _ _ _ _ _ _) as [[w1 r1] [ae|]] eqn:Hb;
     [intros [= <- _ <- <-]; right; apply migrate_batch_abort in Hb;
      destruct Hb as (k0 & e0 & f & wa & wb & errs & Hin & Hb);
      exists k0, e0, f, wa, wb, errs;
      split; [eapply In_slice; exact Hin|exact Hb]|]);
    apply migrate_batch_counts in Hb;
    destruct Hb as (_ & _ & _ & _ & Heq & _); specialize (Heq eq_refl).
  - destruct (Migration.OnProgress opts); discriminate.
  - destruct (Migration.OnProgress opts); apply IH; try assumption;
      try (exists (S k); lia); lia.
Qed.

(** The inner loop over two stretches of keys is the loop over the first
    followed, unless it was aborted, by the loop over the second: the
    counters and the world between any two keys are those of a shorter
    run. *)
Lemma migrate_batch_app (b1 b2 : list string) :
  forall (r : Migration.MigrateResult) (w : W),
    Migration.migrate_batch src dst opts (b1 ++ b2) r w =
    let '(w1, r1, e) := Migration.migrate_batch src dst opts b1 r w in
    match e with
    | Some _ => (w1, r1, e)
    | None => Migration.migrate_batch src dst opts b2 r1 w1
    end.
Proof.
  induction b1 as [|key b1 IH]; intros r w; [reflexivity|].
  cbn [app Migration.migrate_batch].
  destruct (Migration.migrateKey src dst key opts w) as [w1 [e0|]];
    [|apply IH].
  destruct (Migration.OnError opts) as [onError|]; [|apply IH].
  destruct (onError key e0 w1) as [w2 [|]]; cbn [negb]; [apply IH|reflexivity].
Qed.

End MigrateErrors.

Section MigrateFootprint.
Context {W : Type} `{Rdb W}.
Variables (src dst : Client) (opts : Migration.MigrateOptions W).
Variable P : W -> Prop.
Hypothesis HP : survives_migration src dst opts P.

Lemma survives_with_defaults :
  survives_migration src dst (Migration.with_defaults opts) P.
Proof. exact HP. Qed.

Lemma scanAllKeys_loop_survives (fuel : nat) :
  forall pattern cursor keys (w w' : W) r,
    Migration.scanAllKeys_loop fuel src pattern cursor keys w = Some (w', r) ->
    P w -> P w'.
Proof.
  destruct HP as (Hscan & _).
  induction fuel as [|fuel IH]; intros pattern cursor keys w w' r;
    cbn [Migration.scanAllKeys_loop];
    pose proof (Hscan cursor pattern 100 w) as Hs;
    destruct (rdb_Scan src cursor pattern 100 w) as [w1 [[batch cur]|e]];
    cbn [fst] in Hs;
    try (intros [= <- _]; exact Hs);
    (destruct (cur =? 0); [intros [= <- _]; exact Hs|]).
  - discriminate.
  - intros Hr Hw. eapply IH; [exact Hr|]. apply Hs, Hw.
Qed.

Lemma migrateKey_survives (key : string) (w : W) :
  P w -> P (fst (Migration.migrateKey src dst key opts w)).
Proof.
  destruct HP as (_ & Hget & Httl & Hset & _).
  intros Hw. unfold Migration.migrateKey.
  pose proof (Hget key w Hw) as Hg.
  destruct (rdb_Get src key w) as [w1 [data|e]]; cbn [fst] in Hg; [|exact Hg].
  destruct (Migration.PreserveTTL opts).
  - pose proof (Httl key w1 Hg) as Ht.
    destruct (rdb_TTL src key w1) as [w2 [ttl|e]]; cbn [fst] in Ht; [|exact Ht].
    pose proof (Hset key data (if ttl <? 0 then 0 else ttl) w2 Ht) as Hs.
    destruct (rdb_Set dst key data _ w2) as [w3 [u|e]]; exact Hs.
  - destruct (Migration.TTL opts >? 0).
    + pose proof (Hset key data (Migration.TTL opts) w1 Hg) as Hs.
      destruct (rdb_Set dst key data _ w1) as [w3 [u|e]]; exact Hs.
    + pose proof (Hset key data 0 w1 Hg) as Hs.
      destruct (rdb_Set dst key data _ w1) as [w3 [u|e]]; exact Hs.
Qed.

Lemma migrate_batch_survives (batch : list string) :
  forall (r r' : Migration.MigrateResult) (w w' : W) e,
    Migration.migrate_batch src dst opts batch r w = (w', r', e) ->
    P w -> P w'.
Proof.
  destruct HP as (_ & _ & _ & _ & Herr & _).
  induction batch as [|key batch IH]; intros r r' w w' e;
    cbn [Migration.migrate_batch]; [intros [= <- _ _]; auto|].
  intros Hb Hw. pose proof (migrateKey_survives key w Hw) as Hk.
  destruct (Migration.migrateKey src dst key opts w) as [w1 [e0|]];
    cbn [fst] in Hk; [|eapply IH; eassumption].
  destruct (Migration.OnError opts) as [onError|] eqn:Ho;
    [|eapply IH; eassumption].
  pose proof (Herr onError key e0 w1 eq_refl Hk) as He.
  destruct (onError key e0 w1) as [w2 [|]]; cbn [negb fst] in *.
  - eapply IH; eassumption.
  - injection Hb as <- _ _. exact He.
Qed.

Lemma migrate_batches_survives (startTime : time_Time) (keys : list string)
    (fuel : nat) :
  forall (i : Z) (r r' : Migration.MigrateResult)
         (log log' : Migration.progress_log) (w w' : W) e,
    Migration.migrate_batches fuel src dst opts startTime keys i r log w
      = Some (w', log', r', e) ->
    P w -> P w'.
Proof.
  pose proof HP as (_ & _ & _ & _ & _ & Hprog).
  induction fuel as [|fuel IH]; intros i r r' log log' w w' e;
    rewrite migrate_batches_unfold;
    (destruct (i <? Migration.len keys); [|intros [= <- _ _ _]; auto]);
    (destruct (ctx_Err w); [intros [= <- _ _ _]; auto|]); cbv zeta;
    (destruct (Migration.migrate_batch _ _ _ _ _ _) as [[w1 r1] [ae|]] eqn:Hb;
     [intros [= <- _ _ _] Hw; eapply migrate_batch_survives; eassumption|]).
  - destruct (Migration.OnProgress opts); discriminate.
  - intros Hrec Hw.
    pose proof (migrate_batch_survives _ _ _ _ _ _ Hb Hw) as Hw1.
    destruct (Migration.OnProgress opts) as [onProgress|] eqn:Ho.
    + eapply IH; [exact Hrec|]. apply (Hprog onProgress); [reflexivity|exact Hw1].
    + eapply IH; eassumption.
Qed.

End MigrateFootprint.

Section MigrateRun.
Context {W : Type} `{Rdb W}.
Variables (src dst : Client) (opts : Migration.MigrateOptions W).

Lemma with_defaults_BatchSize :
  1 <= Migration.BatchSize (Migration.with_defaults opts).
Proof.
  cbn [Migration.with_defaults Migration.BatchSize].
  destruct (Z.leb_spec (Migration.BatchSize opts) 0); lia.
Qed.

(** [Migrate] split along its three exits: the enumeration failed, the run
    was a dry run, or the batch loop ran; the loop always returns. *)
Lemma Migrate_run (fuel : nat) (w w1 : W) (sr : reply (list string)) :
  Migration.scanAllKeys fuel src
    (Migration.Pattern (Migration.with_defaults opts)) w = Some (w1, sr) ->
  match sr with
  | Fail e0 =>
      Migration.Migrate fuel src dst opts w =
        Some (w1, [], None, Some (ErrWrap "failed to scan keys" e0))
  | Val keys =>
      let r0 := Migration.set_TotalKeys Migration.zero_result
                  (Migration.len keys) in
      if Migration.DryRun opts
      then Migration.Migrate fuel src dst opts w =
             Some (w1, [],
                   Some (Migration.set_Duration r0 (time_Now w1 - time_Now w)),
                   None)
      else exists w' log r e,
             Migration.migrate_batches (length keys) src dst
               (Migration.with_defaults opts) (time_Now w) keys 0 r0 [] w1
               = Some (w', log, r, e) /\
             Migration.Migrate fuel src dst opts w = Some (w', log, Some r, e)
  end.
Proof.
  intros Hs. unfold Migration.Migrate. rewrite Hs.
  destruct sr as [keys|e0]; [|reflexivity]. cbv zeta.
  change (Migration.DryRun (Migration.with_defaults opts))
    with (Migration.DryRun opts).
  destruct (Migration.DryRun opts); [reflexivity|].
  destruct (migrate_batches_returns src dst (Migration.with_defaults opts)
              (time_Now w) keys (length keys) 0
              (Migration.set_TotalKeys Migration.zero_result (Migration.len keys))
              [] w1 with_defaults_BatchSize) as [[[[w' log] r] e] Hrun].
  { unfold Migration.len. lia. }
  exists w', log, r, e. rewrite Hrun. split; reflexivity.
Qed.

Lemma loop_inv_start (keys : list string) :
  loop_inv (Migration.with_defaults opts) keys
    (Migration.set_TotalKeys Migration.zero_result (Migration.len keys)) [].
Proof.
  unfold loop_inv. cbn. repeat split; try lia; try constructor.
  destruct (Migration.OnProgress opts); reflexivity.
Qed.

Lemma loop_start_facts (keys : list string) :
  0 <= 0 < Migration.len keys
           + Migration.BatchSize (Migration.with_defaults opts) /\
  processed (Migration.set_TotalKeys Migration.zero_result
               (Migration.len keys)) = Z.min 0 (Migration.len keys).
Proof.
  pose proof (len_nonneg keys). pose proof with_defaults_BatchSize.
  split; [lia|]. unfold processed.
  cbn [Migration.set_TotalKeys Migration.zero_result Migration.MigratedKeys
       Migration.FailedKeys]. lia.
Qed.

End MigrateRun.

Section MigrateSteps.
Context {W : Type} `{Rdb W}.
Variables (src dst : Client) (opts : Migration.MigrateOptions W).
Variables (startTime : time_Time) (keys : list string).

Let run := Migration.steps src dst opts startTime keys.
Let step := Migration.step src dst opts startTime keys.

Lemma steps_first (n : nat) (st : Migration.state W) :
  run (S n) st = run n (step st).
Proof. unfold run, step, Migration.steps. apply Nat.iter_succ_r. Qed.

Lemma steps_one (st : Migration.state W) : run 1 st = step st.
Proof. reflexivity. Qed.

Lemma steps_trans (n m : nat) (st st1 st2 : Migration.state W) :
  run n st = st1 -> run m st1 = st2 -> run (n + m) st = st2.
Proof.
  intros <- <-. unfold run, Migration.steps. rewrite Nat.add_comm.
  apply Nat.iter_add.
Qed.

(** The inner loop is a run of the machine through the keys of the
    batch. *)
Lemma migrate_batch_steps (i : Z) (batch : list string) :
  forall (r : Migration.MigrateResult) (w : W),
    exists n,
      run n {| Migration.pos := Migration.at_key i batch;
               Migration.res := r; Migration.world := w |} =
      let '(w', r', abort) := Migration.migrate_batch src dst opts batch r w in
      match abort with
      | None =>
          {| Migration.pos := Migration.at_key i [];
             Migration.res := r'; Migration.world := w' |}
      | Some e =>
          {| Migration.pos := Migration.returned (Some e);
             Migration.res :=
               Migration.set_Duration r' (time_Now w' - startTime);
             Migration.world := w' |}
      end.
Proof.
  induction batch as [|key batch IH]; intros r w.
  - exists O. reflexivity.
  - cbn [Migration.migrate_batch].
    assert (Hgo : forall r1 w1,
              step {| Migration.pos := Migration.at_key i (key :: batch);
                      Migration.res := r; Migration.world := w |}
              = {| Migration.pos := Migration.at_key i batch;
                   Migration.res := r1; Migration.world := w1 |} ->
              exists n,
                run n {| Migration.pos := Migration.at_key i (key :: batch);
                         Migration.res := r; Migration.world := w |} =
                let '(w', r', abort) :=
                  Migration.migrate_batch src dst opts batch r1 w1 in
                match abort with
                | None =>
                    {| Migration.pos := Migration.at_key i [];
                       Migration.res := r'; Migration.world := w' |}
                | Some e =>
                    {| Migration.pos := Migration.returned (Some e);
                       Migration.res :=
                         Migration.set_Duration r' (time_Now w' - startTime);
                       Migration.world := w' |}
                end).
    { intros r1 w1 Hs. destruct (IH r1 w1) as [n Hn]. exists (S n).
      rewrite steps_first, Hs. exact Hn. }
    unfold step, Migration.step in Hgo.
    cbn [Migration.pos Migration.res Migration.world] in Hgo.
    destruct (Migration.migrateKey src dst key opts w) as [w1 [e0|]] eqn:Hk;
      [|apply Hgo; reflexivity].
    destruct (Migration.OnError opts) as [onError|] eqn:Ho;
      [|apply Hgo; reflexivity].
    destruct (onError key e0 w1) as [w2 [|]] eqn:Hc; cbn [negb] in *;
      [apply Hgo; reflexivity|].
    exists 1%nat. rewrite steps_one. unfold step, Migration.step.
    cbn [Migration.pos Migration.res Migration.world].
    rewrite Hk, Ho, Hc. reflexivity.
Qed.

(** The outer loop is a run of the machine from the head of the loop to
    the return. *)
Lemma migrate_batches_steps (fuel : nat) :
  forall (i : Z) (r r' : Migration.MigrateResult)
         (log log' : Migration.progress_log) (w w' : W) (e : option error),
    Migration.migrate_batches fuel src dst opts startTime keys i r log w
      = Some (w', log', r', e) ->
    exists n,
      run n {| Migration.pos := Migration.at_batch i;
               Migration.res := r; Migration.world := w |} =
      {| Migration.pos := Migration.returned e;
         Migration.res := r'; Migration.world := w' |}.
Proof.
  induction fuel as [|fuel IH]; intros i r r' log log' w w' e;
    rewrite migrate_batches_unfold;
    (destruct (i <? Migration.len keys) eqn:Hi;
     [|intros [= <- _ <- <-]; exists 1%nat; rewrite steps_one;
       unfold step, Migration.step;
       cbn [Migration.pos Migration.res Migration.world];
       rewrite Hi; reflexivity]);
    (destruct (ctx_Err w) as [ce|] eqn:Hc;
     [intros [= <- _ <- <-]; exists 1%nat; rewrite steps_one;
      unfold step, Migration.step;
      cbn [Migration.pos Migration.res Migration.world];
      rewrite Hi, Hc; reflexivity|]);
    cbv zeta;
    set (end_ := if i + Migration.BatchSize opts >? Migration.len keys
                 then Migration.len keys else i + Migration.BatchSize opts);
    assert (Hfirst :
      step {| Migration.pos := Migration.at_batch i;
              Migration.res := r; Migration.world := w |}
      = {| Migration.pos := Migration.at_key i (Migration.slice keys i end_);
           Migration.res := r; Migration.world := w |})
      by (unfold step, Migration.step;
          cbn [Migration.pos Migration.res Migration.world];
          rewrite Hi, Hc; reflexivity);
    destruct (migrate_batch_steps i (Migration.slice keys i end_) r w)
      as [n1 Hn1];
    destruct (Migration.migrate_batch src dst opts
                (Migration.slice keys i end_) r w) as [[w1 r1] [ae|]];
    try (intros [= <- _ <- <-]; exists (S n1);
         rewrite steps_first, Hfirst; exact Hn1).
  - destruct (Migration.OnProgress opts); discriminate.
  - intros Hrec.
    assert (Hlast : exists w2 log2,
              (match Migration.OnProgress opts with
               | Some onProgress =>
                   (onProgress
                      (Migration.MigratedKeys r1 + Migration.FailedKeys r1)
                      (Migration.TotalKeys r1) w1,
                    log ++ [(Migration.MigratedKeys r1
                             + Migration.FailedKeys r1,
                             Migration.TotalKeys r1)])
               | None => (w1, log)
               end) = (w2, log2) /\
              step {| Migration.pos := Migration.at_key i [];
                      Migration.res := r1; Migration.world := w1 |}
              = {| Migration.pos :=
                     Migration.at_batch (i + Migration.BatchSize opts);
                   Migration.res := r1; Migration.world := w2 |}).
    { unfold step, Migration.step.
      cbn [Migration.pos Migration.res Migration.world].
      destruct (Migration.OnProgress opts); eexists _, _; split; reflexivity. }
    destruct Hlast as (w2 & log2 & Hp & Hlast). rewrite Hp in Hrec.
    apply IH in Hrec. destruct Hrec as [n2 Hn2].
    exists (S n1 + S n2)%nat.
    eapply steps_trans; [rewrite steps_first, Hfirst; exact Hn1|].
    rewrite steps_first, Hlast. exact Hn2.
Qed.

(** The counters are bounded at every point. *)
Lemma step_inv (st : Migration.state W) :
  1 <= Migration.BatchSize opts ->
  point_inv (Migration.BatchSize opts) keys st ->
  point_inv (Migration.BatchSize opts) keys (step st).
Proof.
  intros HB. destruct st as [p r w]. unfold point_inv, step, Migration.step.
  cbn [Migration.pos Migration.res Migration.world].
  intros (Ht & Hm & Hf & He & Hp). pose proof (len_nonneg keys) as Hn.
  destruct p as [i|i [|key pending]|e]; cbv beta iota in Hp |- *.
  - destruct (Z.ltb_spec i (Migration.len keys)) as [Hlt|Hge].
    + destruct (ctx_Err w) as [ce|];
        cbn [Migration.pos Migration.res Migration.world].
      * change (processed (Migration.set_Duration r (time_Now w - startTime)))
          with (processed r).
        repeat split; try assumption; try lia. discriminate.
      * repeat split; try assumption; try lia.
        rewrite len_slice;
          destruct (Z.gtb_spec (i + Migration.BatchSize opts)
                      (Migration.len keys)); lia.
    + cbn [Migration.pos Migration.res Migration.world].
      change (processed (Migration.set_Duration r (time_Now w - startTime)))
        with (processed r).
      repeat split; try assumption; lia.
  - cbn [Migration.pos Migration.res Migration.world].
    change (Migration.len (@nil string)) with 0 in Hp.
    repeat split; try assumption; lia.
  - rewrite len_cons in Hp. pose proof (len_nonneg pending).
    assert (Hfail : forall e0 p',
              (match p' with
               | Migration.at_key i' pending' => i' = i /\ pending' = pending
               | Migration.returned e' => e' <> None
               | Migration.at_batch _ => False
               end) ->
              forall d (w' : W),
              point_inv (Migration.BatchSize opts) keys
                {| Migration.pos := p';
                   Migration.res :=
                     Migration.set_Duration
                       (Migration.record_failure r key e0) d;
                   Migration.world := w' |}).
    { intros e0 p' Hp' d w'. unfold point_inv, processed in *.
      cbn [Migration.pos Migration.res Migration.world Migration.set_Duration
           Migration.record_failure Migration.TotalKeys Migration.MigratedKeys
           Migration.FailedKeys Migration.Errors].
      unfold Migration.len in *. rewrite length_app. cbn [length].
      repeat split; try assumption; try lia.
      destruct p' as [| i' pending'|e']; [contradiction| |].
      - destruct Hp' as [-> ->]. lia.
      - split; [lia|]. intros ->. contradiction. }
    destruct (Migration.migrateKey src dst key opts w) as [w1 [e0|]].
    + destruct (Migration.OnError opts) as [onError|].
      * destruct (onError key e0 w1) as [w2 [|]]; cbn [negb].
        -- apply (Hfail e0 (Migration.at_key i pending) (conj eq_refl eq_refl)
                    (Migration.Duration r) w2).
        -- apply (Hfail e0 (Migration.returned _)); discriminate.
      * apply (Hfail e0 (Migration.at_key i pending) (conj eq_refl eq_refl)
                 (Migration.Duration r) w1).
    + unfold processed in *.
      cbn [Migration.pos Migration.res Migration.world Migration.record_success
           Migration.TotalKeys Migration.MigratedKeys Migration.FailedKeys
           Migration.Errors].
      repeat split; try assumption; lia.
  - cbn [Migration.pos Migration.res Migration.world].
    repeat split; try assumption; apply Hp.
Qed.

Lemma steps_inv (n : nat) (st : Migration.state W) :
  1 <= Migration.BatchSize opts ->
  point_inv (Migration.BatchSize opts) keys st ->
  point_inv (Migration.BatchSize opts) keys (run n st).
Proof.
  intros HB Hst. induction n as [|n IH]; [exact Hst|].
  change (run (S n) st) with (step (run n st)). apply step_inv; assumption.
Qed.

Lemma start_inv (w : W) :
  point_inv (Migration.BatchSize opts) keys (Migration.start keys w).
Proof.
  unfold point_inv, Migration.start, processed.
  pose proof (len_nonneg keys). cbn. repeat split; lia.
Qed.

Lemma point_inv_bound (st : Migration.state W) :
  point_inv (Migration.BatchSize opts) keys st ->
  Migration.TotalKeys (Migration.res st) = Migration.len keys /\
  0 <= Migration.MigratedKeys (Migration.res st) /\
  0 <= Migration.FailedKeys (Migration.res st) /\
  Migration.MigratedKeys (Migration.res st)
  + Migration.FailedKeys (Migration.res st)
  <= Migration.TotalKeys (Migration.res st).
Proof.
  unfold point_inv, processed. intros (Ht & Hm & Hf & _ & Hp).
  repeat split; try assumption. rewrite Ht.
  destruct (Migration.pos st) as [i|i pending|e].
  - lia.
  - pose proof (len_nonneg pending). lia.
  - lia.
Qed.

(** What handling one key does to the result and to where the run
    stands. *)
Lemma step_key (i : Z) (key : string) (pending : list string)
    (st : Migration.state W) :
  Migration.pos st = Migration.at_key i (key :: pending) ->
  let r := Migration.res st in
  let st' := step st in
  let w2 := fst (Migration.migrateKey src dst key opts (Migration.world st)) in
  match snd (Migration.migrateKey src dst key opts (Migration.world st)) with
  | None =>
      Migration.pos st' = Migration.at_key i pending /\
      Migration.world st' = w2 /\
      Migration.MigratedKeys (Migration.res st') = Migration.MigratedKeys r + 1 /\
      Migration.FailedKeys (Migration.res st') = Migration.FailedKeys r /\
      Migration.Errors (Migration.res st') = Migration.Errors r
  | Some e =>
      Migration.FailedKeys (Migration.res st') = Migration.FailedKeys r + 1 /\
      Migration.Errors (Migration.res st') =
        Migration.Errors r ++ [{| Migration.Key := key; Migration.Error := e |}] /\
      Migration.MigratedKeys (Migration.res st') = Migration.MigratedKeys r /\
      match Migration.OnError opts with
      | None =>
          Migration.pos st' = Migration.at_key i pending /\
          Migration.world st' = w2
      | Some onError =>
          Migration.world st' = fst (onError key e w2) /\
          Migration.pos st' =
            if snd (onError key e w2) then Migration.at_key i pending
            else Migration.returned
                   (Some (ErrWrap ("migration aborted at key " +:+ key) e))
      end
  end.
Proof.
  destruct st as [p r w]. cbn [Migration.pos Migration.res Migration.world].
  intros ->. cbv zeta. unfold step, Migration.step.
  cbn [Migration.pos Migration.res Migration.world].
  destruct (Migration.migrateKey src dst key opts w) as [w1 [e0|]];
    cbn [fst snd].
  - destruct (Migration.OnError opts) as [onError|].
    + destruct (onError key e0 w1) as [w2 [|]]; cbn [negb fst snd];
        repeat split.
    + repeat split.
  - repeat split.
Qed.

(** What the step after a batch does: the progress report. *)
Lemma step_progress (i : Z) (st : Migration.state W) :
  Migration.pos st = Migration.at_key i [] ->
  Migration.pos (step st) = Migration.at_batch (i + Migration.BatchSize opts) /\
  Migration.res (step st) = Migration.res st /\
  Migration.world (step st) =
    match Migration.OnProgress opts with
    | Some onProgress =>
        onProgress
          (Migration.MigratedKeys (Migration.res st)
           + Migration.FailedKeys (Migration.res st))
          (Migration.TotalKeys (Migration.res st)) (Migration.world st)
    | None => Migration.world st
    end.
Proof.
  destruct st as [p r w]. cbn [Migration.pos Migration.res Migration.world].
  intros ->. repeat split.
Qed.

End MigrateSteps.

Section MigrateSeen.
Context {W : Type} `{Rdb W}.
Variables (src dst : Client) (opts : Migration.MigrateOptions W).
Variable seen : W -> list (Z * Z).
Hypothesis Hseen : notes_progress src dst opts seen.

Lemma scanAllKeys_loop_seen (fuel : nat) :
  forall pattern cursor keys (w w' : W) r,
    Migration.scanAllKeys_loop fuel src pattern cursor keys w = Some (w', r) ->
    seen w' = seen w.
Proof.
  destruct Hseen as (Hscan & _).
  induction fuel as [|fuel IH]; intros pattern cursor keys w w' r;
    cbn [Migration.scanAllKeys_loop];
    pose proof (Hscan cursor pattern 100 w) as Hs;
    destruct (rdb_Scan src cursor pattern 100 w) as [w1 [[batch cur]|e]];
    cbn [fst] in Hs;
    try (intros [= <- _]; exact Hs);
    (destruct (cur =? 0); [intros [= <- _]; exact Hs|]).
  - discriminate.
  - intros Hr. rewrite (IH _ _ _ _ _ _ Hr). exact Hs.
Qed.

Lemma migrateKey_seen (key : string) (w : W) :
  seen (fst (Migration.migrateKey src dst key opts w)) = seen w.
Proof.
  destruct Hseen as (_ & Hget & Httl & Hset & _).
  unfold Migration.migrateKey.
  pose proof (Hget key w) as Hg.
  destruct (rdb_Get src key w) as [w1 [data|e]]; cbn [fst] in Hg; [|exact Hg].
  destruct (Migration.PreserveTTL opts).
  - pose proof (Httl key w1) as Ht.
    destruct (rdb_TTL src key w1) as [w2 [ttl|e]]; cbn [fst] in Ht;
      [|cbn [fst]; congruence].
    pose proof (Hset key data (if ttl <? 0 then 0 else ttl) w2) as Hs.
    destruct (rdb_Set dst key data _ w2) as [w3 [u|e]]; cbn [fst] in *;
      congruence.
  - destruct (Migration.TTL opts >? 0).
    + pose proof (Hset key data (Migration.TTL opts) w1) as Hs.
      destruct (rdb_Set dst key data _ w1) as [w3 [u|e]]; cbn [fst] in *;
        congruence.
    + pose proof (Hset key data 0 w1) as Hs.
      destruct (rdb_Set dst key data _ w1) as [w3 [u|e]]; cbn [fst] in *;
        congruence.
Qed.

Lemma migrate_batch_seen (batch : list string) :
  forall (r r' : Migration.MigrateResult) (w w' : W) e,
    Migration.migrate_batch src dst opts batch r w = (w', r', e) ->
    seen w' = seen w.
Proof.
  destruct Hseen as (_ & _ & _ & _ & Herr & _).
  induction batch as [|key batch IH]; intros r r' w w' e;
    cbn [Migration.migrate_batch]; [intros [= <- _ _]; reflexivity|].
  intros Hb. pose proof (migrateKey_seen key w) as Hk.
  destruct (Migration.migrateKey src dst key opts w) as [w1 [e0|]];
    cbn [fst] in Hk; [|rewrite (IH _ _ _ _ _ Hb); exact Hk].
  destruct (Migration.OnError opts) as [onError|] eqn:Ho;
    [|rewrite (IH _ _ _ _ _ Hb); exact Hk].
  pose proof (Herr onError key e0 w1 eq_refl) as He.
  destruct (onError key e0 w1) as [w2 [|]]; cbn [negb fst] in *.
  - rewrite (IH _ _ _ _ _ Hb). congruence.
  - injection Hb as <- _ _. congruence.
Qed.

(** What [seen] holds after the loop: what it held before, and the entries
    the loop added to its log. *)
Lemma migrate_batches_seen (startTime : time_Time) (keys : list string)
    (fuel : nat) :
  forall (i : Z) (r r' : Migration.MigrateResult)
         (log log' : Migration.progress_log) (w w' : W) e
         (l0 : list (Z * Z)),
    Migration.migrate_batches fuel src dst opts startTime keys i r log w
      = Some (w', log', r', e) ->
    seen w = l0 ++ log -> seen w' = l0 ++ log'.
Proof.
  pose proof Hseen as (_ & _ & _ & _ & _ & Hprog).
  induction fuel as [|fuel IH]; intros i r r' log log' w w' e l0;
    rewrite migrate_batches_unfold;
    (destruct (i <? Migration.len keys);
     [|intros [= <- <- _ _]; auto]);
    (destruct (ctx_Err w); [intros [= <- <- _ _]; auto|]); cbv zeta;
    (destruct (Migration.migrate_batch _ _ _ _ _ _) as [[w1 r1] [ae|]] eqn:Hb;
     [intros [= <- <- _ _] Hw; rewrite (migrate_batch_seen _ _ _ _ _ _ Hb);
      exact Hw|]).
  - destruct (Migration.OnProgress opts); discriminate.
  - intros Hrec Hw.
    pose proof (migrate_batch_seen _ _ _ _ _ _ Hb) as Hw1.
    destruct (Migration.OnProgress opts) as [onProgress|] eqn:Ho.
    + eapply IH; [exact Hrec|].
      rewrite (Hprog onProgress _ _ _ eq_refl), Hw1, Hw, app_assoc.
      reflexivity.
    + eapply IH; [exact Hrec|]. congruence.
Qed.

End MigrateSeen.


(** *** Nothing is removed from the reference store *)

Lemma expiry_after_Set_pos c k ttl w :
  0 < ttl -> Mem.expiry_after_Set c k ttl w = Some (Mem.clock w + ttl).
Proof.
  intros Ht. unfold Mem.expiry_after_Set.
  destruct (Z.gtb_spec ttl 0); [reflexivity|lia].
Qed.

Lemma expiry_after_Set_none c k ttl w :
  ttl <= 0 -> ttl <> Mem.KeepTTL -> Mem.expiry_after_Set c k ttl w = None.
Proof.
  intros Ht Hk. unfold Mem.expiry_after_Set.
  destruct (Z.gtb_spec ttl 0); [lia|].
  destruct (Z.eqb_spec ttl Mem.KeepTTL); [contradiction|reflexivity].
Qed.

Lemma mem_read_only {A} (w : Mem.MemWorld)
    (f : Mem.MemWorld -> Mem.MemWorld * reply A) :
  (forall w0, Mem.data (fst (f w0)) = Mem.data w0) ->
  Mem.data (fst (Mem.command w f)) = Mem.data w.
Proof.
  intros Hf. unfold Mem.command. destruct (Mem.cancelled w); [reflexivity|].
  rewrite Hf. reflexivity.
Qed.

Lemma mem_Scan_data c cur pat n w :
  Mem.data (fst (Mem.mem_Scan c cur pat n w)) = Mem.data w.
Proof. apply mem_read_only. reflexivity. Qed.

Lemma mem_Get_data c k w : Mem.data (fst (Mem.mem_Get c k w)) = Mem.data w.
Proof.
  apply mem_read_only. intros w0. destruct (Mem.live w0 c k); reflexivity.
Qed.

Lemma mem_Set_present c k v t w (k0 : Client * string) :
  is_Some (Mem.data w !! k0) ->
  is_Some (Mem.data (fst (Mem.mem_Set c k v t w)) !! k0).
Proof.
  intros Hk. unfold Mem.mem_Set, Mem.command.
  destruct (Mem.cancelled w); [exact Hk|]. cbn.
  rewrite lookup_insert. destruct (decide ((c, k) = k0)); [eauto|exact Hk].
Qed.

(** A key that is in the reference store stays in it through a migration
    whose callbacks leave the store alone. *)
Lemma present_survives_migration (src dst : Client)
    (opts : Migration.MigrateOptions Mem.MemWorld) (k0 : Client * string) :
  (forall f k e w, Migration.OnError opts = Some f ->
                   Mem.data (fst (f k e w)) = Mem.data w) ->
  (forall f d t w, Migration.OnProgress opts = Some f ->
                   Mem.data (f d t w) = Mem.data w) ->
  survives_migration src dst opts (fun w => is_Some (Mem.data w !! k0)).
Proof.
  intros Herr Hprog. unfold survives_migration.
  cbn [rdb_Scan rdb_Get rdb_TTL rdb_Set Mem.MemWorld_Rdb].
  split; [intros; rewrite mem_Scan_data; assumption|].
  split; [intros; rewrite mem_Get_data; assumption|].
  split; [intros; rewrite mem_TTL_frame; assumption|].
  split; [intros; apply mem_Set_present; assumption|].
  split.
  - intros f k e w Hf Hw. rewrite (Herr f k e w Hf). exact Hw.
  - intros f d t w Hf Hw. rewrite (Hprog f d t w Hf). exact Hw.
Qed.


(** The run of the witness above: the key migrated before the failure is in
    the destination when [Migrate] returns with the abort error. *)
Lemma Migrate_abort_keeps_written_keys :
  exists w' r e,
    Migration.Migrate 10 1%N 2%N Sample.stop_on_error Sample.store_expired
      = Some (w', [], Some r, Some e) /\
    Migration.MigratedKeys r = 1 /\ Migration.FailedKeys r = 1 /\
    Mem.data w' !! (2%N, "c") = Some {| Mem.e_val := "3"; Mem.e_exp := None |}.
Proof.
  eexists _, _, _. split; [vm_compute; reflexivity|].
  repeat split; vm_compute; reflexivity.
Qed.


(** On the journalled store, callbacks that note their calls leave the
    record of progress to [OnProgress]. *)
Lemma Journal_notes_progress (src dst : Client)
    (opts : Migration.MigrateOptions Journal.World) :
  (forall f, Migration.OnProgress opts = Some f -> f = Journal.note_progress) ->
  (forall f, Migration.OnError opts = Some f ->
             exists b, f = Journal.note_failure b) ->
  notes_progress src dst opts Journal.progress.
Proof.
  intros Hprog Herr. unfold notes_progress.
  cbn [rdb_Scan rdb_Get rdb_TTL rdb_Set Journal.World_Rdb].
  assert (Hon : forall A (f : Mem.MemWorld -> Mem.MemWorld * A) w,
            Journal.progress (fst (Journal.on_store f w))
            = Journal.progress w).
  { intros A f w. unfold Journal.on_store.
    destruct (f (Journal.store w)). reflexivity. }
  repeat split; intros; try apply Hon.
  - destruct (Herr _ H) as [b ->]. reflexivity.
  - rewrite (Hprog _ H). reflexivity.
Qed.


(** ** Rate limiter: a window of checks on the reference store *)

Lemma atoi_itoa (z : Z) : Mem.atoi (itoa z) = Some z.
Proof.
  unfold Mem.atoi. rewrite int_of_string_itoa. cbv zeta.
  rewrite DecimalZ.of_to, String.eqb_refl. reflexivity.
Qed.

(** Two times in the same window index are less than a window apart, for
    a window under 2^24 seconds. *)
Lemma same_window_close (cfg : RateLimitConfig) (t t' : time_Time) :
  Second <= Window cfg < 16777216 * Second ->
  windowIndex cfg t = windowIndex cfg t' ->
  t' < t + Window cfg.
Proof.
  unfold windowIndex, Unix. intros Hw Hidx.
  pose proof (Seconds_int64_pos _ (proj1 Hw)) as Hs.
  assert (Hsw : Seconds_int64 (Window cfg) * Second <= Window cfg).
  { rewrite Seconds_int64_exact by (unfold Second in *; lia).
    unfold Second in *.
    pose proof (Z.mul_div_le (Window cfg) 1000000000 ltac:(lia)). lia. }
  set (s := Seconds_int64 (Window cfg)) in *.
  pose proof (Z.mul_div_le (t / Second) s ltac:(lia)).
  pose proof (Z.mul_succ_div_gt (t' / Second) s ltac:(lia)).
  unfold Second in *.
  pose proof (Z.mul_div_le t 1000000000 ltac:(lia)).
  pose proof (Z.mul_succ_div_gt t' 1000000000 ltac:(lia)).
  rewrite Hidx in *. nia.
Qed.

Section OneCheck.
Variables (c : Client) (k : string).

Lemma live_unfold (w : Mem.MemWorld) :
  Mem.live w c k =
  match Mem.data w !! (c, k) with
  | Some e =>
      match Mem.e_exp e with
      | Some x => if Mem.clock w <? x then Some e else None
      | None => Some e
      end
  | None => None
  end.
Proof. reflexivity. Qed.

Lemma mem_IncrBy_ok (n v : Z) (w : Mem.MemWorld) :
  Mem.ctx_budget w = None ->
  counter w c k = Some v ->
  min_int64 <= v + n <= max_int64 ->
  exists w1 x,
    Mem.mem_IncrBy c k n w = (w1, Val (v + n)) /\
    Mem.clock w1 = Mem.clock w /\ Mem.ctx_budget w1 = None /\
    Mem.data w1 =
      <[(c, k) := {| Mem.e_val := itoa (v + n); Mem.e_exp := x |}]>
        (Mem.data w) /\
    Mem.live w1 c k = Some {| Mem.e_val := itoa (v + n); Mem.e_exp := x |}.
Proof.
  intros Hb Hc Hr. destruct w as [clk bud dat]. cbn in Hb. subst bud.
  assert (Hin : (min_int64 <=? v + n) && (v + n <=? max_int64) = true).
  { apply andb_true_iff. split; apply Z.leb_le; lia. }
  unfold counter in Hc. unfold Mem.mem_IncrBy, Mem.command, Mem.cancelled.
  cbn [Mem.ctx_budget]. cbv iota beta.
  change (Mem.live (Mem.tick {| Mem.clock := clk; Mem.ctx_budget := None;
                                Mem.data := dat |}) c k)
    with (Mem.live {| Mem.clock := clk; Mem.ctx_budget := None;
                      Mem.data := dat |} c k).
  destruct (Mem.live _ c k) as [e|] eqn:Hl.
  - rewrite Hc, Hin. eexists _, (Mem.e_exp e). split; [reflexivity|].
    cbn [Mem.tick Mem.set_data Mem.clock Mem.ctx_budget Mem.data].
    repeat split. rewrite live_unfold.
    cbn [Mem.tick Mem.set_data Mem.clock Mem.ctx_budget Mem.data].
    rewrite lookup_insert_eq. cbn [Mem.e_exp].
    rewrite live_unfold in Hl. cbn [Mem.clock Mem.data] in Hl.
    destruct (dat !! (c, k)) as [e'|]; [|discriminate].
    destruct (Mem.e_exp e') as [x|] eqn:He'.
    + destruct (clk <? x) eqn:Hx; [|discriminate].
      injection Hl as <-. rewrite He', Hx. reflexivity.
    + injection Hl as <-. rewrite He'. reflexivity.
  - injection Hc as <-. rewrite Hin. eexists _, None. split; [reflexivity|].
    cbn [Mem.tick Mem.set_data Mem.clock Mem.ctx_budget Mem.data].
    repeat split. rewrite live_unfold.
    cbn [Mem.tick Mem.set_data Mem.clock Mem.ctx_budget Mem.data].
    rewrite lookup_insert_eq. reflexivity.
Qed.

Lemma mem_Expire_ok (d : time_Duration) (e : Mem.entry) (w : Mem.MemWorld) :
  Mem.ctx_budget w = None ->
  Mem.live w c k = Some e ->
  0 < d ->
  exists w2,
    Mem.mem_Expire c k d w = (w2, Val true) /\
    Mem.clock w2 = Mem.clock w /\ Mem.ctx_budget w2 = None /\
    Mem.data w2 =
      <[(c, k) := {| Mem.e_val := Mem.e_val e;
                     Mem.e_exp := Some (Mem.clock w + d) |}]> (Mem.data w).
Proof.
  intros Hb Hl Hd. destruct w as [clk bud dat]. cbn in Hb. subst bud.
  unfold Mem.mem_Expire, Mem.command, Mem.cancelled.
  cbn [Mem.ctx_budget]. cbv iota beta.
  change (Mem.live (Mem.tick {| Mem.clock := clk; Mem.ctx_budget := None;
                                Mem.data := dat |}) c k)
    with (Mem.live {| Mem.clock := clk; Mem.ctx_budget := None;
                      Mem.data := dat |} c k).
  rewrite Hl. destruct (Z.leb_spec d 0); [lia|].
  eexists. split; [reflexivity|].
  cbn [Mem.tick Mem.set_data Mem.clock Mem.ctx_budget Mem.data]. auto.
Qed.

Lemma mem_TTL_ok (val : string) (y : time_Time) (w : Mem.MemWorld) :
  Mem.ctx_budget w = None ->
  Mem.data w !! (c, k) = Some {| Mem.e_val := val; Mem.e_exp := Some y |} ->
  Mem.clock w < y ->
  exists w3,
    Mem.mem_TTL c k w = (w3, Val (y - Mem.clock w)) /\
    Mem.clock w3 = Mem.clock w /\ Mem.ctx_budget w3 = None /\
    Mem.data w3 = Mem.data w.
Proof.
  intros Hb Hl Hy. destruct w as [clk bud dat]. cbn in Hb. subst bud.
  cbn [Mem.clock Mem.data] in *.
  unfold Mem.mem_TTL, Mem.command, Mem.cancelled.
  cbn [Mem.ctx_budget]. cbv iota beta. rewrite live_unfold.
  cbn [Mem.tick Mem.clock Mem.ctx_budget Mem.data]. rewrite Hl.
  cbn [Mem.e_exp]. destruct (Z.ltb_spec clk y); [|lia].
  eexists. split; [reflexivity|]. auto.
Qed.

End OneCheck.

(** One check on the reference store: the counter goes from [v] to
    [v + n], its expiry is set a window ahead, and the decision is taken on
    count [v + n] with a full window left. *)
Lemma AllowN_on_Mem (rl : RateLimiter.t) (id k : string) (n v : Z)
    (w : Mem.MemWorld) :
  Mem.ctx_budget w = None ->
  Second <= Window (RateLimiter.config rl) ->
  RateLimiter.buildKey rl id (Mem.clock w) = Ret k ->
  counter w (RateLimiter.client rl) k = Some v ->
  min_int64 <= v + n <= max_int64 ->
  exists w',
    RateLimiter.AllowN rl id n w =
      (w', Ret (Some (RateLimiter.decide_result (RateLimiter.config rl)
                        (Mem.clock w) (v + n)
                        (Window (RateLimiter.config rl))), None)) /\
    Mem.clock w' = Mem.clock w /\
    Mem.ctx_budget w' = None /\
    Mem.data w' =
      <[(RateLimiter.client rl, k) :=
          {| Mem.e_val := itoa (v + n);
             Mem.e_exp :=
               Some (Mem.clock w + Window (RateLimiter.config rl)) |}]>
        (Mem.data w).
Proof.
  intros Hb Hw Hk Hc Hr. unfold Second in Hw.
  unfold RateLimiter.AllowN. cbn [time_Now Mem.MemWorld_Rdb]. rewrite Hk.
  cbn [rdb_IncrBy rdb_Expire rdb_TTL Mem.MemWorld_Rdb].
  destruct (mem_IncrBy_ok _ k n v w Hb Hc Hr)
    as (w1 & x & -> & Hc1 & Hb1 & Hd1 & Hl1).
  destruct (mem_Expire_ok _ k (Window (RateLimiter.config rl)) _ w1 Hb1 Hl1
              ltac:(lia)) as (w2 & -> & Hc2 & Hb2 & Hd2).
  cbn [Mem.e_val] in Hd2.
  destruct (mem_TTL_ok (RateLimiter.client rl) k (itoa (v + n))
              (Mem.clock w1 + Window (RateLimiter.config rl)) w2 Hb2)
    as (w3 & -> & Hc3 & Hb3 & Hd3).
  { rewrite Hd2. apply lookup_insert_eq. }
  { lia. }
  cbn [RateLimiter.pipe_err reply_err reply_val].
  exists w3. split.
  - replace (Mem.clock w1 + Window (RateLimiter.config rl) - Mem.clock w2)
      with (Window (RateLimiter.config rl)) by lia.
    reflexivity.
  - split; [congruence|]. split; [exact Hb3|].
    rewrite Hd3, Hd2, Hd1, insert_insert_eq, Hc1. reflexivity.
Qed.

Lemma counter_after_check (c : Client) (k : string) (v : Z)
    (t t' : time_Time) (d : time_Duration) (w' : Mem.MemWorld) :
  Mem.data w' !! (c, k) =
    Some {| Mem.e_val := itoa v; Mem.e_exp := Some (t + d) |} ->
  t' < t + d ->
  counter (Mem.set_clock t' w') c k = Some v.
Proof.
  intros Hd Ht. unfold counter. rewrite live_unfold.
  cbn [Mem.set_clock Mem.data Mem.clock]. rewrite Hd. cbn [Mem.e_exp].
  destruct (Z.ltb_spec t' (t + d)); [|lia]. cbn [Mem.e_val]. apply atoi_itoa.
Qed.

(** Checks for one identity at times that share a counter key and lie less
    than a window apart: the counter goes up by one per check. *)
Lemma checks_in_one_window (rl : RateLimiter.t) (id k : string)
    (times : list time_Time) :
  forall (w : Mem.MemWorld) (v : Z),
    Mem.ctx_budget w = None ->
    Second <= Window (RateLimiter.config rl) ->
    Forall (fun t => RateLimiter.buildKey rl id t = Ret k) times ->
    (forall t t', In t times -> In t' times ->
                  t' < t + Window (RateLimiter.config rl)) ->
    match times with
    | [] => True
    | t0 :: _ => counter (Mem.set_clock t0 w) (RateLimiter.client rl) k = Some v
    end ->
    min_int64 <= v ->
    v + Z.of_nat (length times) <= max_int64 ->
    snd (check_all rl (checks_at id times) w)
      = results_from (RateLimiter.config rl) v times.
Proof.
  induction times as [|t0 ts IH]; intros w v Hb Hw Hk Hclose Hc Hlo Hhi;
    [reflexivity|].
  cbn [checks_at map check_all results_from].
  inversion Hk as [|? ? Hk0 Hks]; subst.
  destruct (AllowN_on_Mem rl id k 1 v (Mem.set_clock t0 w) Hb Hw Hk0 Hc)
    as (w' & -> & Hc' & Hb' & Hd').
  { cbn [length] in Hhi. lia. }
  cbn [Mem.set_clock Mem.clock Mem.data] in *.
  specialize (IH w' (v + 1) Hb' Hw Hks).
  fold (checks_at id ts).
  destruct (check_all rl (checks_at id ts) w') as [w'' rs]. cbn [snd] in *.
  f_equal. apply IH.
  - intros t t' Ht Ht'. apply Hclose; right; assumption.
  - destruct ts as [|t1 ts]; [exact I|].
    apply (counter_after_check _ k (v + 1) t0 t1
             (Window (RateLimiter.config rl))).
    + rewrite Hd'. apply lookup_insert_eq.
    + apply Hclose; [left; reflexivity|right; left; reflexivity].
  - lia.
  - cbn [length] in Hhi. lia.
Qed.

Lemma results_from_nth (cfg : RateLimitConfig) (times : list time_Time) :
  forall (v : Z) (j : nat),
    (j < length times)%nat ->
    exists t,
      nth_error (results_from cfg v times) j =
        Some (Ret (Some (RateLimiter.decide_result cfg t
                           (v + Z.of_nat j + 1) (Window cfg)), None)).
Proof.
  induction times as [|t0 ts IH]; intros v j Hj; cbn [length] in Hj; [lia|].
  destruct j as [|j]; cbn [results_from nth_error].
  - exists t0. replace (v + Z.of_nat 0 + 1) with (v + 1) by lia. reflexivity.
  - destruct (IH (v + 1) j ltac:(lia)) as [t Ht]. exists t. rewrite Ht.
    replace (v + 1 + Z.of_nat j + 1) with (v + Z.of_nat (S j) + 1) by lia.
    reflexivity.
Qed.

(** For a window from one second to 2^24 seconds, on the reference store:
    on a fresh counter, [R + 1] single-unit checks for one identity at
    times of one window index of the limiter: the first [R] are allowed,
    with [Remaining] going down by one from [R - 1] to 0; the last is
    denied, with [RetryAfter] at most the window. *)
Lemma checks_within_one_window :
  forall (rl : RateLimiter.t) (id : string) (w : Mem.MemWorld)
         (times : list time_Time) (idx : Z),
    let cfg := RateLimiter.config rl in
    let R := Rate cfg in
    let key := KeyPrefix cfg +:+ ":" +:+ id +:+ ":" +:+ itoa idx in
    0 <= R < max_int64 ->
    Second <= Window cfg < 16777216 * Second ->
    Mem.ctx_budget w = None ->
    Mem.data w !! (RateLimiter.client rl, key) = None ->
    Z.of_nat (length times) = R + 1 ->
    Forall (fun t => 0 <= Unix t <= max_int64 /\ windowIndex cfg t = idx)
      times ->
    let results := snd (check_all rl (checks_at id times) w) in
    (forall j, 0 <= j < R ->
       exists r,
         nth_error results (Z.to_nat j) = Some (Ret (Some r, None)) /\
         Allowed r = true /\ Remaining r = R - 1 - j) /\
    (exists r,
       nth_error results (Z.to_nat R) = Some (Ret (Some r, None)) /\
       Allowed r = false /\ Remaining r = 0 /\
       0 <= RetryAfter r <= Window cfg).
Proof.
  intros rl id w times idx cfg R key HR Hw2 Hb Hfresh Hlen Htimes results.
  pose proof (proj1 Hw2) as Hw.
  subst results key R cfg.
  set (cfg := RateLimiter.config rl) in *. set (R := Rate cfg) in *.
  assert (Hres : snd (check_all rl (checks_at id times) w)
                 = results_from cfg 0 times).
  { apply (checks_in_one_window rl id
             (KeyPrefix cfg +:+ ":" +:+ id +:+ ":" +:+ itoa idx)).
    - exact Hb.
    - exact Hw.
    - eapply Forall_impl; [exact Htimes|]. cbn beta. intros t [Ht Hi].
      rewrite (buildKey_value rl id t Hw Ht). unfold cfg in Hi |- *.
      rewrite Hi. reflexivity.
    - intros t t' Ht Ht'. apply same_window_close; [exact Hw2|].
      rewrite Forall_forall in Htimes.
      apply list_elem_of_In in Ht, Ht'.
      destruct (Htimes _ Ht) as [_ Hi]. destruct (Htimes _ Ht') as [_ Hi'].
      unfold cfg in Hi, Hi'. congruence.
    - destruct times as [|t0 ts]; [exact I|]. unfold counter.
      rewrite live_unfold. cbn [Mem.set_clock Mem.data].
      rewrite Hfresh. reflexivity.
    - unfold min_int64. lia.
    - unfold max_int64 in *. lia. }
  rewrite Hres. unfold max_int64 in HR. unfold Second in Hw. split.
  - intros j Hj.
    destruct (results_from_nth cfg times 0 (Z.to_nat j) ltac:(lia)) as [t Ht].
    eexists. split; [exact Ht|]. rewrite Z2Nat.id by lia.
    unfold RateLimiter.decide_result. cbn [Allowed Remaining]. fold R.
    split; [apply Z.leb_le; lia|].
    rewrite wrap64_id by (unfold in_int64, min_int64, max_int64; lia).
    destruct (Z.ltb_spec (R - (0 + j + 1)) 0); lia.
  - destruct (results_from_nth cfg times 0 (Z.to_nat R) ltac:(lia)) as [t Ht].
    eexists. split; [exact Ht|]. rewrite Z2Nat.id by lia.
    unfold RateLimiter.decide_result. cbn [Allowed Remaining RetryAfter].
    fold R.
    destruct (Z.leb_spec (0 + R + 1) R); [lia|]. cbn [negb].
    split; [reflexivity|].
    rewrite wrap64_id by (unfold in_int64, min_int64, max_int64; lia).
    destruct (Z.ltb_spec (R - (0 + R + 1)) 0); [|lia].
    split; [reflexivity|].
    destruct (Z.ltb_spec (Window cfg) 0); lia.
Qed.

(** Two checks a minute: two allowed, the third denied. *)
Lemma checks_within_one_window_example :
  let times := [1700000000 * Second; 1700000001 * Second;
                1700000002 * Second] in
  let results :=
    snd (check_all Sample.limiter (checks_at "u1" times) Sample.world) in
  (forall j, 0 <= j < 2 ->
     exists r,
       nth_error results (Z.to_nat j) = Some (Ret (Some r, None)) /\
       Allowed r = true /\ Remaining r = 2 - 1 - j) /\
  (exists r,
     nth_error results (Z.to_nat 2) = Some (Ret (Some r, None)) /\
     Allowed r = false /\ Remaining r = 0 /\
     0 <= RetryAfter r <= Minute).
Proof.
  refine (checks_within_one_window Sample.limiter "u1" Sample.world
            [1700000000 * Second; 1700000001 * Second; 1700000002 * Second]
            28333333 _ _ _ _ _ _).
  - vm_compute. split; [discriminate|reflexivity].
  - vm_compute. split; [discriminate|reflexivity].
  - reflexivity.
  - vm_compute. reflexivity.
  - reflexivity.
  - repeat constructor; vm_compute; congruence.
Qed.

(** For a window of a whole number of seconds the window index of
    [buildKey] is that of the specification. *)
Lemma windowIndex_whole_seconds (cfg : RateLimitConfig) (t : time_Time)
    (n : Z) :
  1 <= n -> Window cfg = n * Second -> Window cfg < 2 ^ 63 ->
  windowIndex cfg t = spec_windowIndex cfg t.
Proof.
  intros Hn Hw Hlt. unfold windowIndex, spec_windowIndex. rewrite Hw in *.
  rewrite Seconds_int64_whole by lia.
  rewrite Z.div_mul_cancel_r by (unfold Second; lia). reflexivity.
Qed.

(** C2: the claim fails for a window that is not a whole number of
    seconds, because [buildKey] divides by the seconds of the window cut to
    a whole number.  With rate 2 and a window of half a second that
    divisor is 0: each of three checks panics, none is allowed.  With rate
    2 and a window of a second and a half the limiter counts per second:
    three checks within 1.4 seconds, in one window index of the
    specification, fall into two window indexes of [buildKey] and are all
    allowed. *)
Theorem window_is_cut_to_whole_seconds :
  snd (check_all Sample.fast_limiter
         (checks_at "u1" [1700000000 * Second; 1700000000 * Second + 1;
                          1700000000 * Second + 2])
         Sample.world)
    = [Panic divide_by_zero; Panic divide_by_zero; Panic divide_by_zero] /\
  map (spec_windowIndex (RateLimiter.config Sample.split_limiter))
    [1700000001 * Second; 1700000002 * Second;
     1700000002 * Second + 400000000]
    = [1133333334; 1133333334; 1133333334] /\
  map (windowIndex (RateLimiter.config Sample.split_limiter))
    [1700000001 * Second; 1700000002 * Second;
     1700000002 * Second + 400000000]
    = [1700000001; 1700000002; 1700000002] /\
  map (fun out => match out with
                  | Ret (Some r, None) => Some (Allowed r, Remaining r)
                  | _ => None
                  end)
    (snd (check_all Sample.split_limiter
            (checks_at "u1" [1700000001 * Second; 1700000002 * Second;
                             1700000002 * Second + 400000000])
            Sample.world))
    = [Some (true, 1); Some (true, 1); Some (true, 0)].
Proof. repeat split; vm_compute; reflexivity. Qed.

(** ** Walking a scan

    [Each] and [Count] against [All], the position of a scanner, and what
    [All] returns when the scan comes in pages. *)

Section ScannerLoops.
Context {W : Type} `{Rdb W}.

Lemma wrap64_succ (z : Z) : wrap64 (wrap64 z + 1) = wrap64 (z + 1).
Proof.
  unfold wrap64.
  replace (((z + 2 ^ 63) mod 2 ^ 64 - 2 ^ 63 + 1 + 2 ^ 63))
    with ((z + 2 ^ 63) mod 2 ^ 64 + 1) by lia.
  rewrite Zplus_mod_idemp_l. f_equal. f_equal. lia.
Qed.

Lemma Count_loop_All_loop (fuel : nat) :
  forall (s : Scanner.t) (w : W) (keys : list string),
    Scanner.Count_loop fuel s w (wrap64 (Scanner.len keys)) =
    match Scanner.All_loop fuel s w keys with
    | None => None
    | Some (w', s', keys') => Some (w', s', wrap64 (Scanner.len keys'))
    end.
Proof.
  induction fuel as [|fuel IH]; intros s w keys; [reflexivity|].
  cbn [Scanner.Count_loop Scanner.All_loop].
  destruct (Scanner.Next fuel s w) as [[[w1 s1] [|]]|]; try reflexivity.
  rewrite <- IH, wrap64_succ. do 2 f_equal.
  unfold Scanner.len. rewrite length_app. cbn [length]. lia.
Qed.

(** [Next] answers true only on a scanner without error, and leaves it
    so. *)
Lemma Next_true_no_err (fuel : nat) :
  forall (s s' : Scanner.t) (w w' : W),
    Scanner.Next fuel s w = Some (w', s', true) -> Scanner.err s' = None.
Proof.
  induction fuel as [|fuel IH]; intros s s' w w'; rewrite Next_unfold;
    (destruct (Scanner.done s || Scanner.is_err (Scanner.err s)) eqn:Hg;
     [discriminate|]);
    (assert (He : Scanner.err s = None)
       by (destruct (Scanner.err s); [rewrite orb_true_r in Hg; discriminate
                                     |reflexivity]));
    (destruct (ctx_Err w) as [e|]; [discriminate|]);
    (destruct (Scanner.bufIdx s <? Scanner.len (Scanner.buffer s));
     [intros [= _ <-]; exact He|]); cbv zeta;
    (destruct (Scanner.fetch _ _) as [w1 [[keys cur]|e]]; [|discriminate]);
    (destruct (0 <? Scanner.len _);
     [intros [= _ <-]; destruct (cur =? 0); exact He|]);
    (destruct (negb _) eqn:Hd; [|discriminate]).
  - discriminate.
  - intros Hn. apply IH in Hn. exact Hn.
Qed.

Lemma Each_loop_All_loop (p : string -> bool) (fuel : nat) :
  forall (s s' : Scanner.t) (w w' : W) (acc keys : list string),
    Scanner.All_loop fuel s w acc = Some (w', s', keys) ->
    exists rest w2 s2,
      keys = acc ++ rest /\
      Scanner.Each_loop fuel (visit p) s w acc
        = Some (w2, s2, acc ++ stop_after p rest) /\
      (forallb p rest = true -> w2 = w' /\ s2 = s') /\
      (forallb p rest = false -> Scanner.err s2 = None).
Proof.
  induction fuel as [|fuel IH]; intros s s' w w' acc keys; [discriminate|].
  cbn [Scanner.All_loop Scanner.Each_loop].
  destruct (Scanner.Next fuel s w) as [[[w1 s1] [|]]|] eqn:Hn;
    [|intros [= <- <- <-]|discriminate].
  - intros Ha. destruct (IH _ _ _ _ _ _ Ha) as (rest & w2 & s2 & -> & He & Ht & Hf).
    exists (Scanner.Key s1 :: rest). unfold visit at 1. cbn [stop_after forallb].
    destruct (p (Scanner.Key s1)); cbn [negb andb].
    + exists w2, s2. rewrite <- !app_assoc in *. cbn [app] in *.
      repeat split; auto; apply Ht; assumption.
    + exists w1, s1. rewrite <- !app_assoc. cbn [app].
      repeat split; try discriminate.
      intros _. eapply Next_true_no_err. exact Hn.
  - exists [], w1, s1. cbn [stop_after forallb]. rewrite app_nil_r.
    repeat split; discriminate.
Qed.

Lemma Key_in_range (s : Scanner.t) :
  0 < Scanner.bufIdx s <= Scanner.len (Scanner.buffer s) ->
  nth_error (Scanner.buffer s) (Z.to_nat (Scanner.bufIdx s - 1))
    = Some (Scanner.Key s).
Proof.
  intros Hs. unfold Scanner.Key.
  destruct (Z.ltb_spec 0 (Scanner.bufIdx s)); [|lia].
  destruct (Z.leb_spec (Scanner.bufIdx s) (Scanner.len (Scanner.buffer s)));
    [|lia]. cbn [andb]. apply nth_error_nth'.
  unfold Scanner.len in *. lia.
Qed.

Lemma Next_positions (fuel : nat) :
  forall (s s' : Scanner.t) (w w' : W) (b : bool),
    well_positioned s ->
    Scanner.Next fuel s w = Some (w', s', b) ->
    well_positioned s' /\
    (b = true ->
     0 < Scanner.bufIdx s' /\
     nth_error (Scanner.buffer s') (Z.to_nat (Scanner.bufIdx s' - 1))
       = Some (Scanner.Key s')).
Proof.
  assert (Hpos : forall s : Scanner.t,
            0 < Scanner.bufIdx s <= Scanner.len (Scanner.buffer s) ->
            well_positioned s /\
            (true = true ->
             0 < Scanner.bufIdx s /\
             nth_error (Scanner.buffer s) (Z.to_nat (Scanner.bufIdx s - 1))
               = Some (Scanner.Key s))).
  { intros s Hs. split; [unfold well_positioned; lia|].
    intros _. split; [lia|apply Key_in_range, Hs]. }
  induction fuel as [|fuel IH]; intros s s' w w' b Hw; rewrite Next_unfold.
  all: destruct (Scanner.done s || Scanner.is_err (Scanner.err s));
    [intros [= _ <- <-]; split; [exact Hw|discriminate]|].
  all: destruct (ctx_Err w) as [e|];
    [intros [= _ <- <-]; split; [exact Hw|discriminate]|].
  all: destruct (Z.ltb_spec (Scanner.bufIdx s) (Scanner.len (Scanner.buffer s)));
    [intros [= _ <- <-]; apply Hpos; unfold well_positioned in Hw; cbn; lia|].
  all: cbv zeta; destruct (Scanner.fetch _ _) as [w1 [[keys cur]|e]];
    [|intros [= _ <- <-];
      split; [unfold well_positioned, Scanner.len; cbn; lia|discriminate]].
  all: match goal with
       | |- context [0 <? Scanner.len (Scanner.buffer ?s1)] =>
           assert (Hb : Scanner.buffer s1 = keys)
             by (destruct (cur =? 0); reflexivity);
           assert (Hi : Scanner.bufIdx s1 = 0)
             by (destruct (cur =? 0); reflexivity);
           generalize dependent s1; intros sx Hb Hi
       end.
  all: destruct (Z.ltb_spec 0 (Scanner.len (Scanner.buffer sx)));
    [intros [= _ <- <-]; apply Hpos; cbn; lia|].
  all: assert (Hw1 : well_positioned sx)
    by (unfold well_positioned, Scanner.len in *; lia).
  all: destruct (negb (Scanner.done sx));
    [|intros [= _ <- <-]; split; [exact Hw1|discriminate]].
  - discriminate.
  - apply IH. exact Hw1.
Qed.

End ScannerLoops.

Lemma skipn_nth_cons {A} (l : list A) (i : nat) (d : A) :
  (i < length l)%nat -> skipn i l = nth i l d :: skipn (S i) l.
Proof.
  revert i. induction l as [|x l IH]; intros [|i] Hi; cbn in *; try lia.
  - reflexivity.
  - apply IH. lia.
Qed.

Lemma Key_in_range_nth (s : Scanner.t) :
  0 < Scanner.bufIdx s <= Scanner.len (Scanner.buffer s) ->
  Scanner.Key s = nth (Z.to_nat (Scanner.bufIdx s - 1)) (Scanner.buffer s) "".
Proof.
  intros Hs. unfold Scanner.Key.
  destruct (Z.ltb_spec 0 (Scanner.bufIdx s)); [|lia].
  destruct (Z.leb_spec (Scanner.bufIdx s) (Scanner.len (Scanner.buffer s)));
    [reflexivity|lia].
Qed.

Section ScannerFuel.
Context {W : Type} `{Rdb W}.

(** More fuel does not change an answer. *)
Lemma Next_fuel_S (fuel : nat) :
  forall (s : Scanner.t) (w : W) r,
    Scanner.Next fuel s w = Some r -> Scanner.Next (S fuel) s w = Some r.
Proof.
  induction fuel as [|fuel IH]; intros s w r Hn;
    rewrite Next_unfold in Hn; rewrite Next_unfold; revert Hn.
  all: destruct (Scanner.done s || Scanner.is_err (Scanner.err s)); [auto|].
  all: destruct (ctx_Err w); [auto|].
  all: destruct (_ <? _); [auto|].
  all: cbv zeta; destruct (Scanner.fetch _ _) as [w1 [[keys cur]|e]]; [|auto].
  all: destruct (0 <? _); [auto|].
  all: destruct (negb _); [|auto].
  - discriminate.
  - apply IH.
Qed.

Lemma Next_fuel_le (fuel fuel' : nat) (s : Scanner.t) (w : W) r :
  (fuel <= fuel')%nat ->
  Scanner.Next fuel s w = Some r -> Scanner.Next fuel' s w = Some r.
Proof.
  induction 1 as [|m _ IH]; [auto|]. intros Hn. apply Next_fuel_S, IH, Hn.
Qed.

Lemma All_loop_fuel_S (fuel : nat) :
  forall (s : Scanner.t) (w : W) (acc : list string) r,
    Scanner.All_loop fuel s w acc = Some r ->
    Scanner.All_loop (S fuel) s w acc = Some r.
Proof.
  induction fuel as [|fuel IH]; intros s w acc r; [discriminate|].
  cbn [Scanner.All_loop].
  destruct (Scanner.Next fuel s w) as [[[w1 s1] b]|] eqn:Hn; [|discriminate].
  rewrite (Next_fuel_S _ _ _ _ Hn). destruct b; [|auto].
  intros Ha. apply IH in Ha. exact Ha.
Qed.

Lemma All_loop_fuel_le (fuel fuel' : nat) (s : Scanner.t) (w : W)
    (acc : list string) r :
  (fuel <= fuel')%nat ->
  Scanner.All_loop fuel s w acc = Some r ->
  Scanner.All_loop fuel' s w acc = Some r.
Proof.
  induction 1 as [|m _ IH]; [auto|]. intros Hn. apply All_loop_fuel_S, IH, Hn.
Qed.

(** A key waiting in the buffer is handed out without a word to the
    store. *)
Lemma Next_buffered (fuel : nat) (s : Scanner.t) (w : W) :
  Scanner.done s = false -> Scanner.err s = None -> ctx_Err w = None ->
  Scanner.bufIdx s < Scanner.len (Scanner.buffer s) ->
  Scanner.Next fuel s w
    = Some (w, Scanner.set_bufIdx s (Scanner.bufIdx s + 1), true).
Proof.
  intros Hd He Hc Hi. rewrite Next_unfold, Hd, He, Hc. cbn [Scanner.is_err orb].
  destruct (Z.ltb_spec (Scanner.bufIdx s) (Scanner.len (Scanner.buffer s)));
    [reflexivity|lia].
Qed.

(** [All] hands out what is left of the buffer before it asks for the
    next page. *)
Lemma All_loop_drain (n : nat) :
  forall (s : Scanner.t) (w : W) (acc : list string) (fuel : nat) r,
    Scanner.done s = false -> Scanner.err s = None -> ctx_Err w = None ->
    well_positioned s ->
    n = Z.to_nat (Scanner.len (Scanner.buffer s) - Scanner.bufIdx s) ->
    Scanner.All_loop fuel
      (Scanner.set_bufIdx s (Scanner.len (Scanner.buffer s))) w
      (acc ++ skipn (Z.to_nat (Scanner.bufIdx s)) (Scanner.buffer s)) = Some r ->
    Scanner.All_loop (n + fuel) s w acc = Some r.
Proof.
  induction n as [|n IH]; intros s w acc fuel r Hd He Hc Hw Hn Ha.
  - assert (Hi : Scanner.bufIdx s = Scanner.len (Scanner.buffer s))
      by (unfold well_positioned in Hw; lia).
    rewrite skipn_all2 in Ha by (unfold Scanner.len in Hi; lia).
    rewrite app_nil_r, <- Hi in Ha. destruct s; exact Ha.
  - assert (Hi : Scanner.bufIdx s < Scanner.len (Scanner.buffer s)) by lia.
    cbn [Nat.add Scanner.All_loop].
    rewrite (Next_buffered _ s w Hd He Hc Hi).
    apply IH; try assumption; try reflexivity.
    + unfold well_positioned in *. cbn. lia.
    + cbn. lia.
    + cbn [Scanner.buffer Scanner.bufIdx Scanner.set_bufIdx].
      rewrite <- Ha. f_equal.
      rewrite <- app_assoc. f_equal. unfold well_positioned in Hw.
      rewrite (Key_in_range_nth (Scanner.set_bufIdx s (Scanner.bufIdx s + 1)))
        by (cbn; lia).
      cbn [Scanner.buffer Scanner.bufIdx Scanner.set_bufIdx].
      replace (Scanner.bufIdx s + 1 - 1) with (Scanner.bufIdx s) by lia.
      replace (Z.to_nat (Scanner.bufIdx s + 1))
        with (S (Z.to_nat (Scanner.bufIdx s))) by lia.
      symmetry. apply skipn_nth_cons. unfold Scanner.len in Hi. lia.
Qed.

End ScannerFuel.

(** In a scripted world a page fetch pops the next scan reply, whatever
    the scanner asks for. *)
Lemma Script_fetch (s : Scanner.t) (w : Script.World) :
  exists w1,
    Scanner.fetch s w = (w1, Script.next (Script.scans w)) /\
    Script.ctx w1 = Script.ctx w /\
    Script.scans w1 = Script.rest (Script.scans w) /\
    Script.now w1 = Script.now w.
Proof.
  unfold Scanner.fetch. destruct (negb _); eexists; repeat split.
Qed.

Lemma Next_on_script (s : Scanner.t) (w : Script.World)
    (keys : list string) (cur : Z) (more : list (reply (list string * Z))) :
  Scanner.done s = false -> Scanner.err s = None ->
  Scanner.len (Scanner.buffer s) <= Scanner.bufIdx s ->
  Script.ctx w = None ->
  Script.scans w = Val (keys, cur) :: more ->
  exists w1,
    Script.ctx w1 = None /\ Script.scans w1 = more /\
    Script.now w1 =
      Script.now w + (if Scanner.cursor s >? 0
                      then Z.max 0 (Scanner.BatchDelay (Scanner.opts s))
                      else 0) /\
    (keys <> [] ->
     forall fuel, Scanner.Next fuel s w
                  = Some (w1, Scanner.set_bufIdx (arrived s keys cur) 1, true)) /\
    (keys = [] -> cur = 0 ->
     forall fuel, Scanner.Next fuel s w = Some (w1, arrived s keys cur, false)) /\
    (keys = [] -> cur <> 0 ->
     forall fuel, Scanner.Next (S fuel) s w
                  = Scanner.Next fuel (arrived s keys cur) w1).
Proof.
  intros Hd He Hi Hc Hs.
  set (s0 := Scanner.set_bufIdx (Scanner.set_buffer s []) 0).
  set (w0 := if (Scanner.BatchDelay (Scanner.opts s0) >? 0)
                && (Scanner.cursor s0 >? 0)
             then time_Sleep (Scanner.BatchDelay (Scanner.opts s0)) w
             else w).
  assert (Hw0 : Script.ctx w0 = None /\
                Script.scans w0 = Val (keys, cur) :: more /\
                Script.now w0 =
                  Script.now w + (if Scanner.cursor s >? 0
                                  then Z.max 0 (Scanner.BatchDelay (Scanner.opts s))
                                  else 0)).
  { unfold w0, s0.
    cbn [Scanner.opts Scanner.cursor Scanner.set_bufIdx Scanner.set_buffer].
    destruct (Z.gtb_spec (Scanner.BatchDelay (Scanner.opts s)) 0),
             (Scanner.cursor s >? 0); cbn; repeat split; auto; lia. }
  destruct Hw0 as (Hc0 & Hs0 & Hn0).
  destruct (Script_fetch s0 w0) as (w1 & Hf & Hc1 & Hs1 & Hn1).
  rewrite Hs0 in Hf, Hs1. cbn [Script.next Script.rest] in Hf, Hs1.
  exists w1. split; [congruence|]. split; [exact Hs1|].
  split; [congruence|].
  assert (Hstep : forall fuel,
            Scanner.Next fuel s w =
            let s1 := arrived s keys cur in
            if 0 <? Scanner.len (Scanner.buffer s1)
            then Some (w1, Scanner.set_bufIdx s1 1, true)
            else if negb (Scanner.done s1)
                 then match fuel with
                      | O => None
                      | S fuel' => Scanner.Next fuel' s1 w1
                      end
                 else Some (w1, s1, false)).
  { intros fuel. rewrite Next_unfold, Hd, He. cbn [Scanner.is_err orb].
    change (ctx_Err w) with (Script.ctx w). rewrite Hc.
    destruct (Z.ltb_spec (Scanner.bufIdx s) (Scanner.len (Scanner.buffer s)));
      [lia|].
    cbv zeta. fold s0. fold w0. rewrite Hf. reflexivity. }
  assert (Hbuf : Scanner.buffer (arrived s keys cur) = keys)
    by (unfold arrived; cbv zeta; destruct (cur =? 0); reflexivity).
  assert (Hdone : Scanner.done (arrived s keys cur) = (cur =? 0)).
  { unfold arrived, drained; cbv zeta.
    destruct (cur =? 0); cbn; [reflexivity|exact Hd]. }
  repeat split.
  - intros Hk fuel. rewrite Hstep. cbv zeta. rewrite Hbuf.
    destruct keys; [congruence|]. reflexivity.
  - intros -> -> fuel. rewrite Hstep. cbv zeta. rewrite Hbuf, Hdone. reflexivity.
  - intros -> Hcur fuel. rewrite Hstep. cbv zeta. rewrite Hbuf, Hdone.
    destruct (Z.eqb_spec cur 0); [contradiction|]. reflexivity.
Qed.

Lemma arrived_facts (s : Scanner.t) (keys : list string) (cur : Z) :
  Scanner.err s = None ->
  Scanner.buffer (arrived s keys cur) = keys /\
  Scanner.bufIdx (arrived s keys cur) = 0 /\
  Scanner.err (arrived s keys cur) = None /\
  Scanner.done (arrived s keys cur) = (Scanner.done s || (cur =? 0)) /\
  Scanner.cursor (arrived s keys cur) = cur /\
  Scanner.opts (arrived s keys cur) = Scanner.opts s.
Proof.
  intros He. unfold arrived, drained; cbv zeta.
  destruct (cur =? 0); cbn; rewrite ?orb_true_r, ?orb_false_r; auto 10.
Qed.

Lemma All_loop_paged (last : list string) (pages : list (list string * Z)) :
  Forall (fun p => snd p <> 0) pages ->
  forall (s : Scanner.t) (w : Script.World) (acc : list string),
    Scanner.done s = false -> Scanner.err s = None -> well_positioned s ->
    Script.ctx w = None ->
    Script.scans w = map Val pages ++ [Val (last, 0)] ->
    exists fuel w' s',
      Scanner.All_loop fuel s w acc =
        Some (w', s',
              acc ++ skipn (Z.to_nat (Scanner.bufIdx s)) (Scanner.buffer s)
                  ++ concat (map fst pages) ++ firstn 1 last) /\
      Scanner.err s' = None /\ Script.scans w' = [] /\
      Script.now w' =
        Script.now w
        + Z.max 0 (Scanner.BatchDelay (Scanner.opts s))
          * (Z.of_nat (length (List.filter (fun p => snd p >? 0) pages))
             + (if Scanner.cursor s >? 0 then 1 else 0)).
Proof.
  intros Hnz. induction Hnz as [|[p c] pages Hc _ IH];
    intros s w acc Hd He Hw Hctx Hs.
  - (* the last page *)
    cbn [map app concat] in *.
    set (s0 := Scanner.set_bufIdx s (Scanner.len (Scanner.buffer s))).
    destruct (Next_on_script s0 w last 0 [] Hd He)
      as (w1 & Hc1 & Hs1 & Hn1 & Hne & Hnil & _);
      [cbn; lia|exact Hctx|exact Hs|].
    destruct (arrived_facts s0 last 0 He) as (Hb & Hi & He1 & Hd1 & _).
    assert (Hnow : Script.now w1 =
                   Script.now w
                   + Z.max 0 (Scanner.BatchDelay (Scanner.opts s))
                     * (Z.of_nat (length (List.filter
                                            (fun p : list string * Z => snd p >? 0) []))
                        + (if Scanner.cursor s >? 0 then 1 else 0))).
    { rewrite Hn1. cbn [s0 Scanner.cursor Scanner.opts Scanner.set_bufIdx
        List.filter length].
      destruct (Scanner.cursor s >? 0); lia. }
    destruct last as [|k ks].
    + exists (Z.to_nat (Scanner.len (Scanner.buffer s) - Scanner.bufIdx s) + 1)%nat.
      exists w1, (arrived s0 [] 0). split; [|auto].
      apply All_loop_drain; try assumption; try reflexivity.
      fold s0. cbn [Scanner.All_loop]. rewrite Hnil by reflexivity.
      rewrite !app_nil_r. reflexivity.
    + exists (Z.to_nat (Scanner.len (Scanner.buffer s) - Scanner.bufIdx s) + 2)%nat.
      exists w1, (Scanner.set_bufIdx (arrived s0 (k :: ks) 0) 1).
      split; [|auto].
      apply All_loop_drain; try assumption; try reflexivity.
      fold s0. cbn [Scanner.All_loop]. rewrite Hne by discriminate.
      rewrite Next_latched
        by (left; change (Scanner.done (arrived s0 (k :: ks) 0) = true);
            rewrite Hd1; apply orb_true_r).
      rewrite Key_in_range_nth
        by (cbn [Scanner.buffer Scanner.bufIdx Scanner.set_bufIdx];
            rewrite Hb; unfold Scanner.len; cbn; lia).
      cbn [Scanner.buffer Scanner.bufIdx Scanner.set_bufIdx]. rewrite Hb.
      rewrite <- app_assoc. reflexivity.
  - (* a page before the last *)
    cbn [map app concat fst snd] in *.
    set (s0 := Scanner.set_bufIdx s (Scanner.len (Scanner.buffer s))).
    destruct (Next_on_script s0 w p c (map Val pages ++ [Val (last, 0)]) Hd He)
      as (w1 & Hc1 & Hs1 & Hn1 & Hne & _ & Hskip);
      [cbn; lia|exact Hctx|exact Hs|].
    destruct (arrived_facts s0 p c He) as (Hb & Hi & He1 & Hd1 & Hcu & Ho).
    destruct (Z.eqb_spec c 0) as [|_]; [contradiction|].
    cbn [Scanner.done Scanner.set_bufIdx s0] in Hd1. rewrite Hd in Hd1.
    cbn [orb] in Hd1.
    cbn [s0 Scanner.cursor Scanner.opts Scanner.set_bufIdx] in Hn1, Ho.
    assert (Hnow : forall t',
              t' = Script.now w1
                   + Z.max 0 (Scanner.BatchDelay (Scanner.opts s))
                     * (Z.of_nat (length (List.filter
                                            (fun p : list string * Z => snd p >? 0)
                                            pages))
                        + (if c >? 0 then 1 else 0)) ->
              t' = Script.now w
                   + Z.max 0 (Scanner.BatchDelay (Scanner.opts s))
                     * (Z.of_nat (length (List.filter
                                            (fun p : list string * Z => snd p >? 0)
                                            ((p, c) :: pages)))
                        + (if Scanner.cursor s >? 0 then 1 else 0))).
    { intros t' ->. rewrite Hn1. cbn [List.filter snd].
      destruct (c >? 0); cbn [length]; destruct (Scanner.cursor s >? 0); lia. }
    destruct p as [|k ks].
    + destruct (IH (arrived s0 [] c) w1
                  (acc ++ skipn (Z.to_nat (Scanner.bufIdx s)) (Scanner.buffer s)))
        as (fuel & w' & s' & Ha & He' & Hs' & Hn'); try assumption.
      { unfold well_positioned. rewrite Hi, Hb. unfold Scanner.len. cbn. lia. }
      rewrite Hi, Hb in Ha. rewrite Ho, Hcu in Hn'.
      change (skipn (Z.to_nat 0) (@nil string)) with (@nil string) in Ha.
      cbn [app] in Ha.
      destruct fuel as [|fuel]; [discriminate|].
      exists (Z.to_nat (Scanner.len (Scanner.buffer s) - Scanner.bufIdx s)
              + S (S fuel))%nat, w', s'.
      split; [|auto].
      apply All_loop_drain; try assumption; try reflexivity.
      fold s0. cbn [app]. rewrite app_assoc, <- Ha.
      cbn [Scanner.All_loop]. rewrite Hskip by auto.
      destruct (Scanner.Next fuel (arrived s0 [] c) w1) as [[[w2 s2] b]|] eqn:Hn;
        [|reflexivity].
      destruct b; [|reflexivity].
      cbn [Scanner.All_loop] in Ha. rewrite Hn in Ha.
      rewrite Ha. apply All_loop_fuel_S. exact Ha.
    + destruct (IH (Scanner.set_bufIdx (arrived s0 (k :: ks) c) 1) w1
                  ((acc ++ skipn (Z.to_nat (Scanner.bufIdx s)) (Scanner.buffer s))
                   ++ [k]))
        as (fuel & w' & s' & Ha & He' & Hs' & Hn'); try assumption.
      { unfold well_positioned.
        cbn [Scanner.buffer Scanner.bufIdx Scanner.set_bufIdx].
        rewrite Hb. unfold Scanner.len. cbn. lia. }
      cbn [Scanner.buffer Scanner.bufIdx Scanner.cursor Scanner.opts
           Scanner.set_bufIdx] in Ha, Hn'.
      rewrite Hb in Ha. rewrite Ho, Hcu in Hn'.
      change (skipn (Z.to_nat 1) (k :: ks)) with ks in Ha.
      exists (Z.to_nat (Scanner.len (Scanner.buffer s) - Scanner.bufIdx s)
              + S fuel)%nat, w', s'.
      split; [|auto].
      apply All_loop_drain; try assumption; try reflexivity.
      fold s0. cbn [Scanner.All_loop]. rewrite Hne by discriminate.
      rewrite Key_in_range_nth
        by (cbn [Scanner.buffer Scanner.bufIdx Scanner.set_bufIdx];
            rewrite Hb; unfold Scanner.len; cbn; lia).
      cbn [Scanner.buffer Scanner.bufIdx Scanner.set_bufIdx]. rewrite Hb.
      change (nth (Z.to_nat (1 - 1)) (k :: ks) "") with k.
      rewrite Ha. rewrite <- !app_assoc. reflexivity.
Qed.

Lemma enumerate_paged (last : list string) (pages : list (list string * Z)) :
  Forall (fun p => snd p <> 0) pages ->
  forall (fuel : nat) (s : Scanner.t) (cur : Z) (w : Script.World),
    (length pages <= fuel)%nat ->
    Script.scans w = map Val pages ++ [Val (last, 0)] ->
    enumerate fuel s cur w = Some (Val (concat (map fst pages) ++ last)).
Proof.
  intros Hnz. induction Hnz as [|[p c] pages Hc _ IH];
    intros fuel s cur w Hf Hs;
    destruct (Script_fetch (Scanner.set_cursor s cur) w)
      as (w1 & Hfe & _ & Hs1 & _);
    rewrite Hs in Hfe, Hs1; cbn [map app Script.next Script.rest] in Hfe, Hs1.
  - destruct fuel; cbn [enumerate]; rewrite Hfe; reflexivity.
  - destruct fuel as [|fuel]; [cbn in Hf; lia|].
    cbn [enumerate]. rewrite Hfe. cbn [snd] in Hc.
    destruct (Z.eqb_spec c 0); [contradiction|].
    rewrite (IH fuel s c w1) by (cbn in Hf; lia || exact Hs1).
    cbn [map fst concat]. rewrite <- app_assoc. reflexivity.
Qed.

(** X1: [Count] walks the scan exactly as [All] does and returns the
    number of keys [All] returns (as a Go [int]), with the same error, the
    same final scanner and the same world. *)
Theorem Count_counts_the_keys_of_All :
  forall (W : Type) (HW : Rdb W) (fuel : nat) (s : Scanner.t) (w : W),
    Scanner.Count_ fuel s w =
    match Scanner.All fuel s w with
    | None => None
    | Some (w', s', (keys, e)) =>
        Some (w', s', (wrap64 (Scanner.len keys), e))
    end.
Proof.
  intros W HW fuel s w. unfold Scanner.Count_, Scanner.All.
  change 0 with (wrap64 (Scanner.len (@nil string))).
  rewrite Count_loop_All_loop.
  destruct (Scanner.All_loop fuel s w []) as [[[w' s'] keys]|]; reflexivity.
Qed.

(** X2: [Each] hands the callback the keys [All] would return, in the same
    order, and stops right after the first key for which the callback
    answers false: the callback is not called again.  When the callback
    never answers false, [Each] ends as [All] does (same world, scanner and
    error); when it stops early it returns no error. *)
Theorem Each_visits_the_keys_of_All_until_false :
  forall (W : Type) (HW : Rdb W) (fuel : nat) (s s' : Scanner.t) (w w' : W)
         (keys : list string) (e : option error) (p : string -> bool),
    Scanner.All fuel s w = Some (w', s', (keys, e)) ->
    exists w2 s2 e2,
      Scanner.Each fuel (visit p) s w []
        = Some (w2, s2, stop_after p keys, e2) /\
      (forallb p keys = true -> w2 = w' /\ s2 = s' /\ e2 = e) /\
      (forallb p keys = false -> e2 = None).
Proof.
  intros W HW fuel s s' w w' keys e p. unfold Scanner.All, Scanner.Each.
  destruct (Scanner.All_loop fuel s w []) as [[[w1 s1] keys1]|] eqn:Ha;
    [|discriminate].
  intros [= <- <- <- <-].
  destruct (Each_loop_All_loop p _ _ _ _ _ _ _ Ha)
    as (rest & w2 & s2 & Hk & He & Ht & Hf).
  cbn [app] in Hk, He. subst rest. rewrite He.
  exists w2, s2, (Scanner.Err s2). split; [reflexivity|]. split.
  - intros Hp. destruct (Ht Hp) as [-> ->]. auto.
  - exact Hf.
Qed.

Lemma Each_visits_the_keys_of_All_until_false_witness :
  exists w2 s2 e2,
    Scanner.Each 5 (visit (fun k => negb (String.eqb k "a")))
      (Scanner.Blusukan 1%N (Sample.scan_opts 1)) Sample.store_abc []
      = Some (w2, s2, ["c"; "a"], e2).
Proof.
  assert (Hall : exists w' s',
            Scanner.All 5 (Scanner.Blusukan 1%N (Sample.scan_opts 1))
              Sample.store_abc
            = Some (w', s', (["c"; "a"; "b"], None)))
    by (do 2 eexists; vm_compute; reflexivity).
  destruct Hall as (w' & s' & Hall).
  destruct (Each_visits_the_keys_of_All_until_false Mem.MemWorld _ 5 _ _ _ _
              _ _ (fun k => negb (String.eqb k "a")) Hall)
    as (w2 & s2 & e2 & He & _).
  exists w2, s2, e2. exact He.
Defined.

(** X3: the position of a scanner never leaves its buffer, and after a
    [Next] that answered true it is on a key of the buffer: [Key] returns
    that key, not its fallback. *)
Theorem Next_stays_within_the_page :
  forall (W : Type) (HW : Rdb W) (fuel : nat) (s s' : Scanner.t) (w w' : W)
         (b : bool),
    well_positioned s ->
    Scanner.Next fuel s w = Some (w', s', b) ->
    well_positioned s' /\
    (b = true ->
     0 < Scanner.bufIdx s' /\
     nth_error (Scanner.buffer s') (Z.to_nat (Scanner.bufIdx s' - 1))
       = Some (Scanner.Key s')).
Proof. intros W HW fuel. apply Next_positions. Qed.

Lemma Next_stays_within_the_page_witness :
  well_positioned (Scanner.Blusukan 1%N (Sample.scan_opts 1)) /\
  exists w' s',
    Scanner.Next 0 (Scanner.Blusukan 1%N (Sample.scan_opts 1))
      Sample.store_abc = Some (w', s', true) /\
    well_positioned s' /\
    nth_error (Scanner.buffer s') (Z.to_nat (Scanner.bufIdx s' - 1))
      = Some (Scanner.Key s').
Proof.
  assert (Hw : well_positioned (Scanner.Blusukan 1%N (Sample.scan_opts 1)))
    by (vm_compute; split; discriminate).
  split; [exact Hw|].
  assert (Hn : exists w' s',
            Scanner.Next 0 (Scanner.Blusukan 1%N (Sample.scan_opts 1))
              Sample.store_abc = Some (w', s', true))
    by (do 2 eexists; vm_compute; reflexivity).
  destruct Hn as (w' & s' & Hn). exists w', s'. split; [exact Hn|].
  destruct (Next_stays_within_the_page Mem.MemWorld _ 0 _ _ _ _ _ Hw Hn)
    as [Hw' Hk].
  split; [exact Hw'|]. apply Hk. reflexivity.
Defined.

(** X4: when the store answers a scan with the pages [pages] (cursor not
    yet back at 0) followed by the page [last] (cursor 0), the scan has
    handed out the keys of all of them, and [All] returns the keys of
    [pages], empty pages skipped, followed by the first key of [last]
    only. *)
Theorem All_keeps_one_key_of_the_last_page :
  forall (c : Client) (o : Scanner.ScanOptions) (t : time_Time)
         (pages : list (list string * Z)) (last : list string),
    Forall (fun p => snd p <> 0) pages ->
    exists fuel0, forall fuel, (fuel0 <= fuel)%nat ->
      enumerate fuel (Scanner.Blusukan c o) 0 (paged t (pages ++ [(last, 0)]))
        = Some (Val (concat (map fst pages) ++ last)) /\
      exists w' s',
        Scanner.All fuel (Scanner.Blusukan c o)
          (paged t (pages ++ [(last, 0)]))
          = Some (w', s', (concat (map fst pages) ++ firstn 1 last, None)) /\
        Script.scans w' = [].
Proof.
  intros c o t pages last Hnz.
  destruct (Blusukan_fresh c o) as (o' & Hs & _).
  destruct (All_loop_paged last pages Hnz (Scanner.Blusukan c o)
              (paged t (pages ++ [(last, 0)])) [])
    as (fuel0 & w' & s' & Ha & He & Hw & _);
    try (rewrite Hs; reflexivity); try reflexivity.
  { rewrite Hs. unfold well_positioned, Scanner.len. cbn. lia. }
  { unfold paged. cbn [Script.scans]. rewrite map_app. reflexivity. }
  exists (fuel0 + length pages)%nat. intros fuel Hf. split.
  - apply enumerate_paged; [exact Hnz|lia|].
    unfold paged. cbn [Script.scans]. rewrite map_app. reflexivity.
  - exists w', s'. split; [|exact Hw]. unfold Scanner.All.
    rewrite (All_loop_fuel_le fuel0 fuel _ _ _ _ ltac:(lia) Ha).
    unfold Scanner.Err. rewrite He. rewrite Hs. reflexivity.
Qed.

Lemma All_keeps_one_key_of_the_last_page_witness :
  Forall (fun p : list string * Z => snd p <> 0) [(["a"; "b"], 7); ([], 9)] /\
  exists fuel0, forall fuel, (fuel0 <= fuel)%nat ->
    enumerate fuel (Scanner.Blusukan 1%N (Sample.scan_opts 2)) 0
      (paged 0 ([(["a"; "b"], 7); ([], 9)] ++ [(["c"; "d"], 0)]))
      = Some (Val (concat (map fst [(["a"; "b"], 7); ([], 9)]) ++ ["c"; "d"])) /\
    exists w' s',
      Scanner.All fuel (Scanner.Blusukan 1%N (Sample.scan_opts 2))
        (paged 0 ([(["a"; "b"], 7); ([], 9)] ++ [(["c"; "d"], 0)]))
        = Some (w', s',
                (concat (map fst [(["a"; "b"], 7); ([], 9)])
                   ++ firstn 1 ["c"; "d"], None)) /\
      Script.scans w' = [].
Proof.
  assert (Hnz : Forall (fun p : list string * Z => snd p <> 0)
                  [(["a"; "b"], 7); ([], 9)])
    by (repeat constructor; cbn; lia).
  split; [exact Hnz|].
  exact (All_keeps_one_key_of_the_last_page 1%N (Sample.scan_opts 2) 0
           [(["a"; "b"], 7); ([], 9)] ["c"; "d"] Hnz).
Defined.

(** X5: [All] pauses between pages and nowhere else.  With a positive
    [BatchDelay] it sleeps that long before every page fetch but the
    first, so that a scan of [n + 1] pages has slept [n] times when it
    ends; with a delay of zero or less it does not sleep at all. *)
Theorem All_pauses_between_pages :
  forall (c : Client) (o : Scanner.ScanOptions) (t : time_Time)
         (pages : list (list string * Z)) (last : list string),
    Forall (fun p => 0 < snd p) pages ->
    exists fuel0, forall fuel, (fuel0 <= fuel)%nat ->
      exists w' s' keys,
        Scanner.All fuel (Scanner.Blusukan c o)
          (paged t (pages ++ [(last, 0)])) = Some (w', s', keys) /\
        Script.now w' =
          t + Z.max 0 (Scanner.BatchDelay o) * Z.of_nat (length pages).
Proof.
  intros c o t pages last Hpos.
  assert (Hnz : Forall (fun p : list string * Z => snd p <> 0) pages)
    by (eapply Forall_impl; [exact Hpos|]; cbn beta; intros p Hp; lia).
  destruct (Blusukan_fresh c o) as (o' & Hs & Ho).
  destruct (All_loop_paged last pages Hnz (Scanner.Blusukan c o)
              (paged t (pages ++ [(last, 0)])) [])
    as (fuel0 & w' & s' & Ha & He & _ & Hn);
    try (rewrite Hs; reflexivity); try reflexivity.
  { rewrite Hs. unfold well_positioned, Scanner.len. cbn. lia. }
  { unfold paged. cbn [Script.scans]. rewrite map_app. reflexivity. }
  exists fuel0. intros fuel Hf. exists w', s'. eexists. split.
  - unfold Scanner.All.
    rewrite (All_loop_fuel_le fuel0 fuel _ _ _ _ Hf Ha). reflexivity.
  - rewrite Hn, Hs. cbn [Scanner.opts Scanner.cursor paged Script.now].
    rewrite Ho. replace (List.filter (fun p : list string * Z => snd p >? 0) pages)
      with pages; [cbn; lia|].
    clear -Hpos. induction Hpos as [|p l Hp _ IH]; [reflexivity|].
    cbn [List.filter]. destruct (Z.gtb_spec (snd p) 0); [|lia].
    f_equal. exact IH.
Qed.

Lemma All_pauses_between_pages_witness :
  Forall (fun p : list string * Z => 0 < snd p) [(["a"; "b"], 7); ([], 9)] /\
  exists fuel0, forall fuel, (fuel0 <= fuel)%nat ->
    exists w' s' keys,
      Scanner.All fuel
        (Scanner.Blusukan 1%N
           {| Scanner.Pattern := ""; Scanner.Count := 2;
              Scanner.BatchDelay := Second; Scanner.Type_ := "" |})
        (paged 0 ([(["a"; "b"], 7); ([], 9)] ++ [(["c"; "d"], 0)]))
        = Some (w', s', keys) /\
      Script.now w' = 0 + Z.max 0 Second * Z.of_nat 2.
Proof.
  assert (Hpos : Forall (fun p : list string * Z => 0 < snd p)
                   [(["a"; "b"], 7); ([], 9)])
    by (repeat constructor).
  split; [exact Hpos|].
  exact (All_pauses_between_pages 1%N
           {| Scanner.Pattern := ""; Scanner.Count := 2;
              Scanner.BatchDelay := Second; Scanner.Type_ := "" |} 0
           [(["a"; "b"], 7); ([], 9)] ["c"; "d"] Hpos).
Defined.

(** ** The limiter on the reference store, and its cluster twin *)

Lemma tick_forever (w : Mem.MemWorld) :
  Mem.ctx_budget w = None -> Mem.tick w = w.
Proof. destruct w as [t b d]. cbn. intros ->. reflexivity. Qed.

Lemma command_forever {A} (w : Mem.MemWorld)
    (f : Mem.MemWorld -> Mem.MemWorld * reply A) :
  Mem.ctx_budget w = None -> Mem.command w f = f w.
Proof.
  intros Hb. unfold Mem.command, Mem.cancelled. rewrite Hb.
  rewrite tick_forever by exact Hb. reflexivity.
Qed.

Lemma counter_live (w : Mem.MemWorld) (c : Client) (k : string) (v : Z)
    (x : time_Time) :
  Mem.data w !! (c, k) = Some {| Mem.e_val := itoa v; Mem.e_exp := Some x |} ->
  Mem.clock w < x ->
  counter w c k = Some v.
Proof.
  intros Hd Hx. unfold counter. rewrite live_unfold, Hd. cbn [Mem.e_exp].
  destruct (Z.ltb_spec (Mem.clock w) x); [|lia]. cbn [Mem.e_val].
  apply atoi_itoa.
Qed.

(** X6: [Reset] deletes the counter of the current window and nothing
    else, and the next check for the identity in that window starts from
    zero: a check for [n] units is decided on count [n]. *)
Theorem Reset_then_AllowN_starts_afresh :
  forall (rl : RateLimiter.t) (id k : string) (n : Z) (w : Mem.MemWorld)
         (t' : time_Time),
    Mem.ctx_budget w = None ->
    Second <= Window (RateLimiter.config rl) ->
    RateLimiter.buildKey rl id (Mem.clock w) = Ret k ->
    RateLimiter.buildKey rl id t' = Ret k ->
    in_int64 n ->
    exists w1 w2,
      RateLimiter.Reset rl id w = (w1, Ret None) /\
      Mem.data w1 = delete (RateLimiter.client rl, k) (Mem.data w) /\
      RateLimiter.AllowN rl id n (Mem.set_clock t' w1) =
        (w2, Ret (Some (RateLimiter.decide_result (RateLimiter.config rl) t' n
                          (Window (RateLimiter.config rl))), None)).
Proof.
  intros rl id k n w t' Hb Hw Hk Hk' Hn.
  unfold RateLimiter.Reset. cbn [time_Now Mem.MemWorld_Rdb]. rewrite Hk.
  cbn [rdb_Del Mem.MemWorld_Rdb]. unfold Mem.mem_Del.
  rewrite command_forever by exact Hb.
  set (w1 := Mem.set_data (delete (RateLimiter.client rl, k) (Mem.data w)) w).
  destruct (AllowN_on_Mem rl id k n 0 (Mem.set_clock t' w1))
    as (w2 & Ha & _); try assumption.
  - unfold counter. rewrite live_unfold.
    cbn [Mem.set_clock Mem.set_data Mem.data w1]. rewrite lookup_delete_eq.
    reflexivity.
  - exists w1, w2. cbn [reply_err]. repeat split. exact Ha.
Qed.

Lemma Reset_then_AllowN_starts_afresh_witness :
  exists w1 w2,
    RateLimiter.Reset Sample.limiter "u1" Sample.world_no_expiry
      = (w1, Ret None) /\
    RateLimiter.AllowN Sample.limiter "u1" 1
      (Mem.set_clock (1700000000 * Second + 5) w1)
      = (w2, Ret (Some {| Allowed := true; Remaining := 1;
                          ResetAt := 1700000000 * Second + 5 + Minute;
                          RetryAfter := 0 |}, None)).
Proof.
  assert (Hb : Mem.ctx_budget Sample.world_no_expiry = None) by reflexivity.
  assert (Hw : Second <= Window (RateLimiter.config Sample.limiter))
    by (vm_compute; discriminate).
  assert (Hk : RateLimiter.buildKey Sample.limiter "u1"
                 (Mem.clock Sample.world_no_expiry)
               = Ret "ratelimit:u1:28333333") by (vm_compute; reflexivity).
  assert (Hk' : RateLimiter.buildKey Sample.limiter "u1"
                  (1700000000 * Second + 5)
                = Ret "ratelimit:u1:28333333") by (vm_compute; reflexivity).
  assert (Hn : in_int64 1) by (vm_compute; split; discriminate).
  destruct (Reset_then_AllowN_starts_afresh Sample.limiter "u1"
              "ratelimit:u1:28333333" 1 Sample.world_no_expiry
              (1700000000 * Second + 5) Hb Hw Hk Hk' Hn)
    as (w1 & w2 & Hr & _ & Ha).
  exists w1, w2. split; [exact Hr|exact Ha].
Defined.

(** X7: a denied check is counted all the same.  On a counter at [v], a
    check for [n] units that goes over the rate is denied and leaves the
    counter at [v + n]; the single-unit check that follows is decided on
    [v + n + 1] and denied too, also when [v + 1] was within the rate. *)
Theorem denied_check_still_consumes :
  forall (rl : RateLimiter.t) (id k : string) (n v : Z) (w : Mem.MemWorld),
    let cfg := RateLimiter.config rl in
    Mem.ctx_budget w = None ->
    Second <= Window cfg ->
    RateLimiter.buildKey rl id (Mem.clock w) = Ret k ->
    counter w (RateLimiter.client rl) k = Some v ->
    0 <= v -> 0 <= n -> v + n < max_int64 ->
    Rate cfg < v + n ->
    exists r1 r2,
      snd (check_all rl [(id, n, fun w => w); (id, 1, fun w => w)] w)
        = [Ret (Some r1, None); Ret (Some r2, None)] /\
      Allowed r1 = false /\ Allowed r2 = false /\
      r1 = RateLimiter.decide_result cfg (Mem.clock w) (v + n) (Window cfg) /\
      r2 = RateLimiter.decide_result cfg (Mem.clock w) (v + n + 1) (Window cfg).
Proof.
  intros rl id k n v w cfg Hb Hw Hk Hc Hv Hn Hmax Hr.
  unfold max_int64, min_int64 in *.
  destruct (AllowN_on_Mem rl id k n v w Hb Hw Hk Hc)
    as (w1 & Ha1 & Hc1 & Hb1 & Hd1); [unfold max_int64, min_int64; lia|].
  destruct (AllowN_on_Mem rl id k 1 (v + n) w1 Hb1 Hw)
    as (w2 & Ha2 & _); [rewrite Hc1; exact Hk| |unfold max_int64, min_int64; lia|].
  { eapply counter_live; [rewrite Hd1; apply lookup_insert_eq|].
    unfold Second in Hw. fold cfg in Hw. rewrite Hc1. fold cfg. lia. }
  do 2 eexists. cbn [check_all]. rewrite Ha1, Ha2. cbn [snd].
  rewrite Hc1. fold cfg. split; [reflexivity|].
  unfold RateLimiter.decide_result. cbn [Allowed].
  repeat split; apply Z.leb_gt; lia.
Qed.

Lemma denied_check_still_consumes_witness :
  exists r1 r2,
    snd (check_all Sample.limiter
           [("u1", 3, fun w => w); ("u1", 1, fun w => w)] Sample.world)
      = [Ret (Some r1, None); Ret (Some r2, None)] /\
    Allowed r1 = false /\ Allowed r2 = false.
Proof.
  assert (Hb : Mem.ctx_budget Sample.world = None) by reflexivity.
  assert (Hw : Second <= Window (RateLimiter.config Sample.limiter))
    by (vm_compute; discriminate).
  assert (Hk : RateLimiter.buildKey Sample.limiter "u1"
                 (Mem.clock Sample.world)
               = Ret "ratelimit:u1:28333333") by (vm_compute; reflexivity).
  assert (Hc : counter Sample.world (RateLimiter.client Sample.limiter)
                 "ratelimit:u1:28333333" = Some 0)
    by (vm_compute; reflexivity).
  destruct (denied_check_still_consumes Sample.limiter "u1"
              "ratelimit:u1:28333333" 3 0 Sample.world Hb Hw Hk Hc
              ltac:(lia) ltac:(lia) ltac:(vm_compute; reflexivity)
              ltac:(vm_compute; reflexivity))
    as (r1 & r2 & Hr & H1 & H2 & _).
  exists r1, r2. auto.
Defined.

(** X8: every check re-arms the expiry of its counter.  Whatever the
    counter held and however long ago it was created, a check that
    succeeds reports [ResetAt] a whole window from now and leaves the
    counter to expire then; a denied one reports [RetryAfter] the whole
    window. *)
Theorem check_rearms_the_window :
  forall (rl : RateLimiter.t) (id k : string) (n v : Z) (w : Mem.MemWorld),
    let cfg := RateLimiter.config rl in
    Mem.ctx_budget w = None ->
    Second <= Window cfg ->
    RateLimiter.buildKey rl id (Mem.clock w) = Ret k ->
    counter w (RateLimiter.client rl) k = Some v ->
    in_int64 (v + n) ->
    exists w' r,
      RateLimiter.AllowN rl id n w = (w', Ret (Some r, None)) /\
      ResetAt r = Mem.clock w + Window cfg /\
      (Allowed r = false -> RetryAfter r = Window cfg) /\
      Mem.data w' !! (RateLimiter.client rl, k) =
        Some {| Mem.e_val := itoa (v + n);
                Mem.e_exp := Some (Mem.clock w + Window cfg) |}.
Proof.
  intros rl id k n v w cfg Hb Hw Hk Hc Hr.
  destruct (AllowN_on_Mem rl id k n v w Hb Hw Hk Hc Hr)
    as (w' & Ha & _ & _ & Hd).
  do 2 eexists. split; [exact Ha|]. fold cfg. unfold Second in Hw.
  unfold RateLimiter.decide_result, Time_Add.
  cbn [ResetAt Allowed RetryAfter].
  destruct (Z.ltb_spec (Window cfg) 0); [lia|].
  split; [reflexivity|]. split.
  - intros ->. reflexivity.
  - rewrite Hd. apply lookup_insert_eq.
Qed.

Lemma check_rearms_the_window_witness :
  exists w' r,
    RateLimiter.AllowN Sample.limiter "u1" 1 Sample.world_no_expiry
      = (w', Ret (Some r, None)) /\
    ResetAt r = 1700000000 * Second + Minute /\
    (Allowed r = false -> RetryAfter r = Minute).
Proof.
  assert (Hb : Mem.ctx_budget Sample.world_no_expiry = None) by reflexivity.
  assert (Hw : Second <= Window (RateLimiter.config Sample.limiter))
    by (vm_compute; discriminate).
  assert (Hk : RateLimiter.buildKey Sample.limiter "u1"
                 (Mem.clock Sample.world_no_expiry)
               = Ret "ratelimit:u1:28333333") by (vm_compute; reflexivity).
  assert (Hc : counter Sample.world_no_expiry
                 (RateLimiter.client Sample.limiter)
                 "ratelimit:u1:28333333" = Some 7)
    by (vm_compute; reflexivity).
  assert (Hr : in_int64 (7 + 1)) by (vm_compute; split; discriminate).
  destruct (check_rearms_the_window Sample.limiter "u1"
              "ratelimit:u1:28333333" 1 7 Sample.world_no_expiry
              Hb Hw Hk Hc Hr)
    as (w' & r & Ha & Ht & Hd & _).
  exists w', r. split; [exact Ha|]. split; [exact Ht|exact Hd].
Defined.

(** X9: the cluster limiter is the single-node limiter on another handle:
    built from the same client number and configuration the two hold the
    same settings, derive the same counter keys and, from the same world,
    [AllowN] and [Allow] return the same outcome and leave the same
    world. *)
Theorem cluster_limiter_agrees :
  forall (W : Type) (HW : Rdb W) (c : Client) (cfg : RateLimitConfig)
         (key : string) (n : Z) (t : time_Time) (w : W),
    let rl := RateLimiter.NewRateLimiter c cfg in
    let crl := ClusterRateLimiter.NewClusterRateLimiter c cfg in
    ClusterRateLimiter.client crl = RateLimiter.client rl /\
    ClusterRateLimiter.config crl = RateLimiter.config rl /\
    ClusterRateLimiter.buildKey crl key t = RateLimiter.buildKey rl key t /\
    ClusterRateLimiter.AllowN crl key n w = RateLimiter.AllowN rl key n w /\
    ClusterRateLimiter.Allow crl key w = RateLimiter.Allow rl key w.
Proof.
  intros W HW c cfg key n t w rl crl. repeat split.
Qed.

(** ** A migration on the reference store *)

Lemma page_whole (keys : list string) (cursor : Z) :
  0 <= cursor ->
  Mem.page keys cursor 100 =
    (firstn 100 (skipn (Z.to_nat cursor) keys),
     if cursor + 100 <? Z.of_nat (length keys) then cursor + 100 else 0).
Proof. reflexivity. Qed.

Lemma scanAllKeys_loop_on_Mem (c : Client) (pattern : string)
    (w : Mem.MemWorld) (fuel : nat) :
  Mem.ctx_budget w = None ->
  forall (cursor : Z) (acc : list string),
    0 <= cursor ->
    Z.of_nat (length (Mem.keyspace w c pattern)) - cursor
      <= 100 * (Z.of_nat fuel + 1) ->
    Migration.scanAllKeys_loop fuel c pattern cursor acc w
      = Some (w, Val (acc ++ skipn (Z.to_nat cursor) (Mem.keyspace w c pattern))).
Proof.
  intros Hb. induction fuel as [|fuel IH]; intros cursor acc Hc Hlen;
    cbn [Migration.scanAllKeys_loop rdb_Scan Mem.MemWorld_Rdb];
    unfold Mem.mem_Scan; rewrite command_forever by exact Hb;
    rewrite page_whole by exact Hc;
    set (ks := Mem.keyspace w c pattern) in *;
    (destruct (Z.ltb_spec (cursor + 100) (Z.of_nat (length ks))) as [Hlt|Hge];
     [destruct (Z.eqb_spec (cursor + 100) 0); [lia|]
     |cbn [Z.eqb]; rewrite firstn_all2 by (rewrite length_skipn; lia);
      reflexivity]).
  - lia.
  - rewrite IH by lia. rewrite <- app_assoc.
    replace (Z.to_nat (cursor + 100)) with (100 + Z.to_nat cursor)%nat by lia.
    rewrite <- skipn_skipn, firstn_skipn. reflexivity.
Qed.

Lemma keyspace_spec (w : Mem.MemWorld) (c : Client) (pattern k : string) :
  In k (Mem.keyspace w c pattern) <->
  is_Some (Mem.data w !! (c, k)) /\ Mem.glob pattern k = true.
Proof.
  unfold Mem.keyspace. rewrite <- list_elem_of_In, list_elem_of_omap. split.
  - intros ([[c' k'] e] & Hin & Hf). apply elem_of_map_to_list in Hin.
    destruct (N.eqb_spec c' c) as [->|]; [|discriminate].
    destruct (Mem.glob pattern k') eqn:Hg; [|discriminate].
    cbn in Hf. injection Hf as ->. split; [eexists; exact Hin|exact Hg].
  - intros [[e He] Hg]. exists ((c, k), e). split.
    + apply elem_of_map_to_list. exact He.
    + rewrite N.eqb_refl, Hg. reflexivity.
Qed.

Lemma keyspace_NoDup (w : Mem.MemWorld) (c : Client) (pattern : string) :
  NoDup (Mem.keyspace w c pattern).
Proof.
  unfold Mem.keyspace.
  pose proof (NoDup_fst_map_to_list (Mem.data w)) as Hnd.
  induction (map_to_list (Mem.data w)) as [|[[c' k'] e] l IH];
    [constructor|].
  cbn [fmap list_fmap fst] in Hnd. apply NoDup_cons in Hnd.
  destruct Hnd as [Hnotin Hnd]. cbn [omap list_omap].
  destruct (N.eqb_spec c' c) as [->|]; cbn [andb]; [|apply IH, Hnd].
  destruct (Mem.glob pattern k'); [|apply IH, Hnd].
  apply NoDup_cons. split; [|apply IH, Hnd].
  intros Hin. apply Hnotin. apply list_elem_of_omap in Hin.
  destruct Hin as ([[c2 k2] e2] & Hin & Hf).
  destruct (N.eqb_spec c2 c) as [->|]; [|discriminate].
  destruct (Mem.glob pattern k2); [|discriminate].
  cbn in Hf. injection Hf as ->.
  apply list_elem_of_fmap. exists ((c, k'), e2). split; [reflexivity|exact Hin].
Qed.

Section MigrateOnMem.
Variables (src dst : Client) (opts : Migration.MigrateOptions Mem.MemWorld).
Variable w0 : Mem.MemWorld.
Hypothesis Hbudget : Mem.ctx_budget w0 = None.
Hypothesis Hclients : src <> dst.
Hypothesis Hquiet : quiet_callbacks opts.

Lemma source_kept_live (d : gmap (Client * string) Mem.entry) (k : string) :
  source_kept src w0 d -> Mem.live (Mem.set_data d w0) src k = Mem.live w0 src k.
Proof.
  intros Hd. rewrite !live_unfold. cbn [Mem.set_data Mem.data Mem.clock].
  rewrite Hd. reflexivity.
Qed.

Lemma source_kept_copy_key (d : gmap (Client * string) Mem.entry) (k : string) :
  source_kept src w0 d -> source_kept src w0 (copy_key opts src dst w0 d k).
Proof.
  intros Hd k'. unfold copy_key. destruct (Mem.live w0 src k); [|apply Hd].
  rewrite lookup_insert_ne by congruence. apply Hd.
Qed.

Lemma budget_set_data (d : gmap (Client * string) Mem.entry) :
  Mem.ctx_budget (Mem.set_data d w0) = None.
Proof. exact Hbudget. Qed.

(** One key: a key the source can read is written to the destination; one
    it cannot read fails at the read, and nothing is written. *)
Lemma migrateKey_on_Mem (d : gmap (Client * string) Mem.entry) (key : string) :
  source_kept src w0 d ->
  Migration.migrateKey src dst key opts (Mem.set_data d w0) =
    (Mem.set_data (copy_key opts src dst w0 d key) w0,
     if is_live w0 src key then None
     else Some (ErrWrap "get failed" Mem.redis_Nil)).
Proof.
  intros Hd. unfold Migration.migrateKey, copy_key, is_live.
  cbn [rdb_Get rdb_TTL rdb_Set Mem.MemWorld_Rdb].
  unfold Mem.mem_Get. rewrite command_forever by apply budget_set_data.
  rewrite source_kept_live by exact Hd.
  destruct (Mem.live w0 src key) as [e|] eqn:Hl; [|reflexivity].
  unfold migrated_entry.
  destruct (Migration.PreserveTTL opts).
  - unfold Mem.mem_TTL. rewrite command_forever by apply budget_set_data.
    rewrite source_kept_live, Hl by exact Hd.
    rewrite live_unfold in Hl.
    destruct (Mem.data w0 !! (src, key)) as [e'|]; [|discriminate].
    destruct (Mem.e_exp e') as [x|] eqn:Hx.
    + destruct (Z.ltb_spec (Mem.clock w0) x) as [Hlt|]; [|discriminate].
      injection Hl as <-. rewrite Hx.
      cbn [Mem.set_data Mem.clock].
      destruct (Z.ltb_spec (x - Mem.clock w0) 0); [lia|].
      unfold Mem.mem_Set. rewrite command_forever by apply budget_set_data.
      rewrite expiry_after_Set_pos by lia.
      cbn [Mem.set_data Mem.clock Mem.data Mem.ctx_budget].
      replace (Mem.clock w0 + (x - Mem.clock w0)) with x by lia.
      reflexivity.
    + injection Hl as <-. rewrite Hx. cbn [Z.ltb Z.compare].
      unfold Mem.mem_Set. rewrite command_forever by apply budget_set_data.
      reflexivity.
  - destruct (Z.gtb_spec (Migration.TTL opts) 0) as [Ht|Ht];
      unfold Mem.mem_Set; rewrite command_forever by apply budget_set_data.
    + rewrite expiry_after_Set_pos by lia. reflexivity.
    + reflexivity.
Qed.

Lemma tally_nil (r : Migration.MigrateResult) : tally w0 src [] r = r.
Proof.
  destruct r as [t m f du er]. unfold tally. cbn. rewrite app_nil_r.
  f_equal; unfold Migration.len; cbn; lia.
Qed.

Lemma tally_cons (k : string) (keys : list string)
    (r : Migration.MigrateResult) :
  tally w0 src (k :: keys) r =
  tally w0 src keys
    (if is_live w0 src k then Migration.record_success r
     else Migration.record_failure r k (ErrWrap "get failed" Mem.redis_Nil)).
Proof.
  unfold tally. cbn [List.filter].
  destruct (is_live w0 src k); cbn [negb map Migration.record_success
    Migration.record_failure Migration.TotalKeys Migration.MigratedKeys
    Migration.FailedKeys Migration.Duration Migration.Errors];
    rewrite ?len_cons, <- ?app_assoc; f_equal; lia.
Qed.

Lemma tally_app (b1 b2 : list string) (r : Migration.MigrateResult) :
  tally w0 src (b1 ++ b2) r = tally w0 src b2 (tally w0 src b1 r).
Proof.
  revert r. induction b1 as [|k b1 IH]; intros r; cbn [app].
  - rewrite tally_nil. reflexivity.
  - rewrite !tally_cons. apply IH.
Qed.

(** The inner loop on the reference store. *)
Lemma migrate_batch_on_Mem (batch : list string) :
  forall (d : gmap (Client * string) Mem.entry) (r : Migration.MigrateResult),
    source_kept src w0 d ->
    Migration.migrate_batch src dst opts batch r (Mem.set_data d w0) =
      (Mem.set_data (foldl (copy_key opts src dst w0) d batch) w0,
       tally w0 src batch r, None).
Proof.
  induction batch as [|key batch IH]; intros d r Hd.
  - cbn [Migration.migrate_batch foldl]. rewrite tally_nil. reflexivity.
  - cbn [Migration.migrate_batch foldl]. rewrite migrateKey_on_Mem by exact Hd.
    rewrite tally_cons.
    pose proof (source_kept_copy_key d key Hd) as Hd'.
    destruct (is_live w0 src key); [apply IH, Hd'|].
    destruct Hquiet as [_ Hq].
    destruct (Migration.OnError opts) as [f|] eqn:Hf; [|apply IH, Hd'].
    rewrite (Hq f eq_refl). cbn [negb]. apply IH, Hd'.
Qed.

Lemma slice_skipn (keys : list string) (i B : Z) :
  0 <= i -> 1 <= B ->
  skipn (Z.to_nat i) keys =
  Migration.slice keys i
    (if i + B >? Migration.len keys then Migration.len keys else i + B)
  ++ skipn (Z.to_nat (i + B)) keys.
Proof.
  intros Hi HB. unfold Migration.slice, Migration.len.
  destruct (Z.gtb_spec (i + B) (Z.of_nat (length keys))) as [Hgt|Hle].
  - rewrite (skipn_all2 (n := Z.to_nat (i + B))) by lia.
    rewrite app_nil_r, firstn_all2; [reflexivity|].
    rewrite length_skipn. lia.
  - replace (Z.to_nat (i + B)) with (Z.to_nat (i + B - i) + Z.to_nat i)%nat
      by lia.
    rewrite <- skipn_skipn, firstn_skipn. reflexivity.
Qed.

(** The outer loop on the reference store, from index [i]. *)
Lemma migrate_batches_on_Mem (startTime : time_Time) (keys : list string)
    (fuel : nat) :
  forall (i : Z) (d : gmap (Client * string) Mem.entry)
         (r : Migration.MigrateResult) (log : Migration.progress_log),
    1 <= Migration.BatchSize opts ->
    0 <= i ->
    Migration.len keys - i <= Z.of_nat fuel ->
    source_kept src w0 d ->
    exists log',
      Migration.migrate_batches fuel src dst opts startTime keys i r log
        (Mem.set_data d w0) =
      Some (Mem.set_data
              (foldl (copy_key opts src dst w0) d (skipn (Z.to_nat i) keys)) w0,
            log',
            Migration.set_Duration (tally w0 src (skipn (Z.to_nat i) keys) r)
              (Mem.clock w0 - startTime),
            None).
Proof.
  induction fuel as [|fuel IH]; intros i d r log HB Hi Hf Hd;
    rewrite migrate_batches_unfold;
    (destruct (Z.ltb_spec i (Migration.len keys)) as [Hlt|Hge];
     [|rewrite skipn_all2 by (unfold Migration.len in Hge; lia);
       cbn [foldl]; rewrite tally_nil; eexists; reflexivity]);
    [lia|].
  change (ctx_Err (Mem.set_data d w0))
    with (if Mem.cancelled (Mem.set_data d w0)
          then Some Mem.context_Canceled else None).
  unfold Mem.cancelled. rewrite budget_set_data. cbv zeta.
  rewrite migrate_batch_on_Mem by exact Hd.
  rewrite (slice_skipn keys i (Migration.BatchSize opts) Hi HB).
  set (batch := Migration.slice keys i _).
  rewrite foldl_app, tally_app.
  assert (Hd' : source_kept src w0 (foldl (copy_key opts src dst w0) d batch)).
  { clear -Hd Hclients. revert d Hd.
    induction batch as [|k b IHb]; intros d Hd; [exact Hd|].
    cbn [foldl]. apply IHb, source_kept_copy_key, Hd. }
  destruct Hquiet as [Hp _].
  destruct (Migration.OnProgress opts) as [f|] eqn:Hf0.
  - rewrite (Hp f eq_refl). apply IH; try assumption; lia.
  - apply IH; try assumption; lia.
Qed.

End MigrateOnMem.

Lemma set_data_same (w : Mem.MemWorld) : Mem.set_data (Mem.data w) w = w.
Proof. destruct w. reflexivity. Qed.

(** [Migrate] on the reference store, callbacks quiet: every key of the
    enumeration is handled, in order. *)
Lemma Migrate_on_Mem (src dst : Client)
    (opts : Migration.MigrateOptions Mem.MemWorld) (w : Mem.MemWorld)
    (fuel : nat) :
  let keys :=
    Mem.keyspace w src (Migration.Pattern (Migration.with_defaults opts)) in
  Mem.ctx_budget w = None ->
  src <> dst ->
  quiet_callbacks opts ->
  Migration.DryRun opts = false ->
  Z.of_nat (length keys) <= 100 * (Z.of_nat fuel + 1) ->
  exists log,
    Migration.Migrate fuel src dst opts w =
      Some (Mem.set_data (foldl (copy_key opts src dst w) (Mem.data w) keys) w,
            log,
            Some (Migration.set_Duration
                    (tally w src keys
                       (Migration.set_TotalKeys Migration.zero_result
                          (Migration.len keys))) 0),
            None).
Proof.
  intros keys Hb Hc Hq Hdry Hlen. unfold Migration.Migrate, Migration.scanAllKeys.
  rewrite scanAllKeys_loop_on_Mem by (try exact Hb; fold keys; lia).
  cbn [app]. fold keys.
  change (skipn (Z.to_nat 0) keys) with keys.
  change (Migration.DryRun (Migration.with_defaults opts))
    with (Migration.DryRun opts). rewrite Hdry.
  destruct (migrate_batches_on_Mem src dst (Migration.with_defaults opts) w
              Hb Hc Hq (Mem.clock w) keys (length keys) 0 (Mem.data w)
              (Migration.set_TotalKeys Migration.zero_result
                 (Migration.len keys)) [])
    as (log & Hm).
  - apply with_defaults_BatchSize.
  - lia.
  - unfold Migration.len. lia.
  - intros k. reflexivity.
  - rewrite set_data_same in Hm. cbn [time_Now Mem.MemWorld_Rdb].
    change (skipn (Z.to_nat 0) keys) with keys in Hm.
    rewrite Hm. exists log. rewrite Z.sub_diag. reflexivity.
Qed.

Section CopyKeys.
Variables (src dst : Client) (opts : Migration.MigrateOptions Mem.MemWorld).
Variable w0 : Mem.MemWorld.

Lemma copy_keys_other (keys : list string) (c : Client) (k : string) :
  forall d : gmap (Client * string) Mem.entry,
    c <> dst \/ ~ In k keys \/ Mem.live w0 src k = None ->
    foldl (copy_key opts src dst w0) d keys !! (c, k) = d !! (c, k).
Proof.
  induction keys as [|k0 keys IH]; intros d Hk; [reflexivity|].
  cbn [foldl]. rewrite IH.
  - unfold copy_key. destruct (Mem.live w0 src k0) eqn:Hl; [|reflexivity].
    apply lookup_insert_ne. intros [= <- <-].
    destruct Hk as [Hk|[Hk|Hk]]; [congruence|apply Hk; left; reflexivity
                                 |congruence].
  - destruct Hk as [Hk|[Hk|Hk]]; auto.
    right. left. intros Hin. apply Hk. right. exact Hin.
Qed.

Lemma copy_keys_live (keys : list string) (k : string) (e : Mem.entry) :
  forall d : gmap (Client * string) Mem.entry,
    In k keys -> Mem.live w0 src k = Some e ->
    foldl (copy_key opts src dst w0) d keys !! (dst, k)
      = Some (migrated_entry opts (Mem.clock w0) e).
Proof.
  induction keys as [|k0 keys IH]; intros d Hin Hl; [destruct Hin|].
  cbn [foldl]. destruct (in_dec string_dec k keys) as [Hk|Hk].
  - apply IH; assumption.
  - destruct Hin as [->|Hin]; [|contradiction].
    rewrite copy_keys_other by (right; left; exact Hk).
    unfold copy_key. rewrite Hl. apply lookup_insert_eq.
Qed.

End CopyKeys.

(** X10: on the reference store [scanAllKeys] returns the whole key space of
    the client for the pattern: it pages through it 100 keys at a time and
    returns every page in full, so that every stored key that matches is
    returned, once, and the store is left as it was. *)
Theorem scanAllKeys_returns_every_key :
  forall (c : Client) (pattern : string) (w : Mem.MemWorld) (fuel : nat),
    Mem.ctx_budget w = None ->
    Z.of_nat (length (Mem.keyspace w c pattern)) <= 100 * (Z.of_nat fuel + 1) ->
    exists keys,
      Migration.scanAllKeys fuel c pattern w = Some (w, Val keys) /\
      NoDup keys /\
      forall k, In k keys <->
                is_Some (Mem.data w !! (c, k)) /\ Mem.glob pattern k = true.
Proof.
  intros c pattern w fuel Hb Hlen. exists (Mem.keyspace w c pattern).
  split; [|split; [apply keyspace_NoDup|apply keyspace_spec]].
  unfold Migration.scanAllKeys.
  rewrite scanAllKeys_loop_on_Mem by (try exact Hb; lia). reflexivity.
Qed.

Lemma scanAllKeys_returns_every_key_witness :
  exists keys,
    Migration.scanAllKeys 0 1%N "*" Sample.store_abc
      = Some (Sample.store_abc, Val keys) /\
    NoDup keys /\ In "b" keys.
Proof.
  assert (Hb : Mem.ctx_budget Sample.store_abc = None) by reflexivity.
  assert (Hlen : Z.of_nat (length (Mem.keyspace Sample.store_abc 1%N "*"))
                 <= 100 * (Z.of_nat 0 + 1)) by (vm_compute; discriminate).
  destruct (scanAllKeys_returns_every_key 1%N "*" Sample.store_abc 0 Hb Hlen)
    as (keys & Hs & Hn & Hk).
  exists keys. split; [exact Hs|]. split; [exact Hn|].
  apply Hk. split; [|reflexivity]. vm_compute. eexists. reflexivity.
Defined.

(** X11: a migration between two clients of the reference store, with
    callbacks that leave the world alone, copies every key of the
    enumeration that the source can read: the destination then holds the
    same value under the same key, with the expiry of the source under
    [PreserveTTL] (whatever [TTL] says), without it [TTL] from now when
    [TTL] is positive and no expiry otherwise.  Nothing else is written:
    the source, other clients and the other keys of the destination are as
    before. *)
Theorem Migrate_copies_what_the_source_can_read :
  forall (src dst : Client) (opts : Migration.MigrateOptions Mem.MemWorld)
         (w : Mem.MemWorld) (fuel : nat),
    let keys :=
      Mem.keyspace w src (Migration.Pattern (Migration.with_defaults opts)) in
    Mem.ctx_budget w = None ->
    src <> dst ->
    quiet_callbacks opts ->
    Migration.DryRun opts = false ->
    Z.of_nat (length keys) <= 100 * (Z.of_nat fuel + 1) ->
    exists w' log r,
      Migration.Migrate fuel src dst opts w = Some (w', log, Some r, None) /\
      (forall k e, In k keys -> Mem.live w src k = Some e ->
         Mem.data w' !! (dst, k)
           = Some (migrated_entry opts (Mem.clock w) e)) /\
      (forall c k, c <> dst \/ ~ In k keys \/ Mem.live w src k = None ->
         Mem.data w' !! (c, k) = Mem.data w !! (c, k)).
Proof.
  intros src dst opts w fuel keys Hb Hc Hq Hdry Hlen.
  destruct (Migrate_on_Mem src dst opts w fuel Hb Hc Hq Hdry Hlen)
    as (log & Hm).
  do 3 eexists. split; [exact Hm|]. cbn [Mem.set_data Mem.data]. split.
  - intros k e Hin Hl. apply copy_keys_live; assumption.
  - intros c k Hk. apply copy_keys_other. exact Hk.
Qed.

(** X12: a migration between two clients of the reference store, with
    callbacks that leave the world alone and do not stop it, accounts for
    every key of the enumeration and ends without error: [MigratedKeys]
    counts the keys the source could read, [FailedKeys] the keys it could
    not (gone or expired since they were listed), and [Errors] lists those,
    in the order of the enumeration, each with the read error wrapped as
    "get failed". *)
Theorem Migrate_accounts_for_every_key :
  forall (src dst : Client) (opts : Migration.MigrateOptions Mem.MemWorld)
         (w : Mem.MemWorld) (fuel : nat),
    let keys :=
      Mem.keyspace w src (Migration.Pattern (Migration.with_defaults opts)) in
    let unread := List.filter (fun k => negb (is_live w src k)) keys in
    Mem.ctx_budget w = None ->
    src <> dst ->
    quiet_callbacks opts ->
    Migration.DryRun opts = false ->
    Z.of_nat (length keys) <= 100 * (Z.of_nat fuel + 1) ->
    exists w' log r,
      Migration.Migrate fuel src dst opts w = Some (w', log, Some r, None) /\
      Migration.TotalKeys r = Migration.len keys /\
      Migration.MigratedKeys r
        = Migration.len (List.filter (is_live w src) keys) /\
      Migration.FailedKeys r = Migration.len unread /\
      Migration.Errors r = map get_failed unread.
Proof.
  intros src dst opts w fuel keys unread Hb Hc Hq Hdry Hlen.
  destruct (Migrate_on_Mem src dst opts w fuel Hb Hc Hq Hdry Hlen)
    as (log & Hm).
  do 3 eexists. split; [exact Hm|]. repeat split.
Qed.

Lemma preserve_and_go_on_quiet : quiet_callbacks preserve_and_go_on.
Proof. split; intros f [= <-]; reflexivity. Qed.

Lemma Migrate_copies_what_the_source_can_read_witness :
  exists w' log r,
    Migration.Migrate 0 1%N 2%N preserve_and_go_on Sample.store_expired
      = Some (w', log, Some r, None) /\
    Mem.data w' !! (2%N, "b") = Some {| Mem.e_val := "2"; Mem.e_exp := None |} /\
    Mem.data w' !! (2%N, "a") = None.
Proof.
  assert (Hb : Mem.ctx_budget Sample.store_expired = None) by reflexivity.
  assert (Hc : 1%N <> 2%N) by discriminate.
  assert (Hd : Migration.DryRun preserve_and_go_on = false) by reflexivity.
  assert (Hlen : Z.of_nat (length (Mem.keyspace Sample.store_expired 1%N
                   (Migration.Pattern
                      (Migration.with_defaults preserve_and_go_on))))
                 <= 100 * (Z.of_nat 0 + 1)) by (vm_compute; discriminate).
  destruct (Migrate_copies_what_the_source_can_read 1%N 2%N preserve_and_go_on
              Sample.store_expired 0 Hb Hc preserve_and_go_on_quiet Hd Hlen)
    as (w' & log & r & Hm & Hlive & Hother).
  exists w', log, r. split; [exact Hm|]. split.
  - apply (Hlive "b" {| Mem.e_val := "2"; Mem.e_exp := None |});
      vm_compute; auto.
  - rewrite Hother; [reflexivity|]. right. right. reflexivity.
Defined.

Lemma Migrate_accounts_for_every_key_witness :
  exists w' log r,
    Migration.Migrate 0 1%N 2%N preserve_and_go_on Sample.store_expired
      = Some (w', log, Some r, None) /\
    Migration.TotalKeys r = 3 /\ Migration.MigratedKeys r = 2 /\
    Migration.FailedKeys r = 1 /\ Migration.Errors r = [get_failed "a"].
Proof.
  assert (Hb : Mem.ctx_budget Sample.store_expired = None) by reflexivity.
  assert (Hc : 1%N <> 2%N) by discriminate.
  assert (Hd : Migration.DryRun preserve_and_go_on = false) by reflexivity.
  assert (Hlen : Z.of_nat (length (Mem.keyspace Sample.store_expired 1%N
                   (Migration.Pattern
                      (Migration.with_defaults preserve_and_go_on))))
                 <= 100 * (Z.of_nat 0 + 1)) by (vm_compute; discriminate).
  destruct (Migrate_accounts_for_every_key 1%N 2%N preserve_and_go_on
              Sample.store_expired 0 Hb Hc preserve_and_go_on_quiet Hd Hlen)
    as (w' & log & r & Hm & Ht & Hmig & Hf & He).
  exists w', log, r. split; [exact Hm|].
  rewrite Ht, Hmig, Hf, He. repeat split; vm_compute; reflexivity.
Defined.

(** X13: a dry run only counts.  On the reference store it returns the
    number of stored keys that match as [TotalKeys], with nothing migrated
    and nothing failed, and leaves the world exactly as it was: no key is
    read or written and no callback is called, whatever the other
    options. *)
Theorem DryRun_only_counts :
  forall (src dst : Client) (opts : Migration.MigrateOptions Mem.MemWorld)
         (w : Mem.MemWorld) (fuel : nat),
    let keys :=
      Mem.keyspace w src (Migration.Pattern (Migration.with_defaults opts)) in
    Mem.ctx_budget w = None ->
    Z.of_nat (length keys) <= 100 * (Z.of_nat fuel + 1) ->
    Migration.Migrate fuel src dst (dry_run opts) w =
      Some (w, [],
            Some {| Migration.TotalKeys := Migration.len keys;
                    Migration.MigratedKeys := 0; Migration.FailedKeys := 0;
                    Migration.Duration := 0; Migration.Errors := [] |},
            None).
Proof.
  intros src dst opts w fuel keys Hb Hlen.
  unfold Migration.Migrate, Migration.scanAllKeys.
  change (Migration.Pattern (Migration.with_defaults (dry_run opts)))
    with (Migration.Pattern (Migration.with_defaults opts)).
  rewrite scanAllKeys_loop_on_Mem by (try exact Hb; fold keys; lia).
  cbn [app]. fold keys. change (skipn (Z.to_nat 0) keys) with keys.
  cbn [Migration.DryRun Migration.with_defaults dry_run time_Now
       Mem.MemWorld_Rdb].
  rewrite Z.sub_diag. reflexivity.
Qed.

Lemma DryRun_only_counts_witness :
  Migration.Migrate 0 1%N 2%N (dry_run Sample.stop_on_error) Sample.store_abc
    = Some (Sample.store_abc, [],
            Some {| Migration.TotalKeys := 3; Migration.MigratedKeys := 0;
                    Migration.FailedKeys := 0; Migration.Duration := 0;
                    Migration.Errors := [] |}, None).
Proof.
  assert (Hb : Mem.ctx_budget Sample.store_abc = None) by reflexivity.
  assert (Hlen : Z.of_nat (length (Mem.keyspace Sample.store_abc 1%N
                   (Migration.Pattern
                      (Migration.with_defaults Sample.stop_on_error))))
                 <= 100 * (Z.of_nat 0 + 1)) by (vm_compute; discriminate).
  exact (DryRun_only_counts 1%N 2%N Sample.stop_on_error Sample.store_abc 0
           Hb Hlen).
Defined.

(** ** Storing and retrieving on the reference store *)

Lemma sign_of_digits (u : Decimal.uint) :
  u <> Decimal.Nil ->
  match NilZero.string_of_uint u with
  | String "+" r => (false, r)
  | String "-" r => (true, r)
  | _ => (false, NilZero.string_of_uint u)
  end = (false, NilZero.string_of_uint u).
Proof. destruct u; reflexivity. Qed.

(** [strconv.ParseInt] reads back what [%d] prints. *)
Lemma ParseInt_itoa (z : Z) : in_int64 z -> strconv_ParseInt (itoa z) = Some z.
Proof.
  unfold in_int64, min_int64, max_int64. intros Hz.
  destruct z as [|p|p].
  - reflexivity.
  - unfold itoa, strconv_ParseInt. cbn [Z.to_int NilZero.string_of_int].
    pose proof (DecimalPos.Unsigned.to_uint_nonnil p) as Hn.
    rewrite sign_of_digits by exact Hn.
    rewrite NilZero.usu by exact Hn. cbv zeta.
    unfold Z.of_uint. rewrite DecimalPos.Unsigned.of_to. cbn [Z.of_N].
    destruct (Z.ltb_spec (Z.pos p) (2 ^ 63)); [reflexivity|lia].
  - unfold itoa, strconv_ParseInt. cbn [Z.to_int NilZero.string_of_int].
    pose proof (DecimalPos.Unsigned.to_uint_nonnil p) as Hn.
    cbn [Ascii.eqb]. 
    rewrite NilZero.usu by exact Hn. cbv zeta.
    unfold Z.of_uint. rewrite DecimalPos.Unsigned.of_to. cbn [Z.of_N].
    destruct (Z.leb_spec (Z.pos p) (2 ^ 63)); [reflexivity|lia].
Qed.

Lemma mem_Set_forever (c : Client) (k v : string) (ttl : time_Duration)
    (w : Mem.MemWorld) :
  Mem.ctx_budget w = None ->
  Mem.mem_Set c k v ttl w =
    (Mem.set_data
       (<[(c, k) := {| Mem.e_val := v;
                       Mem.e_exp := Mem.expiry_after_Set c k ttl w |}]>
          (Mem.data w)) w,
     Val tt).
Proof.
  intros Hb. unfold Mem.mem_Set. rewrite command_forever by exact Hb.
  reflexivity.
Qed.

Lemma mem_Get_forever (c : Client) (k : string) (w : Mem.MemWorld) :
  Mem.ctx_budget w = None ->
  Mem.mem_Get c k w =
    (w, match Mem.live w c k with
        | None => Fail Mem.redis_Nil
        | Some e => Val (Mem.e_val e)
        end).
Proof.
  intros Hb. unfold Mem.mem_Get. rewrite command_forever by exact Hb.
  destruct (Mem.live w c k); reflexivity.
Qed.

(** What a read finds at time [t] under a key written at time [now] with
    time to live [d]. *)
Lemma live_after_Set (c : Client) (k v : string) (d : time_Duration)
    (w : Mem.MemWorld) (t : time_Time) :
  Mem.live
    (Mem.set_clock t
       (Mem.set_data
          (<[(c, k) := {| Mem.e_val := v;
                          Mem.e_exp := if d >? 0 then Some (Mem.clock w + d)
                                       else None |}]> (Mem.data w)) w)) c k
  = if (0 <? d) && (Mem.clock w + d <=? t) then None
    else Some {| Mem.e_val := v;
                 Mem.e_exp := if d >? 0 then Some (Mem.clock w + d)
                              else None |}.
Proof.
  rewrite live_unfold. cbn [Mem.set_clock Mem.set_data Mem.data Mem.clock].
  rewrite lookup_insert_eq. cbn [Mem.e_exp].
  destruct (Z.gtb_spec d 0), (Z.ltb_spec 0 d); try lia; cbn [andb];
    [|reflexivity].
  destruct (Z.ltb_spec t (Mem.clock w + d)), (Z.leb_spec (Mem.clock w + d) t);
    try lia; reflexivity.
Qed.

Section GibOnMem.
Variable J : Type.
Variable json_Marshal : J -> reply string.
Variable json_Unmarshal : string -> J -> J * option error.

(** A write that goes through stores the marshalled bytes, expiring after
    the time to live when that is positive. *)
Lemma Exec_on_Mem (b : Gib.GibBuilder J) (data : string) (w : Mem.MemWorld) :
  Mem.ctx_budget w = None ->
  Gib.value b <> Gib.nil_any ->
  Gib.marshal J json_Marshal (Gib.value b) = Val data ->
  Gib.Exec json_Marshal b w =
    (Mem.set_data
       (<[(Gib.client b, Gib.key b) :=
            {| Mem.e_val := data;
               Mem.e_exp := if Gib.ttl b >? 0
                            then Some (Mem.clock w + Gib.ttl b) else None |}]>
          (Mem.data w)) w,
     None).
Proof.
  intros Hb Hv Hm. unfold Gib.Exec.
  destruct (Gib.value b) eqn:Hval; [congruence| | |];
    rewrite Hm; cbn [rdb_Set Mem.MemWorld_Rdb];
    destruct (Z.gtb_spec (Gib.ttl b) 0) as [Ht|Ht];
    rewrite mem_Set_forever by exact Hb;
    rewrite ?expiry_after_Set_pos by lia; reflexivity.
Qed.

Lemma Raw_on_Mem (c : Client) (k : string) (w : Mem.MemWorld) :
  Mem.ctx_budget w = None ->
  Gib.Raw (Gib.Run c k) w =
    (w, match Mem.live w c k with
        | None => ("", (false, None))
        | Some e => (Mem.e_val e, (true, None))
        end).
Proof.
  intros Hb. unfold Gib.Raw. cbn [rdb_Get Mem.MemWorld_Rdb Gib.run_client
    Gib.run_key Gib.Run].
  rewrite mem_Get_forever by exact Hb.
  destruct (Mem.live w c k); reflexivity.
Qed.

Lemma Bytes_on_Mem (c : Client) (k : string) (w : Mem.MemWorld) :
  Mem.ctx_budget w = None ->
  Gib.Bytes (Gib.Run c k) w =
    (w, match Mem.live w c k with
        | None => ("", (false, None))
        | Some e => (Mem.e_val e, (true, None))
        end).
Proof.
  intros Hb. unfold Gib.Bytes. cbn [rdb_Get Mem.MemWorld_Rdb Gib.run_client
    Gib.run_key Gib.Run].
  rewrite mem_Get_forever by exact Hb.
  destruct (Mem.live w c k); reflexivity.
Qed.

Lemma Bind_on_Mem (c : Client) (k : string) (d : Gib.dest J)
    (w : Mem.MemWorld) :
  Mem.ctx_budget w = None ->
  d <> Gib.nil_dest ->
  Gib.Bind json_Unmarshal (Gib.Run c k) d w =
    (w, match Mem.live w c k with
        | None => (d, (false, None))
        | Some e =>
            let '(d', err) := Gib.unmarshal J json_Unmarshal (Mem.e_val e) d in
            (d', (match err with None => true | Some _ => false end, err))
        end).
Proof.
  intros Hb Hd. unfold Gib.Bind.
  destruct d as [|p|p|p]; [congruence| | |];
    cbn [rdb_Get Mem.MemWorld_Rdb Gib.run_client Gib.run_key Gib.Run];
    rewrite mem_Get_forever by exact Hb;
    (destruct (Mem.live w c k); [|reflexivity]);
    destruct (Gib.unmarshal _ _ _ _) as [d' [e'|]]; reflexivity.
Qed.

End GibOnMem.

(** X14: a string given to [Gib] comes back from [Run] as it was, not
    encoded: after [Exec] with time to live [d], a read at any time [t]
    finds it, through [Raw], [Bytes] and [Bind] into a string, unless [d]
    is positive and [t] is [d] or more past the write; then the key is
    gone, which [Run] reports as not found, without error, leaving the
    destination of [Bind] as it was.  A time to live of zero or less means
    no expiry. *)
Theorem Gib_then_Run_round_trip :
  forall (J : Type) (json_Marshal : J -> reply string)
         (json_Unmarshal : string -> J -> J * option error)
         (c : Client) (k s p : string) (d : time_Duration)
         (w : Mem.MemWorld) (t : time_Time),
    Mem.ctx_budget w = None ->
    exists w1,
      Gib.Exec json_Marshal
        (Gib.TTL (Gib.Value (Gib.Gib c k) (Gib.string_any s)) d) w
        = (w1, None) /\
      let later := Mem.set_clock t w1 in
      if (0 <? d) && (Mem.clock w + d <=? t)
      then
        snd (Gib.Raw (Gib.Run c k) later) = ("", (false, None)) /\
        snd (Gib.Bytes (Gib.Run c k) later) = ("", (false, None)) /\
        snd (Gib.Bind json_Unmarshal (Gib.Run c k) (Gib.string_dest p) later)
          = (Gib.string_dest p, (false, None))
      else
        snd (Gib.Raw (Gib.Run c k) later) = (s, (true, None)) /\
        snd (Gib.Bytes (Gib.Run c k) later) = (s, (true, None)) /\
        snd (Gib.Bind json_Unmarshal (Gib.Run c k) (Gib.string_dest p) later)
          = (Gib.string_dest s, (true, None)).
Proof.
  intros J mar unm c k s p d w t Hb. eexists. split.
  - apply Exec_on_Mem; [exact Hb|discriminate|reflexivity].
  - cbv zeta. cbn [Gib.client Gib.key Gib.ttl Gib.TTL Gib.Value Gib.Gib].
    rewrite Raw_on_Mem, Bytes_on_Mem, Bind_on_Mem
      by (try exact Hb; discriminate).
    rewrite live_after_Set.
    destruct ((0 <? d) && (Mem.clock w + d <=? t)); repeat split.
Qed.

Lemma Gib_then_Run_round_trip_witness :
  exists w1,
    Gib.Exec decimal_Marshal
      (Gib.TTL (Gib.Value (Gib.Gib 1%N "greeting") (Gib.string_any "halo"))
         Minute) Sample.world = (w1, None) /\
    snd (Gib.Raw (Gib.Run 1%N "greeting")
           (Mem.set_clock (1700000000 * Second + Second) w1))
      = ("halo", (true, None)).
Proof.
  destruct (Gib_then_Run_round_trip Z decimal_Marshal decimal_Unmarshal 1%N
              "greeting" "halo" "" Minute Sample.world
              (1700000000 * Second + Second) eq_refl)
    as (w1 & He & Hr).
  exists w1. split; [exact He|]. exact (proj1 Hr).
Defined.

(** X15: a value of any other type goes through the codec both ways: what
    [Exec] stores is what [json.Marshal] yields, and [Bind] hands exactly
    those bytes, with the destination, to [json.Unmarshal], whose result
    and error it returns; it reports the key as found when there is no
    error. *)
Theorem Gib_then_Bind_through_the_codec :
  forall (J : Type) (json_Marshal : J -> reply string)
         (json_Unmarshal : string -> J -> J * option error)
         (c : Client) (k data : string) (v p p' : J) (e : option error)
         (d : time_Duration) (w : Mem.MemWorld),
    Mem.ctx_budget w = None ->
    d <= 0 ->
    json_Marshal v = Val data ->
    json_Unmarshal data p = (p', e) ->
    exists w1,
      Gib.Exec json_Marshal
        (Gib.TTL (Gib.Value (Gib.Gib c k) (Gib.other_any v)) d) w
        = (w1, None) /\
      Mem.data w1 !! (c, k) = Some {| Mem.e_val := data; Mem.e_exp := None |} /\
      Gib.Bind json_Unmarshal (Gib.Run c k) (Gib.other_dest p) w1 =
        (w1, (Gib.other_dest p',
              (match e with None => true | Some _ => false end, e))).
Proof.
  intros J mar unm c k data v p p' e d w Hb Hd Hm Hu. eexists. split.
  - apply Exec_on_Mem; [exact Hb|discriminate|exact Hm].
  - cbn [Gib.client Gib.key Gib.ttl Gib.TTL Gib.Value Gib.Gib].
    destruct (Z.gtb_spec d 0); [lia|].
    split; [apply lookup_insert_eq|].
    rewrite Bind_on_Mem by (try exact Hb; discriminate).
    rewrite live_unfold. cbn [Mem.set_data Mem.data].
    rewrite lookup_insert_eq. cbn [Mem.e_exp Mem.e_val Gib.unmarshal].
    rewrite Hu. reflexivity.
Qed.

Lemma Gib_then_Bind_through_the_codec_witness :
  exists w1,
    Gib.Exec decimal_Marshal
      (Gib.TTL (Gib.Value (Gib.Gib 1%N "answer") (Gib.other_any 42)) 0)
      Sample.world = (w1, None) /\
    Gib.Bind decimal_Unmarshal (Gib.Run 1%N "answer") (Gib.other_dest 0) w1
      = (w1, (Gib.other_dest 42, (true, None))).
Proof.
  destruct (Gib_then_Bind_through_the_codec Z decimal_Marshal
              decimal_Unmarshal 1%N "answer" "42" 42 0 42 None 0 Sample.world
              eq_refl ltac:(lia) eq_refl eq_refl)
    as (w1 & He & _ & Hb).
  exists w1. split; [exact He|exact Hb].
Defined.

(** X16: a key that is not there is not an error.  For a key the client
    cannot read (never written, or expired) [Raw] and [Bytes] return
    nothing, not found and no error, [Bind] does the same and leaves its
    destination as it was, and none of them changes the store.  [Bind] to
    no destination at all fails with [ErrNilPointer] before the store is
    asked. *)
Theorem Run_miss_is_not_an_error :
  forall (J : Type) (json_Unmarshal : string -> J -> J * option error)
         (c : Client) (k : string) (d : Gib.dest J) (w : Mem.MemWorld),
    Mem.ctx_budget w = None ->
    Mem.live w c k = None ->
    Gib.Raw (Gib.Run c k) w = (w, ("", (false, None))) /\
    Gib.Bytes (Gib.Run c k) w = (w, ("", (false, None))) /\
    Gib.Bind json_Unmarshal (Gib.Run c k) d w =
      (w, (d, (false, match d with
                      | Gib.nil_dest => Some ErrNilPointer
                      | _ => None
                      end))).
Proof.
  intros J unm c k d w Hb Hl.
  rewrite Raw_on_Mem, Bytes_on_Mem by exact Hb. rewrite Hl.
  split; [reflexivity|]. split; [reflexivity|].
  destruct d as [|p|p|p]; [reflexivity| | |];
    rewrite Bind_on_Mem by (try exact Hb; discriminate);
    rewrite Hl; reflexivity.
Qed.

Lemma Run_miss_is_not_an_error_witness :
  Gib.Raw (Gib.Run 1%N "a") Sample.store_expired
    = (Sample.store_expired, ("", (false, None))) /\
  Gib.Bind decimal_Unmarshal (Gib.Run 1%N "a") (Gib.other_dest 7)
    Sample.store_expired
    = (Sample.store_expired, (Gib.other_dest 7, (false, None))).
Proof.
  destruct (Run_miss_is_not_an_error Z decimal_Unmarshal 1%N "a"
              (Gib.other_dest 7) Sample.store_expired eq_refl eq_refl)
    as (Hr & _ & Hb).
  split; [exact Hr|exact Hb].
Defined.

(** X17: an [Exec] that fails has written nothing.  It fails in three
    ways only: no value was given ([ErrNilValue]), the value did not
    marshal (the codec's error, as it is), or the context was done; in each
    the world is left exactly as it was. *)
Theorem failed_Exec_writes_nothing :
  forall (J : Type) (json_Marshal : J -> reply string)
         (b : Gib.GibBuilder J) (w w' : Mem.MemWorld) (e : error),
    Gib.Exec json_Marshal b w = (w', Some e) ->
    w' = w /\
    ((Gib.value b = Gib.nil_any /\ e = ErrNilValue) \/
     (Gib.value b <> Gib.nil_any /\
      Gib.marshal J json_Marshal (Gib.value b) = Fail e) \/
     (Mem.cancelled w = true /\ e = Mem.context_Canceled)).
Proof.
  intros J mar b w w' e. unfold Gib.Exec.
  assert (Hset : forall data ttl,
            (let '(w1, r) := rdb_Set (Gib.client b) (Gib.key b) data ttl w in
             (w1, reply_err r)) = (w', Some e) ->
            w' = w /\ Mem.cancelled w = true /\ e = Mem.context_Canceled).
  { intros data ttl. cbn [rdb_Set Mem.MemWorld_Rdb].
    unfold Mem.mem_Set, Mem.command.
    destruct (Mem.cancelled w); [|discriminate].
    intros [= <- <-]. auto. }
  destruct (Gib.value b) eqn:Hv.
  - intros [= <- <-]. auto.
  - cbn [Gib.marshal]. destruct (Gib.ttl b >? 0); intros He;
      apply Hset in He; destruct He as (-> & Hc & ->); auto.
  - cbn [Gib.marshal]. destruct (Gib.ttl b >? 0); intros He;
      apply Hset in He; destruct He as (-> & Hc & ->); auto.
  - destruct (Gib.marshal J mar (Gib.other_any v)) as [data|e0] eqn:Hm.
    + destruct (Gib.ttl b >? 0); intros He;
        apply Hset in He; destruct He as (-> & Hc & ->); auto.
    + intros [= <- <-]. split; [reflexivity|]. right. left.
      split; [discriminate|reflexivity].
Qed.

Lemma failed_Exec_writes_nothing_witness :
  Gib.Exec decimal_Marshal (Gib.Value (Gib.Gib 1%N "k") (Gib.string_any "v"))
    world_cancelled = (world_cancelled, Some Mem.context_Canceled) /\
  Mem.cancelled world_cancelled = true.
Proof.
  assert (He : Gib.Exec decimal_Marshal
                 (Gib.Value (Gib.Gib 1%N "k") (Gib.string_any "v"))
                 world_cancelled
               = (world_cancelled, Some Mem.context_Canceled))
    by reflexivity.
  split; [exact He|].
  destruct (failed_Exec_writes_nothing Z decimal_Marshal _ _ _ _ He)
    as [_ [[Hv _]|[[_ Hm]|[Hc _]]]].
  - discriminate Hv.
  - discriminate Hm.
  - exact Hc.
Defined.

(** X18: a counter set with [SetWithTTL] reads back through [Get] as the
    same int64 until it expires, and as 0 from then on.  With a positive
    time to live it expires when that has passed; with a time to live of
    zero it does not expire; with go-redis's [KeepTTL] it keeps the expiry
    the key had, when it was there and had one.  [Get] returns no error
    in any of these cases. *)
Theorem SetWithTTL_then_Get :
  forall (c : Client) (k : string) (v : Z) (d : time_Duration)
         (w : Mem.MemWorld) (t : time_Time),
    Mem.ctx_budget w = None ->
    in_int64 v ->
    0 <= d \/ d = Mem.KeepTTL ->
    exists w1,
      Sprint.SetWithTTL (Sprint.Sprint c k) v d w = (w1, None) /\
      snd (Sprint.Get (Sprint.Sprint c k) (Mem.set_clock t w1))
        = (match (if 0 <? d then Some (Mem.clock w + d)
                  else if d =? 0 then None
                  else match Mem.live w c k with
                       | Some e => Mem.e_exp e
                       | None => None
                       end) with
           | Some x => if x <=? t then 0 else v
           | None => v
           end, None).
Proof.
  intros c k v d w t Hb Hv Hd. eexists. split.
  - unfold Sprint.SetWithTTL. cbn [rdb_Set Mem.MemWorld_Rdb Sprint.client
      Sprint.key Sprint.Sprint].
    rewrite mem_Set_forever by exact Hb. reflexivity.
  - unfold Sprint.Get. cbn [rdb_Get Mem.MemWorld_Rdb Sprint.client
      Sprint.key Sprint.Sprint].
    rewrite mem_Get_forever by exact Hb. rewrite live_unfold.
    cbn [Mem.set_clock Mem.set_data Mem.data Mem.clock].
    rewrite lookup_insert_eq. cbn [Mem.e_exp Mem.e_val].
    assert (Hexp : Mem.expiry_after_Set c k d w =
                   if 0 <? d then Some (Mem.clock w + d)
                   else if d =? 0 then None
                   else match Mem.live w c k with
                        | Some e => Mem.e_exp e
                        | None => None
                        end).
    { unfold Mem.expiry_after_Set, Mem.KeepTTL in *.
      destruct (Z.gtb_spec d 0), (Z.ltb_spec 0 d); try lia; [reflexivity|].
      destruct (Z.eqb_spec d (-1)), (Z.eqb_spec d 0); try lia; reflexivity. }
    rewrite Hexp.
    destruct (if 0 <? d then _ else _) as [x|].
    + destruct (Z.ltb_spec t x), (Z.leb_spec x t); try lia; [|reflexivity].
      cbn [Mem.e_val]. rewrite ParseInt_itoa by exact Hv. reflexivity.
    + cbn [Mem.e_val]. rewrite ParseInt_itoa by exact Hv. reflexivity.
Qed.

Lemma SetWithTTL_then_Get_witness :
  exists w1,
    Sprint.SetWithTTL (Sprint.Sprint 1%N "hits") (-12) Mem.KeepTTL
      (Mem.put_expiring 1%N "hits" "5" (1700000000 * Second + Minute)
         Sample.world)
      = (w1, None) /\
    snd (Sprint.Get (Sprint.Sprint 1%N "hits")
           (Mem.set_clock (1700000000 * Second + 59 * Second) w1))
      = (-12, None) /\
    snd (Sprint.Get (Sprint.Sprint 1%N "hits")
           (Mem.set_clock (1700000000 * Second + Minute) w1))
      = (0, None).
Proof.
  assert (Hv : in_int64 (-12)) by (vm_compute; split; discriminate).
  destruct (SetWithTTL_then_Get 1%N "hits" (-12) Mem.KeepTTL
              (Mem.put_expiring 1%N "hits" "5" (1700000000 * Second + Minute)
                 Sample.world)
              (1700000000 * Second + 59 * Second) eq_refl Hv
              (or_intror eq_refl))
    as (w1 & Hs & Hg).
  exists w1. split; [exact Hs|]. split; [exact Hg|].
  assert (Hrun : Sprint.SetWithTTL (Sprint.Sprint 1%N "hits") (-12)
                   Mem.KeepTTL
                   (Mem.put_expiring 1%N "hits" "5"
                      (1700000000 * Second + Minute) Sample.world)
                 = (w1, None)) by exact Hs.
  vm_compute in Hrun. injection Hrun as <-. vm_compute. reflexivity.
Defined.

(** X19: what [IncrBy] returns is what [Get] reads next: after an
    increment that succeeded with new value [x], [Get] returns [x], and
    leaves the store as the increment left it. *)
Theorem IncrBy_then_Get :
  forall (c : Client) (k : string) (n x : Z) (w w1 : Mem.MemWorld),
    Mem.ctx_budget w = None ->
    Sprint.IncrBy (Sprint.Sprint c k) n w = (w1, (x, None)) ->
    Sprint.Get (Sprint.Sprint c k) w1 = (w1, (x, None)).
Proof.
  intros c k n x w w1 Hb. unfold Sprint.IncrBy.
  cbn [rdb_IncrBy Mem.MemWorld_Rdb Sprint.client Sprint.key Sprint.Sprint].
  destruct (counter w c k) as [v|] eqn:Hc.
  - destruct (Z_le_dec min_int64 (v + n)) as [Hlo|Hlo];
      [destruct (Z_le_dec (v + n) max_int64) as [Hhi|Hhi]|].
    + destruct (mem_IncrBy_ok c k n v w Hb Hc (conj Hlo Hhi))
        as (w1' & ex & -> & _ & Hb1 & _ & Hl).
      intros [= <- <-]. unfold Sprint.Get.
      cbn [rdb_Get Mem.MemWorld_Rdb Sprint.client Sprint.key Sprint.Sprint].
      rewrite mem_Get_forever by exact Hb1. rewrite Hl. cbn [Mem.e_val].
      rewrite ParseInt_itoa by (split; assumption). reflexivity.
    + unfold Mem.mem_IncrBy. rewrite command_forever by exact Hb.
      unfold counter in Hc.
      destruct (Mem.live w c k) as [e|];
        [rewrite Hc|injection Hc as <-];
        (destruct (_ <=? max_int64) eqn:Hle; [apply Z.leb_le in Hle; lia|]);
        rewrite andb_false_r; discriminate.
    + unfold Mem.mem_IncrBy. rewrite command_forever by exact Hb.
      unfold counter in Hc.
      destruct (Mem.live w c k) as [e|];
        [rewrite Hc|injection Hc as <-];
        (destruct (min_int64 <=? _) eqn:Hle; [apply Z.leb_le in Hle; lia|]);
        discriminate.
  - unfold Mem.mem_IncrBy. rewrite command_forever by exact Hb.
    unfold counter in Hc.
    destruct (Mem.live w c k) as [e|]; [rewrite Hc|discriminate].
    discriminate.
Qed.

Lemma IncrBy_then_Get_witness :
  exists w1,
    Sprint.IncrBy (Sprint.Sprint 0%N "ratelimit:u1:28333333") 5
      Sample.world_no_expiry = (w1, (12, None)) /\
    Sprint.Get (Sprint.Sprint 0%N "ratelimit:u1:28333333") w1
      = (w1, (12, None)).
Proof.
  assert (Hi : exists w1,
            Sprint.IncrBy (Sprint.Sprint 0%N "ratelimit:u1:28333333") 5
              Sample.world_no_expiry = (w1, (12, None)))
    by (eexists; vm_compute; reflexivity).
  destruct Hi as (w1 & Hi). exists w1. split; [exact Hi|].
  exact (IncrBy_then_Get 0%N "ratelimit:u1:28333333" 5 12
           Sample.world_no_expiry w1 eq_refl Hi).
Defined.

(** X20: [Get] on a counter hides every failure.  Whatever the store
    answers, it returns no error; the value is the int64 the stored text
    stands for when the read succeeds and the text is a decimal int64, and
    0 in every other case: a missing key, a value that is not a number, a
    failed command. *)
Theorem Sprint_Get_hides_every_failure :
  forall (W : Type) (HW : Rdb W) (b : Sprint.SprintBuilder) (w : W),
    exists v,
      Sprint.Get b w
        = (fst (rdb_Get (Sprint.client b) (Sprint.key b) w), (v, None)) /\
      v = match snd (rdb_Get (Sprint.client b) (Sprint.key b) w) with
          | Val s => match strconv_ParseInt s with
                     | Some z => z
                     | None => 0
                     end
          | Fail _ => 0
          end /\
      (forall z, in_int64 z ->
         snd (rdb_Get (Sprint.client b) (Sprint.key b) w) = Val (itoa z) ->
         v = z).
Proof.
  intros W HW b w. unfold Sprint.Get.
  destruct (rdb_Get (Sprint.client b) (Sprint.key b) w) as [w1 [s|e]];
    cbn [fst snd].
  - destruct (strconv_ParseInt s) as [z|] eqn:Hp; eexists;
      (split; [reflexivity|]); (split; [reflexivity|]);
      intros z' Hz [= ->]; rewrite ParseInt_itoa in Hp by exact Hz;
      congruence.
  - eexists. split; [reflexivity|]. split; [reflexivity|]. discriminate.
Qed.

(** ** The middleware on the reference store *)

(** [Retry-After] for a whole number of seconds is that number. *)
Lemma Seconds_0f_whole (n : Z) :
  0 <= n -> n * Second < 2 ^ 63 -> Seconds_0f (n * Second) = itoa n.
Proof.
  intros Hn Hlt. destruct (Seconds_whole n Hn Hlt) as [Hnum Hden].
  unfold Seconds_0f. cbv zeta. rewrite Hnum.
  destruct (Z.ltb_spec (n * Second) 0); [unfold Second in *; lia|].
  rewrite Z.abs_eq by nia.
  pose proof (round_half_even_sandwich (n * Float64.den (Seconds (n * Second)))
                (Float64.den (Seconds (n * Second))) n n Hden ltac:(lia)).
  replace (Float64.round_half_even _ _) with n by lia. reflexivity.
Qed.

(** Where the float is halfway between two integers [%.0f] prints the even
    one: 16777216.500000001 seconds, rounded to the float 16777216.5, are
    printed as 16777216. *)
Lemma Seconds_0f_half_to_even :
  Seconds_0f 16777216500000001 = "16777216" /\
  Seconds_0f 1500000000 = "2" /\
  Seconds_0f 2500000000 = "2" /\
  Seconds_0f (-400000000) = "-0".
Proof. repeat split; vm_compute; reflexivity. Qed.

(** One request on the reference store, the counter of its key at [v]. *)
Lemma Middleware_on_Mem (hl : Http.t) (next : Http.Handler)
    (r : Http.Request) (rw : Http.ResponseWriter) (w : Mem.MemWorld)
    (k : string) (v : Z) :
  let rl := Http.limiter hl in
  let cfg := RateLimiter.config rl in
  Mem.ctx_budget w = None ->
  Second <= Window cfg ->
  RateLimiter.buildKey rl (Http.KeyFunc hl r) (Mem.clock w) = Ret k ->
  counter w (RateLimiter.client rl) k = Some v ->
  0 <= v < max_int64 ->
  0 <= Rate cfg <= max_int64 ->
  exists w',
    Mem.clock w' = Mem.clock w /\ Mem.ctx_budget w' = None /\
    Mem.data w' =
      <[(RateLimiter.client rl, k) :=
          {| Mem.e_val := itoa (v + 1);
             Mem.e_exp := Some (Mem.clock w + Window cfg) |}]> (Mem.data w) /\
    Http.Middleware hl next r rw w =
      if v + 1 <=? Rate cfg
      then next r
             (rw ++ limit_headers (Rate cfg) (Rate cfg - (v + 1))
                      (Mem.clock w + Window cfg)) w'
      else (w', Ret ((rw ++ limit_headers (Rate cfg) 0
                              (Mem.clock w + Window cfg))
                     ++ too_many_requests (Window cfg))).
Proof.
  intros rl cfg Hb Hw Hk Hc Hv HR. unfold max_int64, min_int64 in *.
  destruct (AllowN_on_Mem rl (Http.KeyFunc hl r) k 1 v w Hb Hw Hk Hc)
    as (w' & Ha & Hc' & Hb' & Hd'); [unfold max_int64, min_int64; lia|].
  exists w'. split; [exact Hc'|]. split; [exact Hb'|]. split; [exact Hd'|].
  unfold Http.Middleware, RateLimiter.Allow. fold rl. rewrite Ha.
  fold cfg. unfold RateLimiter.decide_result, Time_Add.
  cbn [Allowed Remaining ResetAt RetryAfter].
  unfold Second in Hw. fold cfg in Hw.
  destruct (Z.ltb_spec (Window cfg) 0); [lia|].
  rewrite wrap64_id by (unfold in_int64, max_int64, min_int64; lia).
  destruct (Z.leb_spec (v + 1) (Rate cfg)); cbn [negb].
  - destruct (Z.ltb_spec (Rate cfg - (v + 1)) 0); [lia|]. reflexivity.
  - destruct (Z.ltb_spec (Rate cfg - (v + 1)) 0); [|lia]. reflexivity.
Qed.

(** X21: the middleware on the reference store, for a request whose
    counter stands at [v].  The counter goes to [v + 1] and expires a
    window from now.  If that is within the rate, the request goes on to
    the next handler, on a writer that carries the limit, the quota left
    and the reset time; if not, it is answered 429 with those headers, no
    quota left and [Retry-After] the window in seconds, and the next
    handler is not run. *)
Theorem Middleware_lets_through_or_rejects :
  forall (hl : Http.t) (next : Http.Handler) (r : Http.Request)
         (rw : Http.ResponseWriter) (w : Mem.MemWorld) (k : string) (v : Z),
    let rl := Http.limiter hl in
    let cfg := RateLimiter.config rl in
    Mem.ctx_budget w = None ->
    Second <= Window cfg ->
    RateLimiter.buildKey rl (Http.KeyFunc hl r) (Mem.clock w) = Ret k ->
    counter w (RateLimiter.client rl) k = Some v ->
    0 <= v < max_int64 ->
    0 <= Rate cfg <= max_int64 ->
    exists w',
      Mem.data w' =
        <[(RateLimiter.client rl, k) :=
            {| Mem.e_val := itoa (v + 1);
               Mem.e_exp := Some (Mem.clock w + Window cfg) |}]> (Mem.data w) /\
      Http.Middleware hl next r rw w =
        if v + 1 <=? Rate cfg
        then next r
               (rw ++ limit_headers (Rate cfg) (Rate cfg - (v + 1))
                        (Mem.clock w + Window cfg)) w'
        else (w', Ret ((rw ++ limit_headers (Rate cfg) 0
                                (Mem.clock w + Window cfg))
                       ++ too_many_requests (Window cfg))).
Proof.
  intros hl next r rw w k v rl cfg Hb Hw Hk Hc Hv HR.
  destruct (Middleware_on_Mem hl next r rw w k v Hb Hw Hk Hc Hv HR)
    as (w' & _ & _ & Hd & Hm).
  exists w'. split; [exact Hd|exact Hm].
Qed.

Lemma default_key_of_forwarded (r : Http.Request) :
  Http.Header_Get r "X-Forwarded-For" <> "" ->
  Http.defaultKeyFunc r = Http.Header_Get r "X-Forwarded-For".
Proof.
  intros Hx. unfold Http.defaultKeyFunc.
  destruct (String.eqb_spec (Http.Header_Get r "X-Forwarded-For") "");
    [contradiction|reflexivity].
Qed.

Lemma counter_absent (w : Mem.MemWorld) (c : Client) (k : string) :
  Mem.data w !! (c, k) = None -> counter w c k = Some 0.
Proof. intros Hd. unfold counter. rewrite live_unfold, Hd. reflexivity. Qed.

(** Requests with forwarded addresses of their own, on counters that do
    not exist yet: each goes through with the whole quota. *)
Lemma serve_all_forwarded (hl : Http.t) (next : Http.Handler)
    (t : time_Time) (rs : list Http.Request) :
  let rl := Http.limiter hl in
  let cfg := RateLimiter.config rl in
  Http.KeyFunc hl = Http.defaultKeyFunc ->
  Second <= Window cfg ->
  1 <= Rate cfg <= max_int64 ->
  0 <= Unix t <= max_int64 ->
  (forall r rw w, fst (next r rw w) = w) ->
  NoDup (map (fun r => Http.Header_Get r "X-Forwarded-For") rs) ->
  Forall (fun r => Http.Header_Get r "X-Forwarded-For" <> "") rs ->
  forall w : Mem.MemWorld,
    Mem.clock w = t -> Mem.ctx_budget w = None ->
    (forall r k, In r rs ->
       RateLimiter.buildKey rl (Http.defaultKeyFunc r) t = Ret k ->
       Mem.data w !! (RateLimiter.client rl, k) = None) ->
    Forall2
      (fun r out =>
         exists w', out = snd (next r (limit_headers (Rate cfg) (Rate cfg - 1)
                                         (t + Window cfg)) w'))
      rs (snd (Http.serve_all (Http.Middleware hl next) rs w)).
Proof.
  intros rl cfg Hkf Hw HR Ht Hnext Hnd Hne.
  induction rs as [|r rs IH]; intros w Hclk Hb Hfresh; [constructor|].
  cbn [Http.serve_all]. cbn [map] in Hnd. apply NoDup_cons in Hnd.
  destruct Hnd as [Hnotin Hnd]. inversion Hne as [|? ? Hr Hrs]; subst.
  destruct (buildKey_returns rl (Http.defaultKeyFunc r) (Mem.clock w) Hw)
    as (k & Hk).
  assert (Hk' : RateLimiter.buildKey rl (Http.KeyFunc hl r) (Mem.clock w)
                = Ret k) by (rewrite Hkf; exact Hk).
  destruct (Middleware_on_Mem hl next r [] w k 0 Hb Hw Hk')
    as (w' & Hc' & Hb' & Hd' & Hm).
  { apply counter_absent. apply (Hfresh r k); [left; reflexivity|exact Hk]. }
  { unfold max_int64. lia. }
  { fold rl cfg. lia. }
  fold rl cfg in Hm, Hd'.
  destruct (Z.leb_spec (0 + 1) (Rate cfg)); [|lia].
  rewrite Hm. cbn [app Z.add].
  pose proof (Hnext r (limit_headers (Rate cfg) (Rate cfg - 1)
                         (Mem.clock w + Window cfg)) w') as Hw1.
  destruct (next r _ w') as [w1 out] eqn:Hn. cbn [fst] in Hw1. subst w1.
  specialize (IH Hnd Hrs w' Hc' Hb').
  destruct (Http.serve_all (Http.Middleware hl next) rs w') as [w2 outs].
  cbn [snd] in *. constructor.
  - exists w'. symmetry. exact (f_equal snd Hn).
  - apply IH. intros r' k' Hin Hk2. rewrite Hd'.
    rewrite lookup_insert_ne; [apply (Hfresh r' k'); [right; exact Hin|exact Hk2]|].
    intros [= Heq]. subst k'.
    destruct (buildKey_inj rl (Http.defaultKeyFunc r) (Http.defaultKeyFunc r')
                (Mem.clock w) (Mem.clock w) Hw Ht Ht) as [Hid _].
    { rewrite Hk, Hk2. reflexivity. }
    apply Hnotin. apply list_elem_of_In, in_map_iff. exists r'. split; [|exact Hin].
    assert (Hr' : Http.Header_Get r' "X-Forwarded-For" <> "").
    { rewrite Forall_forall in Hrs. apply Hrs, list_elem_of_In, Hin. }
    rewrite <- (default_key_of_forwarded r' Hr').
    rewrite <- (default_key_of_forwarded r Hr). exact Hid.
Qed.

Lemma Middleware_lets_through_or_rejects_witness :
  exists w',
    Http.Middleware http_limiter served (forwarded_for "10.0.0.1" "192.0.2.1:4000")
      [] (Mem.put 0%N "ratelimit:10.0.0.1:28333333" "2" Sample.world)
    = (w', Ret (limit_headers 2 0 (1700000000 * Second + Minute)
                ++ too_many_requests Minute)).
Proof.
  assert (Hk : RateLimiter.buildKey (Http.limiter http_limiter)
                 (Http.KeyFunc http_limiter
                    (forwarded_for "10.0.0.1" "192.0.2.1:4000"))
                 (Mem.clock Sample.world)
               = Ret "ratelimit:10.0.0.1:28333333")
    by (vm_compute; reflexivity).
  assert (Hw : Second <= Window (RateLimiter.config (Http.limiter http_limiter)))
    by (vm_compute; discriminate).
  assert (Hc : counter (Mem.put 0%N "ratelimit:10.0.0.1:28333333" "2"
                          Sample.world)
                 (RateLimiter.client (Http.limiter http_limiter))
                 "ratelimit:10.0.0.1:28333333" = Some 2)
    by (vm_compute; reflexivity).
  assert (Hv : 0 <= 2 < max_int64) by (vm_compute; split; [discriminate|reflexivity]).
  assert (HR : 0 <= Rate (RateLimiter.config (Http.limiter http_limiter))
               <= max_int64) by (vm_compute; split; discriminate).
  destruct (Middleware_lets_through_or_rejects http_limiter served
              (forwarded_for "10.0.0.1" "192.0.2.1:4000") []
              (Mem.put 0%N "ratelimit:10.0.0.1:28333333" "2" Sample.world)
              "ratelimit:10.0.0.1:28333333" 2 eq_refl Hw Hk Hc Hv HR)
    as (w' & _ & Hm).
  exists w'. exact Hm.
Defined.

(** X22: with the default key function the counter is the one the request
    names in X-Forwarded-For.  Requests that each carry a forwarded address
    of their own are counted apart, whatever address they come from: on
    counters that do not exist yet every one of them goes on to the next
    handler with the whole quota but one left, and none is turned away,
    however many there are. *)
Theorem forwarded_address_picks_the_counter :
  forall (hl : Http.t) (next : Http.Handler) (rs : list Http.Request)
         (w : Mem.MemWorld),
    let rl := Http.limiter hl in
    let cfg := RateLimiter.config rl in
    Http.KeyFunc hl = Http.defaultKeyFunc ->
    Mem.ctx_budget w = None ->
    Second <= Window cfg ->
    1 <= Rate cfg <= max_int64 ->
    0 <= Unix (Mem.clock w) <= max_int64 ->
    (forall r rw w, fst (next r rw w) = w) ->
    NoDup (map (fun r => Http.Header_Get r "X-Forwarded-For") rs) ->
    Forall (fun r => Http.Header_Get r "X-Forwarded-For" <> "") rs ->
    (forall r k, In r rs ->
       RateLimiter.buildKey rl (Http.defaultKeyFunc r) (Mem.clock w) = Ret k ->
       Mem.data w !! (RateLimiter.client rl, k) = None) ->
    Forall2
      (fun r out =>
         exists w', out = snd (next r (limit_headers (Rate cfg) (Rate cfg - 1)
                                         (Mem.clock w + Window cfg)) w'))
      rs (snd (Http.serve_all (Http.Middleware hl next) rs w)).
Proof.
  intros hl next rs w rl cfg Hkf Hb Hw HR Ht Hnext Hnd Hne Hfresh.
  apply (serve_all_forwarded hl next (Mem.clock w) rs); auto.
Qed.

Lemma forwarded_address_picks_the_counter_witness :
  Forall2
    (fun r out =>
       exists w', out = snd (served r (limit_headers 2 (2 - 1)
                                         (1700000000 * Second + Minute)) w'))
    [forwarded_for "10.0.0.1" "192.0.2.1:4000";
     forwarded_for "10.0.0.2" "192.0.2.1:4000";
     forwarded_for "10.0.0.3" "192.0.2.1:4000"]
    (snd (Http.serve_all (Http.Middleware http_limiter served)
            [forwarded_for "10.0.0.1" "192.0.2.1:4000";
             forwarded_for "10.0.0.2" "192.0.2.1:4000";
             forwarded_for "10.0.0.3" "192.0.2.1:4000"] Sample.world)).
Proof.
  apply (forwarded_address_picks_the_counter http_limiter served
           [forwarded_for "10.0.0.1" "192.0.2.1:4000";
            forwarded_for "10.0.0.2" "192.0.2.1:4000";
            forwarded_for "10.0.0.3" "192.0.2.1:4000"] Sample.world).
  - reflexivity.
  - reflexivity.
  - vm_compute. discriminate.
  - vm_compute. split; [discriminate|discriminate].
  - vm_compute. split; discriminate.
  - reflexivity.
  - cbn [map forwarded_for Http.Header_Get String.eqb Ascii.eqb Bool.eqb].
    repeat (apply NoDup_cons_2;
            [intros Hin;
             repeat (apply elem_of_cons in Hin as [Hin|Hin]; [discriminate|]);
             inversion Hin|]).
    apply NoDup_nil_2.
  - repeat constructor; discriminate.
  - intros r k _ _. apply lookup_empty.
Defined.

(** X23: the middleware fails closed.  When any command of the limiter's
    round trip fails, the request is answered 500 on the writer as it was:
    no rate-limit header is set and the next handler is not run.  The round
    trip is sent whole: a failed increment does not keep the expiry and the
    TTL query from being issued. *)
Theorem Middleware_fails_closed :
  forall (W : Type) (HW : Rdb W) (hl : Http.t) (next : Http.Handler)
         (r : Http.Request) (rw : Http.ResponseWriter) (w w1 w2 w3 : W)
         (k : string) (r1 : reply Z) (r2 : reply bool)
         (r3 : reply time_Duration),
    let rl := Http.limiter hl in
    RateLimiter.buildKey rl (Http.KeyFunc hl r) (time_Now w) = Ret k ->
    rdb_IncrBy (RateLimiter.client rl) k 1 w = (w1, r1) ->
    rdb_Expire (RateLimiter.client rl) k (Window (RateLimiter.config rl)) w1
      = (w2, r2) ->
    rdb_TTL (RateLimiter.client rl) k w2 = (w3, r3) ->
    RateLimiter.pipe_err r1 r2 r3 <> None ->
    Http.Middleware hl next r rw w =
      (w3, Ret (rw ++ [Http.Error "Internal Server Error" 500])).
Proof.
  intros W HW hl next r rw w w1 w2 w3 k r1 r2 r3 rl Hk H1 H2 H3 He.
  unfold Http.Middleware, RateLimiter.Allow, RateLimiter.AllowN. fold rl.
  rewrite Hk, H1, H2, H3.
  destruct (RateLimiter.pipe_err r1 r2 r3); [reflexivity|congruence].
Qed.

Lemma Middleware_fails_closed_witness :
  Http.Middleware http_limiter served (forwarded_for "10.0.0.1" "192.0.2.1:4000")
    [] world_cancelled
  = (world_cancelled, Ret [Http.Error "Internal Server Error" 500]).
Proof.
  refine (Middleware_fails_closed Mem.MemWorld _ http_limiter served
            (forwarded_for "10.0.0.1" "192.0.2.1:4000") [] world_cancelled
            world_cancelled world_cancelled world_cancelled
            "ratelimit:10.0.0.1:28333333"
            (Fail Mem.context_Canceled) (Fail Mem.context_Canceled)
            (Fail Mem.context_Canceled) _ _ _ _ _);
    try (vm_compute; reflexivity).
  discriminate.
Defined.

(** ** Across a window boundary *)

Lemma check_all_app {W : Type} `{Rdb W} (rl : RateLimiter.t)
    (l1 l2 : list (string * Z * (W -> W))) (w : W) :
  check_all rl (l1 ++ l2) w =
  let '(w1, rs1) := check_all rl l1 w in
  let '(w2, rs2) := check_all rl l2 w1 in
  (w2, rs1 ++ rs2).
Proof.
  revert w. induction l1 as [|[[key n] env] l1 IH]; intros w; cbn [app check_all].
  - destruct (check_all rl l2 w) as [w2 rs2]. reflexivity.
  - destruct (RateLimiter.AllowN rl key n (env w)) as [w0 r].
    rewrite IH. destruct (check_all rl l1 w0) as [w1 rs1].
    destruct (check_all rl l2 w1) as [w2 rs2]. reflexivity.
Qed.

(** [checks_in_one_window], with the world the checks leave: only the
    counter of the window has changed. *)
Lemma checks_in_one_window_world (rl : RateLimiter.t) (id k : string)
    (times : list time_Time) :
  forall (w : Mem.MemWorld) (v : Z),
    Mem.ctx_budget w = None ->
    Second <= Window (RateLimiter.config rl) ->
    Forall (fun t => RateLimiter.buildKey rl id t = Ret k) times ->
    (forall t t', In t times -> In t' times ->
                  t' < t + Window (RateLimiter.config rl)) ->
    match times with
    | [] => True
    | t0 :: _ => counter (Mem.set_clock t0 w) (RateLimiter.client rl) k = Some v
    end ->
    min_int64 <= v ->
    v + Z.of_nat (length times) <= max_int64 ->
    exists w',
      check_all rl (checks_at id times) w
        = (w', results_from (RateLimiter.config rl) v times) /\
      Mem.ctx_budget w' = None /\
      forall k2, k2 <> (RateLimiter.client rl, k) ->
                 Mem.data w' !! k2 = Mem.data w !! k2.
Proof.
  induction times as [|t0 ts IH]; intros w v Hb Hw Hk Hclose Hc Hlo Hhi.
  { exists w. repeat split. exact Hb. }
  cbn [checks_at map check_all results_from].
  inversion Hk as [|? ? Hk0 Hks]; subst.
  destruct (AllowN_on_Mem rl id k 1 v (Mem.set_clock t0 w) Hb Hw Hk0 Hc)
    as (w1 & -> & Hc1 & Hb1 & Hd1).
  { cbn [length] in Hhi. lia. }
  cbn [Mem.set_clock Mem.clock Mem.data] in *.
  destruct (IH w1 (v + 1) Hb1 Hw Hks) as (w' & Hrun & Hb' & Hfr).
  - intros t t' Ht Ht'. apply Hclose; right; assumption.
  - destruct ts as [|t1 ts]; [exact I|].
    apply (counter_after_check _ k (v + 1) t0 t1
             (Window (RateLimiter.config rl))).
    + rewrite Hd1. apply lookup_insert_eq.
    + apply Hclose; [left; reflexivity|right; left; reflexivity].
  - lia.
  - cbn [length] in Hhi. lia.
  - fold (checks_at id ts). rewrite Hrun. exists w'.
    split; [reflexivity|]. split; [exact Hb'|].
    intros k2 Hk2. rewrite (Hfr k2 Hk2), Hd1.
    apply lookup_insert_ne. congruence.
Qed.

Lemma results_from_allowed (cfg : RateLimitConfig) (times : list time_Time) :
  forall v : Z,
    v + Z.of_nat (length times) <= Rate cfg ->
    Forall (fun out => exists r, out = Ret (Some r, None) /\ Allowed r = true)
      (results_from cfg v times).
Proof.
  induction times as [|t ts IH]; intros v Hv; cbn [results_from];
    constructor.
  - eexists. split; [reflexivity|]. unfold RateLimiter.decide_result.
    cbn [Allowed]. apply Z.leb_le. cbn [length] in Hv. lia.
  - apply IH. cbn [length] in Hv. lia.
Qed.

(** X24: the limiter counts per window, so twice the rate goes through
    around a window boundary.  For a window from one second to 2^24
    seconds, on fresh counters, [R] single-unit checks in one window index
    of the limiter followed by [R] in the next are all allowed, however
    close to the boundary, and to each other, they are made. *)
Theorem window_boundary_lets_twice_the_rate_through :
  forall (rl : RateLimiter.t) (id : string) (w : Mem.MemWorld)
         (times1 times2 : list time_Time) (idx : Z),
    let cfg := RateLimiter.config rl in
    let R := Rate cfg in
    let key i := KeyPrefix cfg +:+ ":" +:+ id +:+ ":" +:+ itoa i in
    0 <= R < max_int64 ->
    Second <= Window cfg < 16777216 * Second ->
    Mem.ctx_budget w = None ->
    Mem.data w !! (RateLimiter.client rl, key idx) = None ->
    Mem.data w !! (RateLimiter.client rl, key (idx + 1)) = None ->
    Z.of_nat (length times1) = R ->
    Z.of_nat (length times2) = R ->
    Forall (fun t => 0 <= Unix t <= max_int64 /\ windowIndex cfg t = idx)
      times1 ->
    Forall (fun t => 0 <= Unix t <= max_int64 /\ windowIndex cfg t = idx + 1)
      times2 ->
    Forall (fun out => exists r, out = Ret (Some r, None) /\ Allowed r = true)
      (snd (check_all rl (checks_at id (times1 ++ times2)) w)).
Proof.
  intros rl id w times1 times2 idx cfg R key HR Hw2 Hb Hf1 Hf2 Hl1 Hl2 Ht1 Ht2.
  pose proof (proj1 Hw2) as Hw.
  assert (Hgroup : forall (times : list time_Time) (i : Z) (w0 : Mem.MemWorld),
            Mem.ctx_budget w0 = None ->
            Mem.data w0 !! (RateLimiter.client rl, key i) = None ->
            Z.of_nat (length times) = R ->
            Forall (fun t => 0 <= Unix t <= max_int64 /\ windowIndex cfg t = i)
              times ->
            exists w',
              check_all rl (checks_at id times) w0
                = (w', results_from cfg 0 times) /\
              Mem.ctx_budget w' = None /\
              forall k2, k2 <> (RateLimiter.client rl, key i) ->
                         Mem.data w' !! k2 = Mem.data w0 !! k2).
  { intros times i w0 Hb0 Hfresh Hlen Htimes.
    apply (checks_in_one_window_world rl id (key i)).
    - exact Hb0.
    - exact Hw.
    - eapply Forall_impl; [exact Htimes|]. cbn beta. intros t [Ht Hi].
      rewrite (buildKey_value rl id t Hw Ht). unfold cfg in Hi.
      rewrite Hi. reflexivity.
    - intros t t' Ht Ht'. apply same_window_close; [exact Hw2|].
      rewrite Forall_forall in Htimes.
      apply list_elem_of_In in Ht, Ht'.
      destruct (Htimes _ Ht) as [_ Hi]. destruct (Htimes _ Ht') as [_ Hi'].
      unfold cfg in Hi, Hi'. congruence.
    - destruct times as [|t0 ts]; [exact I|]. apply counter_absent.
      exact Hfresh.
    - unfold min_int64. lia.
    - unfold max_int64 in *. lia. }
  unfold checks_at. rewrite map_app. fold (checks_at id times1).
  fold (checks_at id times2). rewrite check_all_app.
  destruct (Hgroup times1 idx w Hb Hf1 Hl1 Ht1) as (w1 & -> & Hb1 & Hfr1).
  destruct (Hgroup times2 (idx + 1) w1 Hb1) as (w2 & -> & _); try assumption.
  { rewrite Hfr1; [exact Hf2|]. intros [= Heq].
    do 4 apply (inj (String.app _)) in Heq.
    apply itoa_inj in Heq. lia. }
  cbn [snd]. apply Forall_app. split; apply results_from_allowed; lia.
Qed.

Lemma window_boundary_lets_twice_the_rate_through_witness :
  Forall (fun out => exists r, out = Ret (Some r, None) /\ Allowed r = true)
    (snd (check_all Sample.limiter
            (checks_at "u1"
               ([1700000040 * Second - 2; 1700000040 * Second - 1]
                ++ [1700000040 * Second; 1700000040 * Second + 1]))
            Sample.world)).
Proof.
  apply (window_boundary_lets_twice_the_rate_through Sample.limiter "u1"
           Sample.world
           [1700000040 * Second - 2; 1700000040 * Second - 1]
           [1700000040 * Second; 1700000040 * Second + 1] 28333333).
  - vm_compute. split; [discriminate|reflexivity].
  - vm_compute. split; [discriminate|reflexivity].
  - reflexivity.
  - apply lookup_empty.
  - apply lookup_empty.
  - reflexivity.
  - reflexivity.
  - repeat constructor; vm_compute; try discriminate; reflexivity.
  - repeat constructor; vm_compute; try discriminate; reflexivity.
Defined.
